(** * Frigate bridge: resolution cache, streaming gateway, stream discovery

    A shallow embedding of the media-delivery and stream-discovery code of
    the bridge plugin ([src/main.ts], [src/camera.ts]) together with the
    properties its specification states about it.

    Conventions of the embedding.
    - JavaScript strings are Rocq [string]s (byte strings); template
      literals are written with [+:+].
    - [Date.now()] is an integer number of milliseconds, a [Z] handed to
      every operation that reads the clock.
    - A JavaScript object that is shared and mutated (a cache entry, the
      plugin's configuration fields, the device storage) lives in an
      explicit store that every operation takes and returns.
    - An [async] function is cut at its [await]s: one definition per
      stretch of code that runs without suspension, so that the
      interleavings of the event loop are sequences of these steps.
    - A call into a collaborator that is not part of the two source files
      (the HTTP client, the mixin device, the local probe) gets its outcome
      from an environment record; the call itself is recorded in a log. *)

From Stdlib Require Import ZArith QArith Qabs String Ascii List Lia.
From stdpp Require Import gmap strings list fin_maps pretty.

Local Open Scope Z_scope.

(** ** Thrown values *)

(** What the code observes of a value caught by [catch (e)]:
    [e instanceof Error], [e?.message], [String(e)] and
    [JSON.stringify(e)] as a template literal renders it. [null] and
    [undefined] can be thrown too: [nullish] tells them apart from the
    values that have properties. A nullish value is no [Error], has no
    message, and [String] makes "null" or "undefined" of it. The values
    represented are those whose [message] is a string or absent and that
    [JSON.stringify] serializes: an object that refers to itself, or
    whose accessors throw, is not among them. *)
Record JsError := {
  is_Error : bool;
  message : option string;
  as_String : string;
  as_JSON : string;
  nullish : bool
}.

(** [new Error(msg)] *)
Definition new_Error (msg : string) : JsError :=
  {| is_Error := true; message := Some msg;
     as_String := "Error: " +:+ msg; as_JSON := "{}"; nullish := false |}.

(** The [TypeError] the runtime raises itself (property read on
    [undefined], invalid URL). *)
Definition TypeError (msg : string) : JsError :=
  {| is_Error := true; message := Some msg;
     as_String := "TypeError: " +:+ msg; as_JSON := "{}"; nullish := false |}.

(** [undefined], thrown: what a promise rejected without a reason makes
    its awaiter catch. *)
Definition thrown_undefined : JsError :=
  {| is_Error := false; message := None;
     as_String := "undefined"; as_JSON := "undefined"; nullish := true |}.

(** Outcome of a call that may throw. *)
Inductive Completion (A : Type) : Type :=
| Normal (a : A)
| Throw (e : JsError).
Arguments Normal {A} a.
Arguments Throw {A} e.

(** [e.message], a property read without a guard: on [null] and
    [undefined] it throws. *)
Definition read_message (e : JsError) : Completion (option string) :=
  if nullish e
  then Throw (TypeError ("Cannot read properties of " +:+ as_String e +:+
                         " (reading 'message')"))
  else Normal (message e).

#[global] Instance Completion_ret : MRet Completion := fun A a => Normal a.

#[global] Instance Completion_bind : MBind Completion := fun A B f c =>
  match c with
  | Normal a => f a
  | Throw e => Throw e
  end.

(** Code that reads and writes a store of type [S] and may throw. *)
Definition M (S A : Type) : Type := S -> S * Completion A.

#[global] Instance M_ret S : MRet (M S) := fun A a s => (s, Normal a).

#[global] Instance M_bind S : MBind (M S) := fun A B f c s =>
  match c s with
  | (s', Normal a) => f a s'
  | (s', Throw e) => (s', Throw e)
  end.

Definition lift {S A} (c : Completion A) : M S A := fun s => (s, c).

Definition get {S} : M S S := fun s => (s, Normal s).

Definition modify {S} (f : S -> S) : M S unit := fun s => (f s, Normal tt).

(** [try { body } catch (e) { handler }] *)
Definition try_catch {S A} (body : M S A) (handler : JsError -> M S A) : M S A :=
  fun s =>
    match body s with
    | (s', Throw e) => handler e s'
    | done => done
    end.

(** How [`${x}`] renders a string that may be [undefined]. *)
Definition render (x : option string) : string := default "undefined" x.

(** Truthiness of a string: every string but the empty one. *)
Definition truthy_string (s : string) : bool :=
  match s with
  | EmptyString => false
  | String _ _ => true
  end.

(** * The resolution cache ([getVodUrlForEvent], main.ts 21-67) *)

Module VodCache.

(** [type VodUrlCacheEntry]. [inFlight] holds a promise; promises are
    named by their position in the promise table of the store. *)
Record VodUrlCacheEntry := {
  vodUrl : option string;
  fetchedAt : option Z;
  inFlight : option nat
}.

(** [{}] *)
Definition empty_entry : VodUrlCacheEntry :=
  {| vodUrl := None; fetchedAt := None; inFlight := None |}.

Definition VOD_URL_CACHE_TTL_MS : Z := 5 * 60 * 1000.

(** The [options] argument. *)
Record Options := {
  cacheKey : string;
  serverUrl : string;
  eventId : string
}.

(** [DetectionData], the three fields the manifest URL is built from, as
    the template literal renders them. *)
Record DetectionData := {
  camera : string;
  start_time : string;
  end_time : string
}.

(** How [axios.get(eventUrl)] ends: it rejects, or it resolves to a
    response whose [data] is the event (or nothing). *)
Inductive AxiosOutcome :=
| AxiosRejects (e : JsError)
| AxiosData (d : option DetectionData).

Inductive PromiseState :=
| Pending
| Fulfilled (v : string)
| Rejected (e : JsError).

(** The promise made by the immediately-invoked async function. Its
    closure keeps [entry] and [options]. An entry is created once per key
    and the map never replaces or deletes it ([vodUrlCache.set] is called
    with the object that is already there), so the captured [entry] is the
    object stored under [cacheKey]: the closure is recorded by that key. *)
Record Job := {
  job_key : string;
  job_serverUrl : string;
  job_state : PromiseState
}.

(** The module-level state: the [vodUrlCache] map, the promises created so
    far, and the URLs handed to [axios.get] (the upstream calls). *)
Record Store := {
  cache : gmap string VodUrlCacheEntry;
  promises : list Job;
  upstream : list string
}.

Definition empty_store : Store :=
  {| cache := ∅; promises := []; upstream := [] |}.

(** Where [getVodUrlForEvent] stands when it stops running: it has
    returned, or it is suspended at [await entry.inFlight] (line 63) with
    [entry] and the awaited promise in its frame. *)
Inductive Call :=
| Returned (url : string)
| Awaiting (key : string) (p : nat).

(** Lines 39-41: the test for a fresh cached value. A [fetchedAt] of [0]
    and an empty [vodUrl] are falsy. *)
Definition fresh (now : Z) (cached : option VodUrlCacheEntry) : option string :=
  match cached with
  | Some c =>
      match vodUrl c, fetchedAt c with
      | Some u, Some t =>
          if truthy_string u && negb (t =? 0) && (now - t <? VOD_URL_CACHE_TTL_MS)
          then Some u else None
      | _, _ => None
      end
  | None => None
  end.

Definition set_inFlight (o : option nat) (e : VodUrlCacheEntry) : VodUrlCacheEntry :=
  {| vodUrl := vodUrl e; fetchedAt := fetchedAt e; inFlight := o |}.

Definition set_vodUrl (u : string) (t : Z) (e : VodUrlCacheEntry) : VodUrlCacheEntry :=
  {| vodUrl := Some u; fetchedAt := Some t; inFlight := inFlight e |}.

(** Lines 38-63, up to the suspension at [await]. When no computation is
    in flight the async function of lines 47-59 is created and runs to its
    own first [await]: [axios.get] has been called with [eventUrl]. *)
Definition getVodUrlForEvent (now : Z) (options : Options) (s : Store) : Store * Call :=
  let cached := cache s !! cacheKey options in
  match fresh now cached with
  | Some u => (s, Returned u)
  | None =>
      let entry := default empty_entry cached in
      match inFlight entry with
      | Some p =>
          ({| cache := <[cacheKey options := entry]> (cache s);
              promises := promises s;
              upstream := upstream s |},
           Awaiting (cacheKey options) p)
      | None =>
          let p := length (promises s) in
          let eventUrl := serverUrl options +:+ "/events/" +:+ eventId options in
          ({| cache := <[cacheKey options := set_inFlight (Some p) entry]> (cache s);
              promises := promises s ++
                [{| job_key := cacheKey options;
                    job_serverUrl := serverUrl options;
                    job_state := Pending |}];
              upstream := upstream s ++ [eventUrl] |},
           Awaiting (cacheKey options) p)
      end
  end.

Section Resolution.

(** [new URL(s).origin]; [None] when the constructor throws. *)
Variable URL_origin : string -> option string.

(** What promise [p] is settled to, by the outcome of its request. *)
Definition settled_to (server : string) (r : AxiosOutcome) : PromiseState :=
  match r with
  | AxiosRejects e => Rejected e
  | AxiosData event =>
      match URL_origin server with
      | None => Rejected (TypeError "Invalid URL")
      | Some o =>
          match event with
          | None => Rejected (TypeError
              "Cannot read properties of undefined (reading 'camera')")
          | Some ev => Fulfilled (o +:+ "/vod/" +:+ camera ev +:+ "/start/" +:+
              start_time ev +:+ "/end/" +:+ end_time ev +:+ "/index.m3u8")
          end
      end
  end.

Definition settle (p : nat) (st : PromiseState) (s : Store) : list Job :=
  match promises s !! p with
  | Some j =>
      <[p := {| job_key := job_key j; job_serverUrl := job_serverUrl j;
                job_state := st |}]> (promises s)
  | None => promises s
  end.

(** Lines 53-58: the async function resumes when the request of promise
    [p] settles, [now] being [Date.now()] at that moment. *)
Definition axios_settles (p : nat) (r : AxiosOutcome) (now : Z) (s : Store) : Store :=
  match promises s !! p with
  | Some {| job_key := key; job_serverUrl := server; job_state := Pending |} =>
      let reject e :=
        {| cache := cache s; promises := settle p (Rejected e) s;
           upstream := upstream s |} in
      match r with
      | AxiosRejects e => reject e
      | AxiosData event =>
          match URL_origin server with
          | None => reject (TypeError "Invalid URL")
          | Some frigateOrigin =>
              match event with
              | None =>
                  reject (TypeError
                    "Cannot read properties of undefined (reading 'camera')")
              | Some event =>
                  let url := frigateOrigin +:+ "/vod/" +:+ camera event +:+
                    "/start/" +:+ start_time event +:+ "/end/" +:+
                    end_time event +:+ "/index.m3u8" in
                  {| cache := alter (set_vodUrl url now) key (cache s);
                     promises := settle p (Fulfilled url) s;
                     upstream := upstream s |}
              end
          end
      end
  | _ => s
  end.

(** What [await] yields for a promise in a given state. *)
Definition await_result (st : PromiseState) : option (Completion string) :=
  match st with
  | Pending => None
  | Fulfilled v => Some (Normal v)
  | Rejected e => Some (Throw e)
  end.

(** Lines 62-66: a caller suspended on promise [p] resumes once [p] is
    settled; [None] while it is still pending. The [finally] block clears
    [entry.inFlight] on both ways out. *)
Definition resume (key : string) (p : nat) (s : Store)
  : option (Store * Completion string) :=
  let s' := {| cache := alter (set_inFlight None) key (cache s);
               promises := promises s;
               upstream := upstream s |} in
  match promises s !! p with
  | Some j =>
      match await_result (job_state j) with
      | Some out => Some (s', out)
      | None => None
      end
  | None => None
  end.

(** A whole call that nothing interleaves with: run to the [await], let
    the awaited request settle with outcome [r] at time [later] if it is
    still pending, resume. The last case stands for a caller that would
    wait for ever, on a promise that is not in the table; no store built
    by these operations has one (lemma [alone_resumes]). *)
Definition getVodUrlForEvent_alone (now later : Z) (r : AxiosOutcome)
    (options : Options) (s : Store) : Store * Completion string :=
  match getVodUrlForEvent now options s with
  | (s1, Returned u) => (s1, Normal u)
  | (s1, Awaiting key p) =>
      let s2 := axios_settles p r later s1 in
      match resume key p s2 with
      | Some out => out
      | None => (s2, Throw (new_Error "unsettled promise"))
      end
  end.

(** One turn of the event loop that touches the cache: a call runs to its
    [await] (or returns), a pending request settles, a suspended caller
    resumes. *)
Inductive Turn :=
| CallTurn (now : Z) (options : Options)
| SettleTurn (p : nat) (r : AxiosOutcome) (now : Z)
| ResumeTurn (key : string) (p : nat).

Definition turn (t : Turn) (s : Store) : Store :=
  match t with
  | CallTurn now options => fst (getVodUrlForEvent now options s)
  | SettleTurn p r now => axios_settles p r now s
  | ResumeTurn key p =>
      match resume key p s with
      | Some (s', _) => s'
      | None => s
      end
  end.

(** The clock reads a positive number of milliseconds since the epoch. *)
Definition clock_positive (t : Turn) : Prop :=
  match t with
  | CallTurn now _ => 0 < now
  | SettleTurn _ _ now => 0 < now
  | ResumeTurn _ _ => True
  end.

(** The stores the process can be in: any sequence of turns from the
    empty cache the module starts with. *)
Inductive reachable : Store -> Prop :=
| reach_start : reachable empty_store
| reach_turn s t : reachable s -> clock_positive t -> reachable (turn t s).

(** What the code stores in an entry: a [vodUrl] that is a non-empty
    string and a [fetchedAt] read from the clock. *)
Definition entry_sound (e : VodUrlCacheEntry) : Prop :=
  (forall u, vodUrl e = Some u -> truthy_string u = true) /\
  (forall t, fetchedAt e = Some t -> 0 < t).

(** Every [inFlight] names a promise of the table. *)
Definition promises_known (s : Store) : Prop :=
  map_Forall (fun _ e =>
    forall p, inFlight e = Some p -> (p < length (promises s))%nat) (cache s).

End Resolution.

(** The key whose entry a turn works on: the call's key, the key kept in
    the closure of the promise that settles, the key in the frame of the
    caller that resumes. *)
Definition turn_key (t : Turn) (s : Store) : option string :=
  match t with
  | CallTurn _ options => Some (cacheKey options)
  | SettleTurn p _ _ => job_key <$> promises s !! p
  | ResumeTurn key _ => Some key
  end.

(** ** A setting to run the cache in *)

(** One server, one event. *)
Definition demo_origin (u : string) : option string :=
  if String.eqb u "http://nvr:5000/api" then Some "http://nvr:5000" else None.

Definition demo_options : Options :=
  {| cacheKey := "cam1:ev1"; serverUrl := "http://nvr:5000/api"; eventId := "ev1" |}.

Definition demo_event : DetectionData :=
  {| camera := "porch"; start_time := "100.5"; end_time := "130.25" |}.

(** The store after one resolved call at time 1000, answered at 1200. *)
Definition demo_cached : Store :=
  turn demo_origin (ResumeTurn "cam1:ev1" 0)
    (turn demo_origin (SettleTurn 0 (AxiosData (Some demo_event)) 1200)
       (turn demo_origin (CallTurn 1000 demo_options) empty_store)).

(** A call at 1000 is pending on promise 0; its request then fails. *)
Definition demo_pending : Store :=
  turn demo_origin (CallTurn 1000 demo_options) empty_store.

End VodCache.

(** * JavaScript values and built-ins used by the probe code *)

Module Js.

(** A value as [JSON.parse] or a collaborator hands it to the code.
    Numbers are the integers (those below 10^21 in magnitude, which
    [String] prints without an exponent); the keys of an object are
    distinct and its fields are listed in the order [Object.values]
    enumerates them. *)
#[warnings="-register-all"] Inductive Json :=
| JUndefined
| JNull
| JBool (b : bool)
| JNum (n : Z)
| JStr (s : string)
| JArr (items : list Json)
| JObj (fields : list (string * Json)).

(** The finite numbers ([Number.isFinite]); [None] stands for [NaN] and
    the two infinities. *)
Definition Number := option Q.

Definition truthy (v : Json) : bool :=
  match v with
  | JUndefined | JNull => false
  | JBool b => b
  | JNum n => negb (n =? 0)
  | JStr s => truthy_string s
  | JArr _ | JObj _ => true
  end.

Definition isNullish (v : Json) : bool :=
  match v with
  | JUndefined | JNull => true
  | _ => false
  end.

(** [Array.isArray(v)] *)
Definition isArray (v : Json) : bool :=
  match v with
  | JArr _ => true
  | _ => false
  end.

(** [typeof v === 'object'] ([null] included). *)
Definition typeof_object (v : Json) : bool :=
  match v with
  | JNull | JArr _ | JObj _ => true
  | _ => false
  end.

Fixpoint assoc (name : string) (fields : list (string * Json)) : Json :=
  match fields with
  | [] => JUndefined
  | (k, v) :: rest => if String.eqb k name then v else assoc name rest
  end.

Definition is_digit (c : ascii) : bool :=
  (48 <=? nat_of_ascii c)%nat && (nat_of_ascii c <=? 57)%nat.

Definition digit_value (c : ascii) : Z := Z.of_nat (nat_of_ascii c) - 48.

Fixpoint all_digits (s : string) : bool :=
  match s with
  | EmptyString => true
  | String c rest => is_digit c && all_digits rest
  end.

(** Value of a string of decimal digits, most significant first. *)
Fixpoint digits_value (acc : Z) (s : string) : Z :=
  match s with
  | EmptyString => acc
  | String c rest => digits_value (10 * acc + digit_value c) rest
  end.

(** An array index as a property name: ["0"], or digits with no leading
    zero. *)
Definition array_index (name : string) : option nat :=
  match name with
  | EmptyString => None
  | String c rest =>
      if all_digits name && (negb (Ascii.eqb c "0") || String.eqb rest "")
      then Some (Z.to_nat (digits_value 0 name))
      else None
  end.

(** [v?.name] and, on a value that is neither [null] nor [undefined],
    [v.name] and [v[name]]: the own property, [undefined] when there is
    none. The names the code reads are none of the inherited ones
    ([constructor], [toString], ...), which are not modelled. *)
Definition field (v : Json) (name : string) : Json :=
  match v with
  | JObj fields => assoc name fields
  | JArr items =>
      if String.eqb name "length" then JNum (Z.of_nat (length items))
      else match array_index name with
           | Some i => nth i items JUndefined
           | None => JUndefined
           end
  | _ => JUndefined
  end.

(** [v.name]: a [TypeError] on [null] and [undefined]. *)
Definition prop (v : Json) (name : string) : Completion Json :=
  if isNullish v
  then Throw (TypeError ("Cannot read properties of " +:+
         (if v is JNull then "null" else "undefined") +:+
         " (reading '" +:+ name +:+ "')"))
  else Normal (field v name).

(** [name in v]: a [TypeError] unless [v] is an object. *)
Definition has_in (name : string) (v : Json) : Completion bool :=
  match v with
  | JObj fields => Normal (bool_decide (name ∈ fields.*1))
  | JArr items =>
      Normal (String.eqb name "length" ||
              match array_index name with
              | Some i => (i <? length items)%nat
              | None => false
              end)
  | _ => Throw (TypeError ("Cannot use 'in' operator to search for '" +:+
                  name +:+ "'"))
  end.

(** [a ?? b] *)
Definition nullish_or (a b : Json) : Json := if isNullish a then b else a.

(** [Object.values(v)[0]] for [v] with [typeof v === 'object'] that is not
    [null]. *)
Definition first_value (v : Json) : Json :=
  match v with
  | JObj ((_, x) :: _) => x
  | JArr (x :: _) => x
  | _ => JUndefined
  end.

Definition join (sep : string) (parts : list string) : string :=
  match parts with
  | [] => ""
  | p :: rest => fold_left (fun acc q => acc +:+ sep +:+ q) rest p
  end.

(** [String(v)]. *)
Fixpoint to_String (v : Json) : string :=
  match v with
  | JUndefined => "undefined"
  | JNull => "null"
  | JBool true => "true"
  | JBool false => "false"
  | JNum n => pretty n
  | JStr s => s
  | JArr items =>
      join "," (map (fun x => if isNullish x then "" else to_String x) items)
  | JObj _ => "[object Object]"
  end.

(** White space and line terminators, the one-byte ones. *)
Definition is_space (c : ascii) : bool :=
  let n := nat_of_ascii c in
  ((9 <=? n)%nat && (n <=? 13)%nat) || (n =? 32)%nat.

Fixpoint trimStart (s : string) : string :=
  match s with
  | String c rest => if is_space c then trimStart rest else s
  | EmptyString => s
  end.

Fixpoint trimEnd (s : string) : string :=
  match s with
  | EmptyString => EmptyString
  | String c rest =>
      match trimEnd rest with
      | EmptyString => if is_space c then EmptyString else String c EmptyString
      | rest' => String c rest'
      end
  end.

(** [s.trim()] *)
Definition trim (s : string) : string := trimEnd (trimStart s).

(** The longest prefix of decimal digits, and what follows it. *)
Fixpoint span_digits (s : string) : string * string :=
  match s with
  | String c rest =>
      if is_digit c
      then let '(d, r) := span_digits rest in (String c d, r)
      else (EmptyString, s)
  | EmptyString => (EmptyString, EmptyString)
  end.

(** A leading sign: [-1] after ["-"], [1] otherwise. *)
Definition take_sign (s : string) : Z * string :=
  match s with
  | String "-" rest => (-1, rest)
  | String "+" rest => (1, rest)
  | _ => (1, s)
  end.

(** Magnitudes from [2^1024 - 2^970] on round to an infinity. Below
    that the parsers here give the exact value, where JavaScript rounds
    it to the nearest double. *)
Definition overflow_bound : Z := 2 ^ 1024 - 2 ^ 970.

Definition finite (q : Q) : Number :=
  if Qle_bool (inject_Z overflow_bound) (Qabs q) then None else Some (Qred q).

Definition Number_to_Z (x : Number) : option Z :=
  match x with
  | Some q => Some (Qnum q / Zpos (Qden q))
  | None => None
  end.

(** [Number.parseInt(s, 10)], an integer or [NaN]. *)
Definition parseInt10 (s : string) : option Z :=
  let '(sign, rest) := take_sign (trimStart s) in
  let '(digits, _) := span_digits rest in
  match digits with
  | EmptyString => None
  | _ => Number_to_Z (finite (inject_Z (sign * digits_value 0 digits)))
  end.

(** An exponent part [e], [e+] or [e-] followed by digits, if [s] starts
    with one: its value and the rest. *)
Definition take_exponent (s : string) : option (Z * string) :=
  match s with
  | String c rest =>
      if Ascii.eqb c "e" || Ascii.eqb c "E"
      then
        let '(sign, rest') :=
          match rest with
          | String "-" r => (-1, r)
          | String "+" r => (1, r)
          | _ => (1, rest)
          end in
        let '(digits, after) := span_digits rest' in
        match digits with
        | EmptyString => None
        | _ => Some (sign * digits_value 0 digits, after)
        end
      else None
  | EmptyString => None
  end.

(** [m * 10^e] *)
Definition scale10 (m e : Z) : Q :=
  if 0 <=? e then inject_Z (m * 10 ^ e)
  else Qmake m (Z.to_pos (10 ^ (- e))).

(** The longest prefix of [s] that is an unsigned decimal literal
    (digits, a fraction, an exponent), with what follows; [None] when [s]
    starts with none. The value is the exact rational. *)
Definition take_decimal (s : string) : option (Q * string) :=
  let '(int_digits, after_int) := span_digits s in
  let '(frac_digits, after_frac) :=
    match after_int with
    | String "." r => span_digits r
    | _ => (EmptyString, after_int)
    end in
  match int_digits, frac_digits with
  | EmptyString, EmptyString => None
  | _, _ =>
      let mantissa := digits_value (digits_value 0 int_digits) frac_digits in
      let shift := - Z.of_nat (String.length frac_digits) in
      match take_exponent after_frac with
      | Some (e, rest) => Some (scale10 mantissa (shift + e), rest)
      | None => Some (scale10 mantissa shift, after_frac)
      end
  end.

(** [Number.parseFloat(s)] *)
Definition parseFloat (s : string) : Number :=
  let '(sign, rest) := take_sign (trimStart s) in
  match take_decimal rest with
  | Some (q, _) => finite (inject_Z sign * q)
  | None => None
  end.

Definition hex_digit (c : ascii) : option Z :=
  let n := nat_of_ascii c in
  if is_digit c then Some (digit_value c)
  else if (97 <=? n)%nat && (n <=? 102)%nat then Some (Z.of_nat n - 87)
  else if (65 <=? n)%nat && (n <=? 70)%nat then Some (Z.of_nat n - 55)
  else None.

(** Value of a non-empty string of digits in base [radix], [None] when a
    character is no digit of that base. *)
Fixpoint radix_value (radix acc : Z) (s : string) : option Z :=
  match s with
  | EmptyString => Some acc
  | String c rest =>
      match hex_digit c with
      | Some d => if d <? radix then radix_value radix (radix * acc + d) rest
                  else None
      | None => None
      end
  end.

(** [Number(s)] for a string: white space trimmed, the empty string is
    [0], the whole of what is left must be a numeric literal. *)
Definition StringToNumber (s : string) : Number :=
  let t := trim s in
  let radix_literal radix digits :=
    match digits with
    | EmptyString => None
    | _ => match radix_value radix 0 digits with
           | Some n => finite (inject_Z n)
           | None => None
           end
    end in
  match t with
  | EmptyString => Some 0%Q
  | String "0" (String "x" d) | String "0" (String "X" d) => radix_literal 16 d
  | String "0" (String "o" d) | String "0" (String "O" d) => radix_literal 8 d
  | String "0" (String "b" d) | String "0" (String "B" d) => radix_literal 2 d
  | _ =>
      let '(sign, rest) := take_sign t in
      match take_decimal rest with
      | Some (q, EmptyString) => finite (inject_Z sign * q)
      | _ => None
      end
  end.

(** [Number(v)] *)
Definition to_Number (v : Json) : Number :=
  match v with
  | JUndefined => None
  | JNull => Some 0%Q
  | JBool true => Some 1%Q
  | JBool false => Some 0%Q
  | JNum n => finite (inject_Z n)
  | JStr s => StringToNumber s
  | JArr _ => StringToNumber (to_String v)
  | JObj _ => None
  end.

(** [needle] occurs in [hay] ([hay.includes(needle)]). *)
Fixpoint includes (needle hay : string) : bool :=
  String.prefix needle hay ||
  match hay with
  | EmptyString => false
  | String _ rest => includes needle rest
  end.

(** The pieces of [s] between occurrences of [sep]. *)
Fixpoint split (sep : ascii) (s : string) : list string :=
  match s with
  | EmptyString => [EmptyString]
  | String c rest =>
      if Ascii.eqb c sep then EmptyString :: split sep rest
      else match split sep rest with
           | piece :: pieces => String c piece :: pieces
           | [] => [String c EmptyString]
           end
  end.

End Js.

(** * The probe normalizer ([ffprobeViaFrigate], camera.ts 9-33, 176-311) *)

Module Probe.
Import Js.

(** [type FfprobeSummary]; an absent field is [None]. *)
Record FormatSummary := {
  format_name : option string;
  format_long_name : option string;
  duration : option Q;
  format_bit_rate : option Z
}.

Record VideoSummary := {
  video_codec : option string;
  width : option Z;
  height : option Z;
  fps : option Q;
  pix_fmt : option string;
  profile : option string;
  level : option Z
}.

Record AudioSummary := {
  audio_codec : option string;
  channels : option Z;
  sample_rate : option Z;
  audio_bit_rate : option Z
}.

Record FfprobeSummary := {
  url : string;
  protocol : option string;
  format : FormatSummary;
  video : VideoSummary;
  audio : AudioSummary
}.

(** The collaborators of the probe. [baseFrigateApi], [ffprobeLocalJson],
    [toArray] and [parseFraction] are imported from [./utils], which is
    not among the sources; [URL_protocol] is [new URL(url).protocol],
    [None] when the constructor throws. [api_ffprobe url] is [res?.data]
    of the request [GET {serverUrl}/ffprobe?paths=url]. [parseFraction]
    returns [undefined] ([None]) or a number. *)
Record Env := {
  api_ffprobe : string -> Completion Json;
  ffprobeLocalJson : string -> Completion Json;
  toArray : Json -> list Json;
  parseFraction : Json -> option Number;
  URL_protocol : string -> option string
}.

(** The probes a call has run. *)
Inductive Effect :=
| ApiProbe (url : string)
| LocalProbe (url : string).

Definition tell (x : Effect) : M (list Effect) unit :=
  modify (fun log => log ++ [x]).

(** Lines 187-190: the response is an array whose first entry has a
    [return_code] that [Number] turns into [1]. *)
Definition failure_signal (data : Json) : bool :=
  isArray data &&
  match to_Number (field (field data "0") "return_code") with
  | Some returnCode => Qeq_bool returnCode 1
  | None => false
  end.

(** Line 196 *)
Definition frigateStderr (first : Json) : option string :=
  match field first "stderr" with
  | JStr stderr => if truthy_string (trim stderr) then Some (trim stderr) else None
  | _ => None
  end.

(** Lines 195-197: the error raised when the local fallback fails with
    [e]. *)
Definition fallback_error (url : string) (first : Json) (e : JsError) : JsError :=
  let message := if is_Error e then render (message e) else as_String e in
  new_Error ("Frigate ffprobe failed (return_code=1) for " +:+ url +:+
    match frigateStderr first with
    | Some stderr => ": " +:+ stderr
    | None => ""
    end +:+ ". Local ffprobe fallback failed: " +:+ message).

(** [x.streams || x.format], [x] being neither [null] nor [undefined]
    where the code writes a plain [.]. *)
Definition streams_or_format (x : Json) : Completion bool :=
  streams ← prop x "streams";
  if truthy streams then Normal true
  else fmt ← prop x "format"; Normal (truthy fmt).

(** [if (x?.stdout && (x.stdout.streams || x.stdout.format)) return x.stdout;]
    [Some] is the value returned, [None] is falling through. *)
Definition return_stdout (x : Json) : Completion (option Json) :=
  let stdout := field x "stdout" in
  if truthy stdout
  then b ← streams_or_format stdout; Normal (if b : bool then Some stdout else None)
  else Normal None.

(** [if (x?.streams || x?.format) return x;] *)
Definition return_self (x : Json) : Completion (option Json) :=
  Normal (if truthy (field x "streams") || truthy (field x "format")
        then Some x else None).

(** [if (x?.result) return x.result.stdout ?? x.result;] *)
Definition return_result (x : Json) : Completion (option Json) :=
  let result := field x "result" in
  if truthy result
  then stdout ← prop result "stdout"; Normal (Some (nullish_or stdout result))
  else Normal None.

(** One [if (...) return ...;] after another. *)
Definition or_else (a b : Completion (option Json)) : Completion (option Json) :=
  r ← a;
  match r with
  | Some v => Normal (Some v)
  | None => b
  end.

(** The three tests made on the entry keyed by the URL and on the first
    value (lines 229-234 and 240-245). *)
Definition return_entry (entry : Json) : Completion (option Json) :=
  or_else (return_stdout entry) (or_else (return_self entry) (return_result entry)).

(** Lines 201-249, the function that locates the payload. *)
Definition locate (url : string) (data : Json) : Completion Json :=
  if negb (truthy data) then Normal (JObj [])
  else
    r ← or_else
      (if isArray data
       then first ← prop data "0";
            or_else (return_stdout first) (return_self first)
       else Normal None)
      (or_else
        (stdout ← prop data "stdout";
         if truthy stdout
         then b ← streams_or_format stdout;
              Normal (if b : bool then Some stdout else None)
         else Normal None)
        (or_else
          (b ← streams_or_format data; Normal (if b : bool then Some data else None))
          (or_else
            (result ← prop data "result";
             if truthy result
             then streams ← prop result "streams";
                  fmt ← prop result "format";
                  stdout ← prop result "stdout";
                  if truthy streams || truthy fmt || truthy stdout
                  then Normal (Some (nullish_or stdout result))
                  else Normal None
             else Normal None)
            (or_else
              (if typeof_object data
               then entry ← prop data url;
                    if truthy entry then return_entry entry else Normal None
               else Normal None)
              (if typeof_object data
               then return_entry (first_value data)
               else Normal None)))));
    Normal (default (JObj []) r).

(** [l.find(f)] *)
Fixpoint find (f : Json -> Completion bool) (l : list Json) : Completion Json :=
  match l with
  | [] => Normal JUndefined
  | x :: rest => b ← f x; if b : bool then Normal x else find f rest
  end.

Definition typeof_number (v : Json) : bool :=
  match v with
  | JNum _ => true
  | _ => false
  end.

(** [v === s] for a string [s]. *)
Definition is_string (v : Json) (s : string) : bool :=
  match v with
  | JStr t => String.eqb t s
  | _ => false
  end.

(** Line 256 *)
Definition is_video (s : Json) : Completion bool :=
  codec_type ← prop s "codec_type";
  if is_string codec_type "video" then Normal true
  else w ← prop s "width";
       if typeof_number w
       then h ← prop s "height"; Normal (typeof_number h)
       else Normal false.

(** Lines 257-259 *)
Definition is_audio (s : Json) : Completion bool :=
  codec_type ← prop s "codec_type";
  if is_string codec_type "audio" then Normal true
  else w ← has_in "width" s;
       if w : bool then Normal false
       else h ← has_in "height" s; Normal (negb h).

(** [typeof v === 'string' ? v : undefined] *)
Definition string_or_undefined (v : Json) : option string :=
  match v with
  | JStr s => Some s
  | _ => None
  end.

(** [typeof v === 'number' ? v : undefined] *)
Definition number_or_undefined (v : Json) : option Z :=
  match v with
  | JNum n => Some n
  | _ => None
  end.

(** [Number.parseInt(String(v ?? ''), 10)], kept when finite. *)
Definition int_field (v : Json) : option Z :=
  parseInt10 (to_String (nullish_or v (JStr ""))).

(** [Number.parseFloat(String(v ?? ''))], kept when finite. *)
Definition float_field (v : Json) : option Q :=
  parseFloat (to_String (nullish_or v (JStr ""))).

(** [codec_name] if it is a string, else [codec_long_name] if it is one. *)
Definition codec_of (stream : Json) : option string :=
  match string_or_undefined (field stream "codec_name") with
  | Some c => Some c
  | None => string_or_undefined (field stream "codec_long_name")
  end.

Definition is_alpha (c : ascii) : bool :=
  let n := nat_of_ascii c in
  ((65 <=? n)%nat && (n <=? 90)%nat) || ((97 <=? n)%nat && (n <=? 122)%nat).

Definition is_scheme_char (c : ascii) : bool :=
  is_alpha c || is_digit c || Ascii.eqb c "+" || Ascii.eqb c "." || Ascii.eqb c "-".

(** The longest run of scheme characters at the head of [s], if a colon
    follows it. *)
Fixpoint scheme_tail (s : string) : option string :=
  match s with
  | String c rest =>
      if is_scheme_char c
      then match scheme_tail rest with
           | Some t => Some (String c t)
           | None => None
           end
      else if Ascii.eqb c ":" then Some EmptyString else None
  | EmptyString => None
  end.

(** The regular expression of line 277: the scheme, a letter followed by
    letters, digits, plus, dot or minus signs, when a colon follows it. *)
Definition match_scheme (s : string) : option string :=
  match s with
  | String c rest =>
      if is_alpha c
      then match scheme_tail rest with
           | Some t => Some (String c t)
           | None => None
           end
      else None
  | EmptyString => None
  end.

(** [p.replace(/:$/, '')] *)
Fixpoint strip_final_colon (p : string) : string :=
  match p with
  | EmptyString => EmptyString
  | String ":" EmptyString => EmptyString
  | String c rest => String c (strip_final_colon rest)
  end.

Section WithEnv.

Variable env : Env.

(** Lines 272-280 *)
Definition protocol_of (url : string) : option string :=
  match URL_protocol env url with
  | Some p => if truthy_string p then Some (strip_final_colon p) else None
  | None => match_scheme url
  end.

(** Lines 254-310: the summary of a located payload. *)
Definition summarize (url : string) (parsed : Json) : Completion FfprobeSummary :=
  parsed_streams ← prop parsed "streams";
  let streams := toArray env parsed_streams in
  video ← find is_video streams;
  audio ← find is_audio streams;
  parsed_format ← prop parsed "format";
  let fps :=
    match parseFraction env (field video "avg_frame_rate") with
    | Some n => Some n
    | None => parseFraction env (field video "r_frame_rate")
    end in
  Normal {|
    url := url;
    protocol := protocol_of url;
    format := {|
      format_name := string_or_undefined (field parsed_format "format_name");
      format_long_name := string_or_undefined (field parsed_format "format_long_name");
      duration := float_field (field parsed_format "duration");
      format_bit_rate := int_field (field parsed_format "bit_rate") |};
    video := {|
      video_codec := codec_of video;
      width := int_field (field video "width");
      height := int_field (field video "height");
      fps := mjoin fps;
      pix_fmt := string_or_undefined (field video "pix_fmt");
      profile := string_or_undefined (field video "profile");
      level := number_or_undefined (field video "level") |};
    audio := {|
      audio_codec := codec_of audio;
      channels := int_field (field audio "channels");
      sample_rate := int_field (field audio "sample_rate");
      audio_bit_rate := int_field (field audio "bit_rate") |}
  |}.

(** Lines 176-311. *)
Definition ffprobeViaFrigate (url : string) : M (list Effect) FfprobeSummary :=
  _ ← tell (ApiProbe url);
  res_data ← lift (api_ffprobe env url);
  data ←
    (if failure_signal res_data
     then
       let first := field res_data "0" in
       _ ← tell (LocalProbe url);
       try_catch (lift (ffprobeLocalJson env url))
         (fun e => lift (Throw (fallback_error url first e)))
     else lift (Normal res_data));
  parsed ← lift (locate url data);
  lift (summarize url parsed).

End WithEnv.

(** The summary whose metadata fields are all absent. *)
Definition empty_summary (url : string) (protocol : option string) : FfprobeSummary :=
  {| url := url;
     protocol := protocol;
     format := {| format_name := None; format_long_name := None;
                  duration := None; format_bit_rate := None |};
     video := {| video_codec := None; width := None; height := None;
                 fps := None; pix_fmt := None; profile := None; level := None |};
     audio := {| audio_codec := None; channels := None; sample_rate := None;
                 audio_bit_rate := None |} |}.

(** ** The envelope shapes, as the specification lists them

    "array-of-result wrapping with stdout, array-of-result direct fields,
    object {stdout:{...}}, object {streams|format} directly, {result:{...}}
    wrapping, keyed-by-URL wrapping, and finally first value of the
    object". These definitions follow that list, not the code. *)

Definition has (x : Json) (name : string) : bool := truthy (field x name).

(** A payload carries [streams] or [format]. *)
Definition is_payload (x : Json) : bool := has x "streams" || has x "format".

Definition wraps_stdout (x : Json) : bool :=
  has x "stdout" && is_payload (field x "stdout").

Definition wraps_result (x : Json) : bool :=
  has x "result" &&
  (is_payload (field x "result") || has (field x "result") "stdout").

Definition entry_shape (x : Json) : bool :=
  wraps_stdout x || is_payload x || has x "result".

Definition known_shape (url : string) (data : Json) : bool :=
  (isArray data && (wraps_stdout (field data "0") || is_payload (field data "0")))
  || wraps_stdout data
  || is_payload data
  || wraps_result data
  || (typeof_object data && has data url && entry_shape (field data url))
  || (typeof_object data && entry_shape (first_value data)).

(** ** A setting to run the probe in *)

(** A backend that answers every probe with [answer], a local probe that
    ends as [local], a [toArray] that keeps arrays and turns anything else
    into the empty list, a [parseFraction] that finds no rate, and a
    [URL] constructor that rejects every URL (the protocol then comes
    from the regular expression). *)
Definition fixed_env (answer : Json) (local : Completion Json) : Env :=
  {| api_ffprobe := fun _ => Normal answer;
     ffprobeLocalJson := fun _ => local;
     toArray := fun v => match v with JArr items => items | _ => [] end;
     parseFraction := fun _ => None;
     URL_protocol := fun _ => None |}.

(** The answer of the specification's example: one entry with return
    code 1 and a message on [stderr]. *)
Definition failed_answer : Json :=
  JArr [JObj [("return_code", JNum 1); ("stderr", JStr "no such file")]].

(** An answer of no listed shape. *)
Definition odd_answer : Json := JObj [("error", JStr "unsupported")].

(** [typeof v === 'object'] and [v] is not [null] and not an array: the
    stream entries [ffprobe] reports. *)
Definition is_record (v : Json) : bool :=
  match v with
  | JObj _ => true
  | _ => false
  end.

(** A URL scheme: a letter followed by letters, digits, plus, dot or
    minus signs. *)
Fixpoint all_scheme_chars (s : string) : bool :=
  match s with
  | EmptyString => true
  | String c rest => is_scheme_char c && all_scheme_chars rest
  end.

Definition is_scheme (s : string) : bool :=
  match s with
  | String c rest => is_alpha c && all_scheme_chars rest
  | EmptyString => false
  end.

(** As [fixed_env], with a [URL] constructor that parses every URL and
    reports [protocol] for it. *)
Definition parsing_env (protocol : string) : Env :=
  {| api_ffprobe := fun _ => Normal JNull;
     ffprobeLocalJson := fun _ => Throw (new_Error "unused");
     toArray := fun v => match v with JArr items => items | _ => [] end;
     parseFraction := fun _ => None;
     URL_protocol := fun _ => Some protocol |}.

End Probe.

(** * Stream discovery ([discoverBestConfiguredStreamUrlsAndProbe],
      camera.ts 35-45, 109-174, 313-404; [getConfiguration] and
      [getConfigurationRawJson], main.ts 239-290) *)

Module Discovery.
Import Js.

(** An element of [ffmpeg.inputs]: a string, or an object whose [path] is
    a string or is not ([typeof input?.path === 'string']). *)
Inductive Input :=
| InputString (path : string)
| InputObject (path : option string).

(** [FrigateFfmpegConfig]: [inputs], when it is there. *)
Record FrigateFfmpegConfig := {
  inputs : option (list Input)
}.

(** [FrigateCameraConfig] *)
Record FrigateCameraConfig := {
  ffmpeg : option FrigateFfmpegConfig
}.

Record Go2rtcRtsp := {
  username : option string;
  password : option string
}.

(** [config.go2rtc]: [streams] is given by its keys in [Object.keys]
    order. *)
Record Go2rtcConfig := {
  streams : option (list string);
  rtsp : option Go2rtcRtsp
}.

(** [FrigateConfig], the parts discovery reads. *)
Record FrigateConfig := {
  go2rtc : option Go2rtcConfig;
  cameras : option (gmap string FrigateCameraConfig)
}.

(** [source: 'go2rtc' | 'input'] *)
Inductive Source := go2rtc_source | input_source.

(** [type ConfiguredStreamProbe] ([roles] is never set). *)
Record ConfiguredStreamProbe := {
  cameraName : string;
  streamName : string;
  streamId : string;
  source : Source;
  url : string;
  probedAt : Z;
  ffprobe : option Probe.FfprobeSummary;
  error : option string
}.

(** What [this.storage] holds under a key: a string, or the probed
    streams (kept as the list that [JSON.stringify] is applied to). *)
Inductive Item :=
| Text (s : string)
| Streams (l : list ConfiguredStreamProbe).

(** Calls made to collaborators. *)
Inductive Effect :=
| Fetch (service : string)
| Probed (e : Probe.Effect)
| RefreshSettings.

(** The provider's cached configuration (main.ts 174-177), its settings,
    the camera's storage, the clock and the calls made. *)
Record World := {
  config : option FrigateConfig;
  lastConfigFetch : option Z;
  configRawJson : option FrigateConfig;
  lastConfigRawJsonFetch : option Z;
  storage : gmap string Item;
  time : Z;
  effects : list Effect
}.

(** The collaborators. [api_config] is [configsResponse.data] of
    [GET {serverUrl}/config]; [api_config_raw] is the document parsed
    from [GET {serverUrl}/config/raw], [None] when the body is empty, is
    not YAML, or is an empty document (the three leave [configRawJson]
    falsy); every request takes [elapsed] milliseconds.
    [baseGo2rtcUrl_value] and [baseGo2rtcUrl_defaultValue] are the
    provider's setting and its default, [serverUrl] its server setting;
    [URL_hostname] is [new URL(s).hostname] and [encodeURIComponent] the
    built-in. *)
Record Env := {
  api_config : Completion (option FrigateConfig);
  api_config_raw : Completion (option FrigateConfig);
  elapsed : Z;
  baseGo2rtcUrl_value : option string;
  baseGo2rtcUrl_defaultValue : option string;
  serverUrl : string;
  URL_hostname : string -> option string;
  encodeURIComponent : string -> string;
  probe_env : Probe.Env;
  refresh : Completion unit
}.

Definition tell (x : Effect) : M World unit :=
  modify (fun w =>
    {| config := config w; lastConfigFetch := lastConfigFetch w;
       configRawJson := configRawJson w;
       lastConfigRawJsonFetch := lastConfigRawJsonFetch w;
       storage := storage w; time := time w;
       effects := effects w ++ [x] |}).

(** [Date.now()] *)
Definition Date_now : M World Z := w ← get; mret (time w).

(** A request to the backend: it is recorded and takes its time. *)
Definition baseFrigateApi {A} (env : Env) (service : string)
    (answer : Completion A) : M World A :=
  _ ← tell (Fetch service);
  _ ← modify (fun w =>
    {| config := config w; lastConfigFetch := lastConfigFetch w;
       configRawJson := configRawJson w;
       lastConfigRawJsonFetch := lastConfigRawJsonFetch w;
       storage := storage w; time := time w + elapsed env;
       effects := effects w |});
  lift answer.

Definition set_config (c : option FrigateConfig) (t : Z) : M World unit :=
  modify (fun w =>
    {| config := c; lastConfigFetch := Some t;
       configRawJson := configRawJson w;
       lastConfigRawJsonFetch := lastConfigRawJsonFetch w;
       storage := storage w; time := time w; effects := effects w |}).

Definition set_configRawJson (c : option FrigateConfig) (t : Z) : M World unit :=
  modify (fun w =>
    {| config := config w; lastConfigFetch := lastConfigFetch w;
       configRawJson := c; lastConfigRawJsonFetch := Some t;
       storage := storage w; time := time w; effects := effects w |}).

(** [this.storage.setItem(key, value)] *)
Definition setItem (key : string) (value : Item) : M World unit :=
  modify (fun w =>
    {| config := config w; lastConfigFetch := lastConfigFetch w;
       configRawJson := configRawJson w;
       lastConfigRawJsonFetch := lastConfigRawJsonFetch w;
       storage := <[key := value]> (storage w); time := time w;
       effects := effects w |}).

(** [now < last + 1000 * 60 * 5]; with [last] undefined the sum is [NaN]
    and the comparison is false. *)
Definition within_five_minutes (now : Z) (last : option Z) : bool :=
  match last with
  | Some t => now <? t + 1000 * 60 * 5
  | None => false
  end.

(** main.ts 239-258 *)
Definition getConfiguration (env : Env) (force : bool)
  : M World (option FrigateConfig) :=
  now ← Date_now;
  w ← get;
  if negb force && bool_decide (is_Some (config w)) &&
     within_five_minutes now (lastConfigFetch w)
  then mret (config w)
  else
    data ← baseFrigateApi env "config" (api_config env);
    later ← Date_now;
    _ ← set_config data later;
    mret data.

(** main.ts 260-290. [(this.lastConfigRawJsonFetch ?? 0)] *)
Definition getConfigurationRawJson (env : Env) : M World (option FrigateConfig) :=
  now ← Date_now;
  w ← get;
  if bool_decide (is_Some (configRawJson w)) &&
     within_five_minutes now (Some (default 0 (lastConfigRawJsonFetch w)))
  then mret (configRawJson w)
  else
    parsed ← baseFrigateApi env "config/raw" (api_config_raw env);
    later ← Date_now;
    _ ← set_configRawJson parsed later;
    mret parsed.

(** [s.replace(/\/+$/, '')] *)
Fixpoint strip_final_slashes (s : string) : string :=
  match s with
  | EmptyString => EmptyString
  | String c rest =>
      match strip_final_slashes rest with
      | EmptyString => if Ascii.eqb c "/" then EmptyString else String c EmptyString
      | rest' => String c rest'
      end
  end.

(** A string setting that is set and not empty. *)
Definition truthy_setting (x : option string) : option string :=
  match x with
  | Some s => if truthy_string s then Some s else None
  | None => None
  end.

(** camera.ts 149-174 *)
Definition getBaseGo2rtcUrl (env : Env) (w : World) : option string :=
  match truthy_setting (baseGo2rtcUrl_value env) with
  | Some explicit => Some explicit
  | None =>
      match truthy_setting (baseGo2rtcUrl_defaultValue env) with
      | Some derived => Some derived
      | None =>
          match URL_hostname env (serverUrl env) with
          | Some host =>
              let credentials : option Go2rtcRtsp := (config w ≫= go2rtc) ≫= rtsp in
              match truthy_setting (credentials ≫= username),
                    truthy_setting (credentials ≫= password) with
              | Some rtspUsername, Some rtspPassword =>
                  Some ("rtsp://" +:+ encodeURIComponent env rtspUsername +:+ ":" +:+
                        encodeURIComponent env rtspPassword +:+ "@" +:+ host +:+ ":8554")
              | _, _ => Some ("rtsp://" +:+ host +:+ ":8554")
              end
          | None => None
          end
      end
  end.

(** camera.ts 109-111 *)
Definition getDetectedStreamKey (streamId : string) : string :=
  "detectedStream:" +:+ streamId +:+ ":url".

(** Line 341: the path of an input. *)
Definition input_path (input : Input) : option string :=
  match input with
  | InputString path => Some path
  | InputObject path => path
  end.

(** Line 348: the test made of a relay stream name. *)
Definition path_mentions (path g2rtcStreamName : string) : bool :=
  includes ("/" +:+ g2rtcStreamName) path || includes (":" +:+ g2rtcStreamName) path.

(** Lines 339-375: what the callback of [inputs.forEach] pushes for the
    input at [index], nothing when the input has no path or an empty
    one. [Array.prototype.some] stops at the first name that passes the
    test, which is the name [streamName] is left with. *)
Definition describe_input (cameraName : string) (now : Z)
    (baseGo2rtcUrl : option string) (go2rtcStreamNames : list string)
    (index : nat) (input : Input) : option ConfiguredStreamProbe :=
  let streamId := "stream_" +:+ pretty (index + 1)%nat in
  match truthy_setting (input_path input) with
  | Some path =>
      match List.find (path_mentions path) go2rtcStreamNames with
      | Some g2rtcStreamName =>
          Some {| cameraName := cameraName;
                  streamName := g2rtcStreamName;
                  streamId := streamId;
                  source := go2rtc_source;
                  url := render baseGo2rtcUrl +:+ "/" +:+ g2rtcStreamName;
                  probedAt := now;
                  ffprobe := None; error := None |}
      | None =>
          Some {| cameraName := cameraName;
                  streamName := "Stream " +:+ pretty (index + 1)%nat;
                  streamId := streamId;
                  source := input_source;
                  url := path;
                  probedAt := now;
                  ffprobe := None; error := None |}
      end
  | None => None
  end.

(** Lines 338-380: [inputs.forEach], from position [index] on. Each
    descriptor is pushed and its URL stored under the key of its
    [streamId]. *)
Fixpoint forEach_input (cameraName : string) (now : Z)
    (baseGo2rtcUrl : option string) (go2rtcStreamNames : list string)
    (index : nat) (inputs : list Input)
  : M World (list ConfiguredStreamProbe) :=
  match inputs with
  | [] => mret []
  | input :: rest =>
      match describe_input cameraName now baseGo2rtcUrl go2rtcStreamNames
              index input with
      | Some item =>
          _ ← setItem (getDetectedStreamKey (streamId item)) (Text (url item));
          items ← forEach_input cameraName now baseGo2rtcUrl go2rtcStreamNames
                    (S index) rest;
          mret (item :: items)
      | None =>
          forEach_input cameraName now baseGo2rtcUrl go2rtcStreamNames
            (S index) rest
      end
  end.

(** Modelled from the spec: [mapLimit] of [./utils], which is not among
    the sources. "Output ordering matches input ordering"; the
    invocations are run here one after the other, in that order, and the
    bound on how many are outstanding is not represented. The callback
    passed at line 383 catches its own exceptions. *)
Fixpoint mapLimit {S A B} (items : list A) (limit : Z) (fn : A -> M S B)
  : M S (list B) :=
  match items with
  | [] => mret []
  | item :: rest =>
      r ← fn item;
      rs ← mapLimit rest limit fn;
      mret (r :: rs)
  end.

(** [this.ffprobeViaFrigate(url)], its probes recorded among the calls. *)
Definition ffprobeViaFrigate (env : Env) (url : string)
  : M World Probe.FfprobeSummary :=
  fun w =>
    let '(probes, r) := Probe.ffprobeViaFrigate (probe_env env) url [] in
    ({| config := config w; lastConfigFetch := lastConfigFetch w;
        configRawJson := configRawJson w;
        lastConfigRawJsonFetch := lastConfigRawJsonFetch w;
        storage := storage w; time := time w;
        effects := effects w ++ map Probed probes |}, r).

(** Lines 383-392, the callback given to [mapLimit]. *)
Definition probe_item (env : Env) (item : ConfiguredStreamProbe)
  : M World ConfiguredStreamProbe :=
  try_catch
    (summary ← ffprobeViaFrigate env (url item);
     mret {| cameraName := cameraName item; streamName := streamName item;
             streamId := streamId item; source := source item;
             url := url item; probedAt := probedAt item;
             ffprobe := Some summary; error := error item |})
    (fun e =>
       let message := if is_Error e then message e else Some (as_String e) in
       mret {| cameraName := cameraName item; streamName := streamName item;
               streamId := streamId item; source := source item;
               url := url item; probedAt := probedAt item;
               ffprobe := ffprobe item; error := message |}).

(** Lines 320-321: the two configurations, the raw one first. Only the
    second call is given [force]. *)
Definition configurations (env : Env) (force : bool)
  : M World (option FrigateConfig * option FrigateConfig) :=
  raw ← getConfigurationRawJson env;
  config ← getConfiguration env force;
  mret (raw, config).

(** Line 327 and 336: [cameraConfig?.ffmpeg?.inputs] of the camera's entry
    in the raw configuration or else in the configuration. *)
Definition configured_inputs (raw config : option FrigateConfig)
    (cameraName : string) : option (list Input) :=
  let camera_of (c : option FrigateConfig) : option FrigateCameraConfig :=
    (c ≫= cameras) ≫= (fun cams => cams !! cameraName) in
  let cameraConfig :=
    match camera_of raw with
    | Some c => Some c
    | None => camera_of config
    end in
  (cameraConfig ≫= ffmpeg) ≫= inputs.

(** Lines 324-325 *)
Definition relay_stream_names (raw config : option FrigateConfig) : list string :=
  let streams_of (c : option FrigateConfig) : option (list string) :=
    (c ≫= go2rtc) ≫= streams in
  match streams_of raw with
  | Some names => names
  | None => default [] (streams_of config)
  end.

(** camera.ts 313-404. [this.cameraName] is [cameraName]; [force] and
    [concurrency] are the two options. *)
Definition discoverBestConfiguredStreamUrlsAndProbe (env : Env)
    (cameraName : string) (force : bool) (concurrency : option Z)
  : M World (list ConfiguredStreamProbe) :=
  now ← Date_now;
  '(raw, config) ← configurations env force;
  w ← get;
  let baseGo2rtcUrl := strip_final_slashes <$> getBaseGo2rtcUrl env w in
  let go2rtcStreamNames := relay_stream_names raw config in
  match configured_inputs raw config cameraName with
  | None =>
      lift (Throw (TypeError
        "Cannot read properties of undefined (reading 'forEach')"))
  | Some inputs =>
      configuredStreams ←
        forEach_input cameraName now baseGo2rtcUrl go2rtcStreamNames 0 inputs;
      ffprobeResult ←
        mapLimit configuredStreams (default 4 concurrency) (probe_item env);
      _ ← setItem "probedStreams" (Streams ffprobeResult);
      _ ← tell RefreshSettings;
      _ ← lift (refresh env);
      mret ffprobeResult
  end.

(** ** Relay matching as the specification words it

    "classify as relayed if the path contains the relay stream's name as
    a path segment or a port-suffixed segment matching any entry in
    relayRegistry". These definitions follow those words, not the code. *)

(** [name] is a segment of the path, or the part of a segment after a
    colon. *)
Definition spec_segment_match (path name : string) : bool :=
  existsb (fun segment =>
    String.eqb segment name ||
    match split ":" segment with
    | _ :: suffixes => existsb (String.eqb name) suffixes
    | [] => false
    end) (split "/" path).

Definition spec_relayed (path : string) (relayRegistry : list string) : bool :=
  existsb (spec_segment_match path) relayRegistry.

(** ** A setting to run discovery in *)

Definition camera_with (paths : list string) : FrigateCameraConfig :=
  {| ffmpeg := Some {| inputs := Some (map InputString paths) |} |}.

(** A configuration with one camera and no relay streams. *)
Definition config_with (cameraName : string) (paths : list string) : FrigateConfig :=
  {| go2rtc := None; cameras := Some {[ cameraName := camera_with paths ]} |}.

(** The backend now declares [paths] for camera ["front"]; probes are
    answered with an empty body. *)
Definition backend_with (paths : list string) : Env :=
  {| api_config := Normal (Some (config_with "front" paths));
     api_config_raw := Normal (Some (config_with "front" paths));
     elapsed := 10;
     baseGo2rtcUrl_value := Some "rtsp://nvr:8554/";
     baseGo2rtcUrl_defaultValue := None;
     serverUrl := "http://nvr:5000/api";
     URL_hostname := fun _ => Some "nvr";
     encodeURIComponent := fun s => s;
     probe_env := Probe.fixed_env JNull (Throw (new_Error "no ffprobe"));
     refresh := Normal tt |}.

(** The provider one second after it fetched both configurations, when
    camera ["front"] still had [paths]. *)
Definition provider_after_fetch (paths : list string) : World :=
  {| config := Some (config_with "front" paths);
     lastConfigFetch := Some 1000;
     configRawJson := Some (config_with "front" paths);
     lastConfigRawJsonFetch := Some 1000;
     storage := ∅;
     time := 2000;
     effects := [] |}.

(** A backend whose configuration answers carry no data. *)
Definition silent_backend : Env :=
  {| api_config := Normal None;
     api_config_raw := Normal None;
     elapsed := 10;
     baseGo2rtcUrl_value := None;
     baseGo2rtcUrl_defaultValue := None;
     serverUrl := "http://nvr:5000/api";
     URL_hostname := fun _ => Some "nvr";
     encodeURIComponent := fun s => s;
     probe_env := Probe.fixed_env JNull (Throw (new_Error "no ffprobe"));
     refresh := Normal tt |}.

(** As [backend_with], with a backend whose probes report a failure and
    a local probe that throws. *)
Definition failing_backend (paths : list string) : Env :=
  {| api_config := Normal (Some (config_with "front" paths));
     api_config_raw := Normal (Some (config_with "front" paths));
     elapsed := 10;
     baseGo2rtcUrl_value := Some "rtsp://nvr:8554/";
     baseGo2rtcUrl_defaultValue := None;
     serverUrl := "http://nvr:5000/api";
     URL_hostname := fun _ => Some "nvr";
     encodeURIComponent := fun s => s;
     probe_env := Probe.fixed_env Probe.failed_answer
                    (Throw (new_Error "no ffprobe"));
     refresh := Normal tt |}.

(** A provider that has fetched nothing yet. *)
Definition fresh_provider : World :=
  {| config := None; lastConfigFetch := None;
     configRawJson := None; lastConfigRawJsonFetch := None;
     storage := ∅; time := 2000; effects := [] |}.

(** [d] milliseconds pass. *)
Definition wait (d : Z) (w : World) : World :=
  {| config := config w; lastConfigFetch := lastConfigFetch w;
     configRawJson := configRawJson w;
     lastConfigRawJsonFetch := lastConfigRawJsonFetch w;
     storage := storage w; time := time w + d; effects := effects w |}.

(** [item] is the descriptor [d] after its probe. When the probe of the
    descriptor's URL returns, [item] is [d] with what it returned as
    [ffprobe]; when it throws, [item] is [d] with the message of the
    thrown value as [error]: [e.message] of an [Error], [String(e)] of
    anything else. *)
Definition probed_from (env : Env) (d item : ConfiguredStreamProbe) : Prop :=
  (exists probes summary,
     Probe.ffprobeViaFrigate (probe_env env) (url d) [] =
       (probes, Normal summary) /\
     item = {| cameraName := cameraName d; streamName := streamName d;
               streamId := streamId d; source := source d;
               url := url d; probedAt := probedAt d;
               ffprobe := Some summary; error := error d |}) \/
  (exists probes e,
     Probe.ffprobeViaFrigate (probe_env env) (url d) [] = (probes, Throw e) /\
     item = {| cameraName := cameraName d; streamName := streamName d;
               streamId := streamId d; source := source d;
               url := url d; probedAt := probedAt d;
               ffprobe := ffprobe d;
               error := if is_Error e then message e
                        else Some (as_String e) |}).

(** The probes that the probe of a descriptor's URL runs. *)
Definition probes_of (env : Env) (d : ConfiguredStreamProbe) : list Effect :=
  map Probed (fst (Probe.ffprobeViaFrigate (probe_env env) (url d) [])).

(** The descriptors of a list of inputs whose first element has position
    [index]: one for each input that has a path, in the order of the
    inputs. *)
Definition descriptors (cameraName : string) (now : Z)
    (baseGo2rtcUrl : option string) (go2rtcStreamNames : list string)
    (index : nat) (inputs : list Input) : list ConfiguredStreamProbe :=
  omap id (imap (fun i input =>
    describe_input cameraName now baseGo2rtcUrl go2rtcStreamNames
      (index + i) input) inputs).

End Discovery.

(** * The streaming gateway ([onRequest], main.ts 445-566) *)

Module Gateway.
Import Js.

(** What the code reads of [new URL(...)]: [pathname] and the query
    parameters in order. *)
Record Url := {
  pathname : string;
  searchParams : list (string * string)
}.

(** [url.searchParams.get(name)]: the first value, [null] when there is
    none. *)
Fixpoint searchParams_get (params : list (string * string)) (name : string)
  : option string :=
  match params with
  | [] => None
  | (k, v) :: rest => if String.eqb k name then Some v else searchParams_get rest name
  end.

(** The mixin of a device ([FrigateBridgeVideoclipsMixin], not among the
    sources): how each of its calls ends. [getVideoclipUrls] yields
    [videoUrl] and [thumbnailUrl]. *)
Record Mixin := {
  getLogger : Completion unit;
  debug : Completion unit;
  getVideoclipUrls : string -> Completion (string * string);
  videoclipMode : option string
}.

(** The argument of [streamVideoclipFromUrl]. *)
Record StreamOptions := {
  requestUrl : Url;
  stream_videoUrl : string;
  stream_vodUrl : option string;
  stream_videoclipMode : option string;
  stream_deviceId : string;
  stream_eventId : string
}.

(** [response.send(body, { code, headers })] *)
Record Sent := {
  body : string;
  code : option Z;
  content_type : option string
}.

Inductive Effect :=
| ResolveVodUrl (options : VodCache.Options)
| StreamVideoclip (options : StreamOptions)
| AxiosGet (url : string)
| Send (r : Sent).

(** The call of [getVodUrlForEvent]. *)
Definition is_resolution (e : Effect) : bool :=
  match e with
  | ResolveVodUrl _ => true
  | _ => false
  end.

(** A call of [response.send]. *)
Definition is_send (e : Effect) : bool :=
  match e with
  | Send _ => true
  | _ => false
  end.

(** The module's resolution cache and the calls made so far. *)
Record World := {
  vod : VodCache.Store;
  effects : list Effect
}.

(** The collaborators. [URL_parse] is the [URL] constructor ([None] when
    it throws) and [URL_origin] its [origin]; [currentMixinsMap] is
    [this.videoclipsDevice.currentMixinsMap], [None] while
    [videoclipsDevice] is not set; [serverUrl] the plugin setting;
    [events_api] answers the event request of [getVodUrlForEvent];
    [now] and [later] are the clock when that call starts and when its
    request settles. *)
Record Env := {
  URL_parse : string -> option Url;
  URL_origin : string -> option string;
  currentMixinsMap : option (string -> option Mixin);
  serverUrl : string;
  streamVideoclipFromUrl : StreamOptions -> Completion unit;
  axios_get : string -> Completion string;
  events_api : string -> VodCache.AxiosOutcome;
  now : Z;
  later : Z
}.

Definition tell (x : Effect) : M World unit :=
  modify (fun w => {| vod := vod w; effects := effects w ++ [x] |}).

Definition send (text : string) (status : option Z) (ctype : option string)
  : M World unit :=
  tell (Send {| body := text; code := status; content_type := ctype |}).

(** [s.toLowerCase()] on the letters A to Z. The code compares the
    result with ["seg"], and no character outside A to Z lower-cases to
    one of its three letters. *)
Definition lower_ascii (c : ascii) : ascii :=
  let n := nat_of_ascii c in
  if (65 <=? n)%nat && (n <=? 90)%nat then ascii_of_nat (n + 32) else c.

Fixpoint toLowerCase (s : string) : string :=
  match s with
  | EmptyString => EmptyString
  | String c rest => String (lower_ascii c) (toLowerCase rest)
  end.

Definition hex_char (n : nat) : ascii :=
  if (n <? 10)%nat then ascii_of_nat (48 + n) else ascii_of_nat (87 + n).

Definition double_quote : ascii := ascii_of_nat 34.

Definition backslash : ascii := ascii_of_nat 92.

(** The characters of a string inside a JSON string literal. *)
Fixpoint JSON_escape (s : string) : string :=
  match s with
  | EmptyString => EmptyString
  | String c rest =>
      let n := nat_of_ascii c in
      (if (n =? 34)%nat then String backslash (String double_quote EmptyString)
       else if (n =? 92)%nat then "\\"
       else if (n =? 8)%nat then "\b"
       else if (n =? 9)%nat then "\t"
       else if (n =? 10)%nat then "\n"
       else if (n =? 12)%nat then "\f"
       else if (n =? 13)%nat then "\r"
       else if (n <? 32)%nat
            then "\u00" +:+ String (hex_char (n / 16)) (String (hex_char (n mod 16)) "")
       else String c "") +:+ JSON_escape rest
  end.

(** [JSON.stringify(s)] for a string. *)
Definition JSON_string (s : string) : string :=
  String double_quote (JSON_escape s) +:+ String double_quote EmptyString.

(** [JSON.stringify] of an object whose values are strings, [null]
    ([inr true]) or [undefined] ([inr false]); a member that is
    [undefined] is left out. *)
Definition JSON_member (m : string * (string + bool)) : option string :=
  match m with
  | (k, inl s) => Some (JSON_string k +:+ ":" +:+ JSON_string s)
  | (k, inr true) => Some (JSON_string k +:+ ":null")
  | (k, inr false) => None
  end.

Definition JSON_object (members : list (string * (string + bool))) : string :=
  "{" +:+ join "," (omap JSON_member members) +:+ "}".

(** A query parameter: a string or [null]. *)
Definition or_null (x : option string) : string + bool :=
  match x with
  | Some s => inl s
  | None => inr true
  end.

(** [e.message]: a string or [undefined]. *)
Definition or_undefined (x : option string) : string + bool :=
  match x with
  | Some s => inl s
  | None => inr false
  end.

(** [await getVodUrlForEvent(...)] in a request that nothing interleaves
    with; the call is recorded. *)
Definition getVodUrlForEvent (env : Env) (options : VodCache.Options)
  : M World string :=
  fun w =>
    let '(s, r) :=
      VodCache.getVodUrlForEvent_alone (URL_origin env) (now env) (later env)
        (events_api env
           (VodCache.serverUrl options +:+ "/events/" +:+ VodCache.eventId options))
        options (vod w) in
    ({| vod := s; effects := effects w ++ [ResolveVodUrl options] |}, r).

(** [await streamVideoclipFromUrl(options)] *)
Definition stream (env : Env) (options : StreamOptions) : M World unit :=
  _ ← tell (StreamVideoclip options);
  lift (streamVideoclipFromUrl env options).

(** Lines 479-540, the body of the inner [try]. The result tells whether
    a [return] was reached. *)
Definition dispatch (env : Env) (url : Url) (dev : Mixin)
    (webhook : option string) (deviceId eventId : string) : M World bool :=
  if bool_decide (webhook = Some "videoclip") then
    '(videoUrl, _) ← lift (getVideoclipUrls dev eventId);
    if String.eqb
         (toLowerCase (default "" (searchParams_get (searchParams url) "hls")))
         "seg"
    then
      _ ← stream env
            {| requestUrl := url; stream_videoUrl := videoUrl;
               stream_vodUrl := None;
               stream_videoclipMode := videoclipMode dev;
               stream_deviceId := deviceId; stream_eventId := eventId |};
      mret true
    else
      vodUrl ← getVodUrlForEvent env
                 {| VodCache.cacheKey := deviceId +:+ ":" +:+ eventId;
                    VodCache.serverUrl := serverUrl env;
                    VodCache.eventId := eventId |};
      try_catch
        (_ ← stream env
               {| requestUrl := url; stream_videoUrl := videoUrl;
                  stream_vodUrl := Some vodUrl;
                  stream_videoclipMode := videoclipMode dev;
                  stream_deviceId := deviceId; stream_eventId := eventId |};
         mret true)
        (fun _ => mret true)
  else if bool_decide (webhook = Some "thumbnail") then
    '(_, thumbnailUrl) ← lift (getVideoclipUrls dev eventId);
    _ ← tell (AxiosGet thumbnailUrl);
    jpeg ← lift (axios_get env thumbnailUrl);
    _ ← send jpeg None (Some "image/jpeg");
    mret true
  else mret false.

(** Lines 445-566. [request_url] is [request.url]. The two handlers read
    [e.message] before they call [response.send]: a caught [null] or
    [undefined] makes the handler itself throw. The logging calls and
    [response.send] are taken to return. *)
Definition onRequest (env : Env) (request_url : string) : M World unit :=
  match URL_parse env ("http://localhost" +:+ request_url) with
  | None => lift (Throw (TypeError "Invalid URL"))
  | Some url =>
      let deviceId := searchParams_get (searchParams url) "deviceId" in
      let eventId := searchParams_get (searchParams url) "eventId" in
      match deviceId, eventId with
      | Some device, Some event =>
          if truthy_string device && truthy_string event then
            try_catch
              (let webhook := split "/" (pathname url) !! 5%nat in
               dev ← lift
                 match currentMixinsMap env with
                 | Some mixins => Normal (mixins device)
                 | None => Throw (TypeError
                     "Cannot read properties of undefined (reading 'currentMixinsMap')")
                 end;
               match dev with
               | None =>
                   send ("Device not found for deviceId: " +:+ device)
                     (Some 404) None
               | Some dev =>
                   _ ← lift (getLogger dev);
                   _ ← lift (debug dev);
                   returned ← try_catch
                     (dispatch env url dev webhook device event)
                     (fun e =>
                        e_message ← lift (read_message e);
                        _ ← send (as_JSON e +:+ ", " +:+ render e_message)
                              (Some 400) None;
                        mret true);
                   if returned : bool then mret tt
                   else send ("Webhook not found: " +:+ pathname url)
                          (Some 404) None
               end)
              (fun e =>
                 e_message ← lift (read_message e);
                 send ("Error in data parsing for webhook: " +:+
                       JSON_object [("error", or_undefined e_message);
                                    ("deviceId", inl device);
                                    ("eventId", inl event);
                                    ("url", inl request_url)])
                   (Some 500) None)
          else
            send ("Missing required parameters: " +:+
                  JSON_object [("deviceId", or_null deviceId);
                               ("eventId", or_null eventId)])
              (Some 400) None
      | _, _ =>
          send ("Missing required parameters: " +:+
                JSON_object [("deviceId", or_null deviceId);
                             ("eventId", or_null eventId)])
            (Some 400) None
      end
  end.

(** ** A setting to run the gateway in *)

(** A mixin whose calls all succeed. *)
Definition demo_mixin : Mixin :=
  {| getLogger := Normal tt;
     debug := Normal tt;
     getVideoclipUrls := fun eventId =>
       Normal ("http://nvr:5000/api/events/" +:+ eventId +:+ "/clip.mp4",
               "http://nvr:5000/api/events/" +:+ eventId +:+ "/thumbnail.jpg");
     videoclipMode := None |}.

(** A mixin whose [getLogger] throws [undefined]. *)
Definition failing_mixin : Mixin :=
  {| getLogger := Throw thrown_undefined;
     debug := Normal tt;
     getVideoclipUrls := getVideoclipUrls demo_mixin;
     videoclipMode := None |}.

(** The parsed URL of a request for [webhook] of event ["ev1"] of device
    ["12"], with the query parameters [extra] after the two. *)
Definition demo_url (webhook : string) (extra : list (string * string)) : Url :=
  {| pathname := "/endpoint/@scrypted/frigate-bridge/public/" +:+ webhook;
     searchParams := ("deviceId", "12") :: ("eventId", "ev1") :: extra |}.

(** Device ["12"] is known, with [mixin]; the thumbnail request ends as
    [thumbnail]; the backend knows the event. *)
Definition demo_env (url : Url) (mixin : Mixin) (thumbnail : Completion string) : Env :=
  {| URL_parse := fun _ => Some url;
     URL_origin := VodCache.demo_origin;
     currentMixinsMap :=
       Some (fun id => if String.eqb id "12" then Some mixin else None);
     serverUrl := "http://nvr:5000/api";
     streamVideoclipFromUrl := fun _ => Normal tt;
     axios_get := fun _ => thumbnail;
     events_api := fun _ => VodCache.AxiosData (Some VodCache.demo_event);
     now := 1000;
     later := 1200 |}.

Definition idle : World := {| vod := VodCache.empty_store; effects := [] |}.

End Gateway.

(** * The camera device: stored streams, settings, stream options, start-up
      (camera.ts 113-147, 406-449, 462-514, 548-593) *)

Module Camera.
Import Js Discovery.

(** What the camera needs besides the collaborators of discovery:
    [birdseyeStreamName] is the constant of [./utils] that names the
    overview camera; [JSON_parse_streams] is [JSON.parse] on a stored
    text, [None] when it throws or yields no array. *)
Record Env := {
  discovery_env : Discovery.Env;
  birdseyeStreamName : string;
  JSON_parse_streams : string -> option (list ConfiguredStreamProbe)
}.

(** Line 104: [this.cameraName === birdseyeStreamName] *)
Definition isBirdseyeCamera (env : Env) (cameraName : string) : bool :=
  String.eqb cameraName (birdseyeStreamName env).

(** Lines 113-128. What [storeProbedStreams] wrote is read back as the
    list it was given; any other text goes through [JSON.parse]. *)
Definition getStoredProbedStreams (env : Env) (storage : gmap string Item)
  : list ConfiguredStreamProbe :=
  match storage !! "probedStreams" with
  | Some (Streams l) => l
  | Some (Text raw) => default [] (JSON_parse_streams env raw)
  | None => []
  end.

(** Lines 134-147 *)
Definition getGo2RtcUrlForStreamName (env : Env) (streamName : string)
  : option string :=
  if truthy_string streamName then
    match truthy_setting (baseGo2rtcUrl_value (discovery_env env)) with
    | Some base => Some (strip_final_slashes base +:+ "/" +:+ streamName)
    | None => None
    end
  else None.

(** A [StorageSetting] as lines 419-428 fill it ([type] is 'string' and
    [title] is 'URL' for each). *)
Record StorageSetting := {
  key : string;
  subgroup : string;
  defaultValue : string
}.

(** Lines 406-432 *)
Definition getStreamsSettings (env : Env) (cameraName : string)
    (storage : gmap string Item) : list StorageSetting :=
  if isBirdseyeCamera env cameraName then []
  else
    map (fun stream =>
           {| key := getDetectedStreamKey (streamId stream);
              subgroup := streamName stream;
              defaultValue := url stream |})
        (getStoredProbedStreams env storage).

(** [UrlMediaStreamOptions] as lines 554-586 fill it. [stream_url] is
    what the storage holds under the stream's key; the overview stream
    has no [video]. *)
Record UrlMediaStreamOptions := {
  name : string;
  id : string;
  container : option string;
  stream_url : option Item;
  video : option (option Z * option Z)
}.

(** Lines 548-593 *)
Definition getConstructedVideoStreamOptions (env : Env) (cameraName : string)
    (storage : gmap string Item) : list UrlMediaStreamOptions :=
  if isBirdseyeCamera env cameraName then
    match getGo2RtcUrlForStreamName env "birdseye" with
    | Some url =>
        [{| name := "Birdseye"; id := "birdseye"; container := Some "rtsp";
            stream_url := Some (Text url); video := None |}]
    | None => []
    end
  else
    map (fun item =>
           {| name := streamName item;
              id := streamId item;
              container := ffprobe item ≫= Probe.protocol;
              stream_url := storage !! getDetectedStreamKey (streamId item);
              video := Some (ffprobe item ≫= (fun f => Probe.width (Probe.video f)),
                             ffprobe item ≫= (fun f => Probe.height (Probe.video f))) |})
        (getStoredProbedStreams env storage).

(** The provider and storage as discovery sees them, and the number of
    listeners registered with [sdk.systemManager.listen]. *)
Record World := {
  device : Discovery.World;
  listeners : nat
}.

(** Code of the discovery model run on the camera's world. *)
Definition on_device {A} (c : M Discovery.World A) : M World A :=
  fun w =>
    let '(d, r) := c (device w) in
    ({| device := d; listeners := listeners w |}, r).

(** Lines 434-449, as far as the collaborators show it. *)
Definition refreshSettings (env : Env) : M World unit :=
  on_device (_ ← Discovery.tell RefreshSettings;
             lift (refresh (discovery_env env))).

(** Lines 462-514. The listener is registered, not run; the two
    assignments to [rerunFfprobe.hide] concern the settings form only. *)
Definition init (env : Env) (cameraName : string) : M World unit :=
  _ ← (if isBirdseyeCamera env cameraName then mret tt
       else
         w ← get;
         _ ← (match getStoredProbedStreams env (storage (device w)) with
              | [] =>
                  try_catch
                    (_ ← on_device
                           (discoverBestConfiguredStreamUrlsAndProbe
                              (discovery_env env) cameraName false (Some 2));
                     mret tt)
                    (fun _ => mret tt)
              | _ :: _ => mret tt
              end);
         modify (fun w => {| device := device w; listeners := S (listeners w) |}));
  refreshSettings env.

(** A run of slashes. *)
Fixpoint all_slashes (s : string) : bool :=
  match s with
  | EmptyString => true
  | String c rest => Ascii.eqb c "/" && all_slashes rest
  end.

(** The stream option built from a stored item whose URL is stored as
    [stored]. *)
Definition option_of (stored : option Item) (item : ConfiguredStreamProbe)
  : UrlMediaStreamOptions :=
  {| name := streamName item;
     id := streamId item;
     container := ffprobe item ≫= Probe.protocol;
     stream_url := stored;
     video := Some (ffprobe item ≫= (fun f => Probe.width (Probe.video f)),
                    ffprobe item ≫= (fun f => Probe.height (Probe.video f))) |}.

(** ** A setting to run the camera in *)

Definition demo_env (backend : Discovery.Env) : Env :=
  {| discovery_env := backend;
     birdseyeStreamName := "birdseye";
     JSON_parse_streams := fun _ => None |}.

Definition start (device : Discovery.World) : World :=
  {| device := device; listeners := 0 |}.

End Camera.

(** * The plugin's cameras: discovery list, adoption, camera objects
      (main.ts 172-181, 678-692, 715-717, 736-803; the constructor of a
      camera, camera.ts 96-107) *)

Module Plugin.
Import Js Discovery.

(** [s.split(sep)] for a separator that is a non-empty string: [skip]
    counts the characters of a separator just matched that are still to
    be passed over. *)
Fixpoint split_string_from (sep : string) (skip : nat) (s : string) : list string :=
  match s with
  | EmptyString => [EmptyString]
  | String c rest =>
      match skip with
      | S k => split_string_from sep k rest
      | O =>
          if String.prefix sep s
          then EmptyString :: split_string_from sep (String.length sep - 1) rest
          else match split_string_from sep 0 rest with
               | piece :: pieces => String c piece :: pieces
               | [] => [String c EmptyString]
               end
      end
  end.

Definition split_string (sep s : string) : list string :=
  split_string_from sep 0 s.

(** A [Device] handed to the platform: [interfaces] and [type] are the
    same for every camera. *)
Record Device := {
  nativeId : string;
  name : string
}.

(** A [FrigateBridgeCamera] as the plugin makes it: the two constructor
    arguments that vary. [cameraName] is [undefined] when the identifier
    has no second piece. *)
Record CameraObject := {
  camera_nativeId : string;
  camera_cameraName : option string
}.

(** The constants [importedCameraNativeIdPrefix] and [birdseyeStreamName]
    of [./utils]; [getNativeIds] is [sdk.deviceManager.getNativeIds()];
    [toLowerCase] and [toUpperCase] are the string methods; [device_id]
    is the [id] the platform gave the camera of a native identifier;
    [getDeviceStorage] is the platform's storage of a device, which is
    what [this.storage] of a camera reads, and [JSON_parse_streams] the
    [JSON.parse] of the camera's settings. *)
Record Env := {
  discovery_env : Discovery.Env;
  importedCameraNativeIdPrefix : string;
  birdseyeStreamName : string;
  getNativeIds : list string;
  toLowerCase : string -> string;
  toUpperCase : string -> string;
  device_id : string -> option string;
  getDeviceStorage : string -> gmap string Item;
  JSON_parse_streams : string -> option (list ConfiguredStreamProbe)
}.

(** Calls to the platform. [Listen] is the [sdk.systemManager.listen]
    of the camera with that identifier. *)
Inductive Effect :=
| OnDeviceDiscovered (device : Device)
| OnDeviceEvent (listing : list Device)
| Listen (nativeId : string).

(** The provider's configuration cache, [camerasMap], and
    [discoveredDevices], a [Map] kept in insertion order. *)
Record World := {
  provider : Discovery.World;
  camerasMap : gmap string CameraObject;
  discoveredDevices : list (string * Device);
  calls : list Effect
}.

Definition on_provider {A} (c : M Discovery.World A) : M World A :=
  fun w =>
    let '(p, r) := c (provider w) in
    ({| provider := p; camerasMap := camerasMap w;
        discoveredDevices := discoveredDevices w; calls := calls w |}, r).

Definition tell (x : Effect) : M World unit :=
  modify (fun w =>
    {| provider := provider w; camerasMap := camerasMap w;
       discoveredDevices := discoveredDevices w; calls := calls w ++ [x] |}).

(** [this.discoveredDevices.has(nativeId)] *)
Definition discovered_has (l : list (string * Device)) (nativeId : string) : bool :=
  bool_decide (nativeId ∈ l.*1).

(** [this.discoveredDevices.get(nativeId)] *)
Fixpoint discovered_get (l : list (string * Device)) (nativeId : string)
  : option Device :=
  match l with
  | [] => None
  | (k, d) :: rest => if String.eqb k nativeId then Some d else discovered_get rest nativeId
  end.

(** [cameraName.replace(/_/g, ' ')] *)
Fixpoint underscores_to_spaces (s : string) : string :=
  match s with
  | EmptyString => EmptyString
  | String c rest =>
      String (if Ascii.eqb c "_" then " "%char else c) (underscores_to_spaces rest)
  end.

(** Lines 744-751. [lower.charAt(0)] is the first byte of [lower]. *)
Definition friendly_name (env : Env) (cameraName : string) : string :=
  let withSpaces := trim (underscores_to_spaces cameraName) in
  if truthy_string withSpaces
  then
    let lower := toLowerCase env withSpaces in
    match lower with
    | String c rest => toUpperCase env (String c EmptyString) +:+ rest
    | EmptyString => toUpperCase env EmptyString +:+ EmptyString
    end
  else cameraName.

(** Line 742 *)
Definition camera_nativeId_of (env : Env) (cameraName : string) : string :=
  importedCameraNativeIdPrefix env +:+ "__" +:+ cameraName.

(** Lines 741-773, the body of the loop for one camera name. The
    platform's list of native identifiers is the same all along one
    run. *)
Definition sync_camera (env : Env) (cameraName : string) : M World unit :=
  let nativeId := camera_nativeId_of env cameraName in
  let device := {| nativeId := nativeId; name := friendly_name env cameraName |} in
  if bool_decide (nativeId ∈ getNativeIds env)
  then tell (OnDeviceDiscovered device)
  else
    w ← get;
    if discovered_has (discoveredDevices w) nativeId then mret tt
    else modify (fun w =>
           {| provider := provider w; camerasMap := camerasMap w;
              discoveredDevices := discoveredDevices w ++ [(nativeId, device)];
              calls := calls w |}).

Fixpoint for_each (names : list string) (body : string -> M World unit)
  : M World unit :=
  match names with
  | [] => mret tt
  | n :: rest => _ ← body n; for_each rest body
  end.

(** Lines 736-777. [Object.keys(config.cameras)] is taken in the order
    in which the map of cameras enumerates its keys. *)
Definition syncCameras (env : Env) (force : bool) : M World unit :=
  config ← on_provider (getConfiguration (discovery_env env) force);
  match config with
  | None =>
      lift (Throw (TypeError
        "Cannot read properties of undefined (reading 'cameras')"))
  | Some config =>
      match cameras config with
      | None =>
          lift (Throw (TypeError "Cannot convert undefined or null to object"))
      | Some cams =>
          for_each ((map_to_list cams).*1 ++ [birdseyeStreamName env])
            (sync_camera env)
      end
  end.

(** Lines 779-788. The description of an entry is its device's name. *)
Definition discoverDevices (env : Env) (scan : bool) : M World (list Device) :=
  _ ← (if scan then syncCameras env true else mret tt);
  w ← get;
  mret (discoveredDevices w).*2.

(** The provider after the calls [started] were made. *)
Definition requested (p : Discovery.World) (started : list Discovery.Effect)
  : Discovery.World :=
  {| config := config p; lastConfigFetch := lastConfigFetch p;
     configRawJson := configRawJson p;
     lastConfigRawJsonFetch := lastConfigRawJsonFetch p;
     storage := storage p; time := time p;
     effects := effects p ++ started |}.

(** What a camera of this plugin is given. *)
Definition camera_env (env : Env) : Camera.Env :=
  {| Camera.discovery_env := discovery_env env;
     Camera.birdseyeStreamName := birdseyeStreamName env;
     Camera.JSON_parse_streams := JSON_parse_streams env |}.

(** main.ts 260-271, as far as a call of [getConfigurationRawJson] gets
    before it has to wait: to its [return] when the provider's copy is
    fresh, and otherwise to the [await] of the request it has made. *)
Definition getConfigurationRawJson_begins : M Discovery.World unit :=
  now ← Date_now;
  w ← get;
  if bool_decide (is_Some (configRawJson w)) &&
     within_five_minutes now (Some (default 0 (lastConfigRawJsonFetch w)))
  then mret tt
  else Discovery.tell (Fetch "config/raw").

(** [new FrigateBridgeCamera(nativeId, this, cameraName)], camera.ts
    96-107. The constructor calls [init] and does not wait for it:
    [init] runs until it reaches an [await], and goes on after the
    constructor has returned. What it has done when the constructor
    returns (camera.ts 462-514, 434-444, 313-320):
    - the overview camera has called the settings refresh of line 513;
    - a camera with stored streams has registered its listener (line
      478) and called the settings refresh;
    - a camera without stored streams has entered discovery (line 470),
      which has called [getConfigurationRawJson] (line 320).
    What [init] does after that is not part of this step. A rejection of
    [init] goes to the logger (line 106): the constructor does not
    throw. *)
Definition construct (env : Env) (nativeId : string)
    (cameraName : option string) : M World unit :=
  if bool_decide (cameraName = Some (birdseyeStreamName env))
  then on_provider (Discovery.tell RefreshSettings)
  else
    match Camera.getStoredProbedStreams (camera_env env)
            (getDeviceStorage env nativeId) with
    | [] => on_provider getConfigurationRawJson_begins
    | _ :: _ =>
        _ ← tell (Listen nativeId);
        on_provider (Discovery.tell RefreshSettings)
    end.

(** The names that every object inherits from [Object.prototype]:
    [camerasMap] starts as [{}], so a lookup of one of them finds the
    inherited value, which is truthy. *)
Definition Object_prototype_names : list string :=
  ["constructor"; "__defineGetter__"; "__defineSetter__"; "hasOwnProperty";
   "__lookupGetter__"; "__lookupSetter__"; "isPrototypeOf";
   "propertyIsEnumerable"; "toString"; "valueOf"; "__proto__";
   "toLocaleString"].

(** What [this.camerasMap[nativeId]] can be once it is truthy. *)
Inductive Found :=
| Camera (camera : CameraObject)
| Inherited (property : string).

(** Lines 678-692. A camera that is in [camerasMap] is returned as it
    is; otherwise one is made from the second piece of the identifier,
    which starts it, and kept. *)
Definition getCamera (env : Env) (nativeId : string) : M World Found :=
  w ← get;
  match camerasMap w !! nativeId with
  | Some found => mret (Camera found)
  | None =>
      if bool_decide (nativeId ∈ Object_prototype_names)
      then mret (Inherited nativeId)
      else
        let cameraName := split_string "__" nativeId !! 1%nat in
        let newCamera :=
          {| camera_nativeId := nativeId;
             camera_cameraName := cameraName |} in
        _ ← construct env nativeId cameraName;
        _ ← modify (fun w =>
              {| provider := provider w;
                 camerasMap := <[nativeId := newCamera]> (camerasMap w);
                 discoveredDevices := discoveredDevices w; calls := calls w |});
        mret (Camera newCamera)
  end.

(** Lines 715-717. [delete] leaves inherited properties alone. *)
Definition releaseDevice (nativeId : string) : M World unit :=
  modify (fun w =>
    {| provider := provider w; camerasMap := delete nativeId (camerasMap w);
       discoveredDevices := discoveredDevices w; calls := calls w |}).

(** Lines 790-803, run without another call in between; the start-up
    of the camera that [getCamera] makes is counted as far as
    [construct] has it. [device?.id] is the platform's [id] of a camera,
    and [undefined] on an inherited value. *)
Definition adoptDevice (env : Env) (nativeId : string) : M World (option string) :=
  w ← get;
  let entry := discovered_get (discoveredDevices w) nativeId in
  listing ← discoverDevices env false;
  _ ← tell (OnDeviceEvent listing);
  match entry with
  | None => lift (Throw (new_Error "device not found"))
  | Some device =>
      _ ← tell (OnDeviceDiscovered device);
      _ ← modify (fun w =>
            {| provider := provider w; camerasMap := camerasMap w;
               discoveredDevices :=
                 filter (fun e => e.1 <> nativeId) (discoveredDevices w);
               calls := calls w |});
      device ← getCamera env nativeId;
      match device with
      | Camera _ => mret (device_id env nativeId)
      | Inherited _ => mret None
      end
  end.

(** ** A setting to run the plugin in *)

Definition demo_env (backend : Discovery.Env) (adopted : list string) : Env :=
  {| discovery_env := backend;
     importedCameraNativeIdPrefix := "frigateCamera";
     birdseyeStreamName := "birdseye";
     getNativeIds := adopted;
     toLowerCase := fun s => s;
     toUpperCase := fun s => s;
     device_id := fun _ => Some "42";
     getDeviceStorage := fun _ => ∅;
     JSON_parse_streams := fun _ => None |}.

Definition start (provider : Discovery.World) : World :=
  {| provider := provider; camerasMap := ∅; discoveredDevices := []; calls := [] |}.

(** The plugin after a scan found camera ["front"]. *)
Definition front_device : Device :=
  {| nativeId := "frigateCamera__front"; name := "front" |}.

Definition front_listed : World :=
  {| provider := fresh_provider; camerasMap := ∅;
     discoveredDevices := [("frigateCamera__front", front_device)];
     calls := [] |}.

End Plugin.

(** * Properties of the resolution cache *)

Module VodCacheFacts.
Import VodCache.

Section Facts.

Variable URL_origin : string -> option string.




(** A call that finds nothing fresh and nothing in flight starts the one
    computation. *)
Lemma start_computation now options s :
  fresh now (cache s !! cacheKey options) = None ->
  inFlight (default empty_entry (cache s !! cacheKey options)) = None ->
  getVodUrlForEvent now options s =
    ({| cache := <[cacheKey options :=
                   set_inFlight (Some (length (promises s)))
                     (default empty_entry (cache s !! cacheKey options))]> (cache s);
        promises := promises s ++
          [{| job_key := cacheKey options; job_serverUrl := serverUrl options;
              job_state := Pending |}];
        upstream := upstream s ++
          [serverUrl options +:+ "/events/" +:+ eventId options] |},
     Awaiting (cacheKey options) (length (promises s))).
Proof.
  intros Hf Hp. unfold getVodUrlForEvent. rewrite Hf, Hp. reflexivity.
Qed.

Lemma axios_settles_upstream p r now s :
  upstream (axios_settles URL_origin p r now s) = upstream s.
Proof.
  unfold axios_settles.
  destruct (promises s !! p) as [[k sv []]|]; try reflexivity.
  destruct r as [e|[ev|]]; try reflexivity;
    destruct (URL_origin sv); reflexivity.
Qed.

Lemma axios_settles_promise p r now s k sv :
  promises s !! p = Some {| job_key := k; job_serverUrl := sv; job_state := Pending |} ->
  promises (axios_settles URL_origin p r now s) !! p =
    Some {| job_key := k; job_serverUrl := sv; job_state := settled_to URL_origin sv r |}.
Proof.
  intros Hp. pose proof (lookup_lt_Some _ _ _ Hp) as Hlt.
  unfold axios_settles, settled_to, settle. rewrite Hp.
  destruct r as [e|[ev|]]; simpl;
    try destruct (URL_origin sv); simpl;
    rewrite list_lookup_insert_eq by exact Hlt; reflexivity.
Qed.

Lemma settled_to_not_pending sv r : settled_to URL_origin sv r <> Pending.
Proof.
  unfold settled_to. destruct r as [e|[ev|]]; try discriminate;
    destruct (URL_origin sv); discriminate.
Qed.

Lemma await_settled sv r :
  exists out, await_result (settled_to URL_origin sv r) = Some out.
Proof.
  pose proof (settled_to_not_pending sv r) as H.
  destruct (settled_to URL_origin sv r); [congruence| |]; eexists; reflexivity.
Qed.

Lemma resume_settled key p s j out :
  promises s !! p = Some j ->
  await_result (job_state j) = Some out ->
  resume key p s =
    Some ({| cache := alter (set_inFlight None) key (cache s);
             promises := promises s; upstream := upstream s |}, out).
Proof.
  intros Hp Hs. unfold resume. rewrite Hp, Hs. reflexivity.
Qed.



Lemma manifest_url_truthy o rest : truthy_string (o +:+ "/vod/" +:+ rest) = true.
Proof. destruct o; reflexivity. Qed.

Lemma entry_sound_set_inFlight o e : entry_sound e -> entry_sound (set_inFlight o e).
Proof. intros H. exact H. Qed.

Lemma entry_sound_empty : entry_sound empty_entry.
Proof. split; intros x Hx; discriminate Hx. Qed.

Lemma turn_sound t s :
  clock_positive t ->
  map_Forall (fun _ e => entry_sound e) (cache s) ->
  map_Forall (fun _ e => entry_sound e) (cache (turn URL_origin t s)).
Proof.
  intros Hc Hs. destruct t as [now o|p r now|key p]; simpl.
  - unfold getVodUrlForEvent.
    destruct (fresh now (cache s !! cacheKey o)); [exact Hs|].
    assert (He : entry_sound (default empty_entry (cache s !! cacheKey o))).
    { destruct (cache s !! cacheKey o) as [e|] eqn:E; simpl.
      - exact (Hs _ _ E).
      - exact entry_sound_empty. }
    destruct (inFlight (default empty_entry (cache s !! cacheKey o)));
      simpl; apply map_Forall_insert_2; auto using entry_sound_set_inFlight.
  - unfold axios_settles.
    destruct (promises s !! p) as [[k sv []]|]; try exact Hs.
    destruct r as [e|ev]; [exact Hs|].
    destruct (URL_origin sv) as [og|]; [|exact Hs].
    destruct ev as [ev|]; [|exact Hs]. simpl.
    intros k' e'. rewrite lookup_alter.
    case_decide as Hkk; [subst k'|apply Hs].
    destruct (cache s !! k) as [e0|] eqn:E; simpl; [|discriminate].
    intros [= <-]. split; simpl; intros x [= <-].
    + apply manifest_url_truthy.
    + exact Hc.
  - unfold resume.
    destruct (promises s !! p) as [j|]; [|exact Hs].
    destruct (await_result (job_state j)); [|exact Hs]. simpl.
    intros k' e'. rewrite lookup_alter.
    case_decide as Hkk; [subst k'|apply Hs].
    destruct (cache s !! key) as [e0|] eqn:E; simpl; [|discriminate].
    intros [= <-]. apply entry_sound_set_inFlight. exact (Hs _ _ E).
Qed.

(** Every entry of a reachable store is sound. *)
Lemma reachable_sound s :
  reachable URL_origin s -> map_Forall (fun _ e => entry_sound e) (cache s).
Proof.
  induction 1 as [|s t _ IH Hc].
  - intros k e Hk. simpl in Hk. rewrite lookup_empty in Hk. discriminate.
  - apply turn_sound; assumption.
Qed.

Lemma settle_length p st s : length (settle p st s) = length (promises s).
Proof.
  unfold settle. destruct (promises s !! p); [apply length_insert|reflexivity].
Qed.

Lemma axios_settles_length p r now s :
  length (promises (axios_settles URL_origin p r now s)) = length (promises s).
Proof.
  unfold axios_settles.
  destruct (promises s !! p) as [[k sv []]|] eqn:Hp; try reflexivity.
  destruct r as [e|[ev|]]; simpl; try destruct (URL_origin sv); simpl;
    unfold settle; rewrite Hp; apply length_insert.
Qed.

Lemma turn_known t s : promises_known s -> promises_known (turn URL_origin t s).
Proof.
  intros Hs. destruct t as [now o|p r now|key p]; simpl.
  - unfold getVodUrlForEvent.
    destruct (fresh now (cache s !! cacheKey o)); [exact Hs|].
    assert (He : forall q, inFlight (default empty_entry (cache s !! cacheKey o))
                   = Some q -> (q < length (promises s))%nat).
    { destruct (cache s !! cacheKey o) as [e|] eqn:E; simpl.
      - exact (Hs _ _ E).
      - discriminate. }
    destruct (inFlight (default empty_entry (cache s !! cacheKey o))) eqn:Hin;
      simpl.
    + apply map_Forall_insert_2; [|exact Hs]. rewrite Hin. exact He.
    + apply map_Forall_insert_2.
      * simpl. intros q [= <-]. rewrite List.length_app. simpl. lia.
      * intros k e Hk q Hq. simpl. rewrite List.length_app. simpl.
        pose proof (Hs k e Hk q Hq). lia.
  - intros k e Hk q Hq. rewrite axios_settles_length.
    revert Hk. unfold axios_settles.
    destruct (promises s !! p) as [[k' sv []]|]; try (intros Hk; exact (Hs k e Hk q Hq)).
    destruct r as [e'|ev]; [intros Hk; exact (Hs k e Hk q Hq)|].
    destruct (URL_origin sv); [|intros Hk; exact (Hs k e Hk q Hq)].
    destruct ev; [|intros Hk; exact (Hs k e Hk q Hq)]. simpl.
    rewrite lookup_alter. case_decide as Hkk; [subst k|intros Hk; exact (Hs _ e Hk q Hq)].
    destruct (cache s !! k') as [e0|] eqn:E; simpl; [|discriminate].
    intros [= <-]. exact (Hs k' e0 E q Hq).
  - unfold resume.
    destruct (promises s !! p) as [j|]; [|exact Hs].
    destruct (await_result (job_state j)); [|exact Hs].
    intros k e. simpl. rewrite lookup_alter.
    case_decide as Hkk; [subst k|apply Hs].
    destruct (cache s !! key) as [e0|]; simpl; [|discriminate].
    intros [= <-] q Hq. discriminate Hq.
Qed.

Lemma reachable_known s : reachable URL_origin s -> promises_known s.
Proof.
  induction 1 as [|s t _ IH _].
  - intros k e Hk. simpl in Hk. rewrite lookup_empty in Hk. discriminate.
  - apply turn_known. exact IH.
Qed.

(** A call that runs alone always comes back: the promise it awaits is in
    the table and is settled by the time the caller resumes. *)
Lemma alone_resumes now later r options s s1 key p :
  promises_known s ->
  getVodUrlForEvent now options s = (s1, Awaiting key p) ->
  exists out, resume key p (axios_settles URL_origin p r later s1) = Some out.
Proof.
  intros Hs Hcall.
  assert (Hp : (p < length (promises s1))%nat).
  { pose proof (turn_known (CallTurn now options) s Hs) as H1. simpl in H1.
    rewrite Hcall in H1. simpl in H1.
    revert Hcall. unfold getVodUrlForEvent.
    destruct (fresh now (cache s !! cacheKey options)); [discriminate|].
    destruct (inFlight (default empty_entry (cache s !! cacheKey options))) eqn:Hin;
      intros [= <- <- <-].
    - apply (H1 (cacheKey options) (default empty_entry (cache s !! cacheKey options))).
      + simpl. apply lookup_insert_eq.
      + exact Hin.
    - simpl. rewrite List.length_app. simpl. lia. }
  destruct (lookup_lt_is_Some_2 _ _ Hp) as [[k sv st] Hj].
  destruct st as [|v|e].
  - destruct (await_settled sv r) as [out Hout].
    rewrite (resume_settled key p _ _ out
               (axios_settles_promise p r later s1 k sv Hj) Hout).
    eexists; reflexivity.
  - unfold axios_settles. rewrite Hj.
    rewrite (resume_settled key p s1 _ (Normal v) Hj eq_refl). eexists; reflexivity.
  - unfold axios_settles. rewrite Hj.
    rewrite (resume_settled key p s1 _ (Throw e) Hj eq_refl). eexists; reflexivity.
Qed.

(** C2. In any store the process can reach, a call that finds a manifest
    URL cached for its key less than five minutes ago returns it, leaves
    the store as it is and sends nothing upstream; a call that finds one
    at least five minutes old, with nothing in flight, sends exactly one
    request and waits for it. *)
Theorem ttl_freshness (s : Store) (now : Z) (options : Options)
    (e : VodUrlCacheEntry) (u : string) (t : Z) :
  reachable URL_origin s ->
  cache s !! cacheKey options = Some e ->
  vodUrl e = Some u ->
  fetchedAt e = Some t ->
  (now - t < VOD_URL_CACHE_TTL_MS ->
     getVodUrlForEvent now options s = (s, Returned u)) /\
  (VOD_URL_CACHE_TTL_MS <= now - t -> inFlight e = None ->
     exists s',
       getVodUrlForEvent now options s =
         (s', Awaiting (cacheKey options) (length (promises s))) /\
       upstream s' =
         upstream s ++ [serverUrl options +:+ "/events/" +:+ eventId options] /\
       promises s' =
         promises s ++ [{| job_key := cacheKey options;
                           job_serverUrl := serverUrl options;
                           job_state := Pending |}]).
Proof.
  intros Hr He Hu Ht.
  destruct (reachable_sound s Hr _ _ He) as [Htruthy Hpos].
  specialize (Htruthy u Hu). specialize (Hpos t Ht). split.
  - intros Hage. unfold getVodUrlForEvent, fresh. rewrite He, Hu, Ht, Htruthy.
    replace (t =? 0) with false by (symmetry; apply Z.eqb_neq; lia).
    replace (now - t <? VOD_URL_CACHE_TTL_MS) with true
      by (symmetry; apply Z.ltb_lt; exact Hage).
    reflexivity.
  - intros Hage Hin. rewrite start_computation.
    + eexists. split; [reflexivity|]. split; reflexivity.
    + unfold fresh. rewrite He, Hu, Ht.
      replace (now - t <? VOD_URL_CACHE_TTL_MS) with false
        by (symmetry; apply Z.ltb_ge; exact Hage).
      rewrite andb_false_r. reflexivity.
    + rewrite He. exact Hin.
Qed.

(** C3. When the computation of a pending promise fails, the cache is left
    exactly as it was, every caller waiting on the promise gets the error
    thrown at it, and its [finally] resets [inFlight] while [vodUrl] and
    [fetchedAt] keep their earlier values; the marker is reset as well
    when the computation succeeds, so the next stale call starts a new
    computation. *)
Theorem failure_leaves_cache_usable (s : Store) (p : nat) (key sv : string)
    (entry : VodUrlCacheEntry) (r : AxiosOutcome) (now : Z) :
  promises s !! p =
    Some {| job_key := key; job_serverUrl := sv; job_state := Pending |} ->
  cache s !! key = Some entry ->
  exists s2 out,
    resume key p (axios_settles URL_origin p r now s) = Some (s2, out) /\
    await_result (settled_to URL_origin sv r) = Some out /\
    inFlight <$> cache s2 !! key = Some None /\
    (forall e, settled_to URL_origin sv r = Rejected e ->
       out = Throw e /\
       cache (axios_settles URL_origin p r now s) = cache s /\
       cache s2 !! key = Some (set_inFlight None entry) /\
       vodUrl <$> cache s2 !! key = Some (vodUrl entry) /\
       fetchedAt <$> cache s2 !! key = Some (fetchedAt entry)).
Proof.
  intros Hp He.
  destruct (await_settled sv r) as [out Hout].
  pose proof (axios_settles_promise p r now s key sv Hp) as Hp3.
  rewrite (resume_settled key p _ _ out Hp3 Hout).
  eexists _, out. split; [reflexivity|]. split; [exact Hout|].
  assert (Hc : forall e, settled_to URL_origin sv r = Rejected e ->
             cache (axios_settles URL_origin p r now s) = cache s).
  { intros e Hrej. unfold axios_settles. rewrite Hp.
    unfold settled_to in Hrej.
    destruct r as [e'|ev]; [reflexivity|].
    destruct (URL_origin sv); [|reflexivity].
    destruct ev; [discriminate|reflexivity]. }
  split.
  - simpl. rewrite lookup_alter, decide_True by reflexivity.
    unfold axios_settles. rewrite Hp.
    destruct r as [e'|ev]; simpl; [rewrite He; reflexivity|].
    destruct (URL_origin sv); simpl; [|rewrite He; reflexivity].
    destruct ev; simpl; [|rewrite He; reflexivity].
    rewrite lookup_alter, decide_True by reflexivity.
    rewrite He. reflexivity.
  - intros e Hrej. rewrite Hrej in Hout. injection Hout as <-.
    split; [reflexivity|]. split; [exact (Hc e Hrej)|].
    simpl. rewrite (Hc e Hrej), lookup_alter, decide_True by reflexivity.
    rewrite He. repeat split; reflexivity.
Qed.

End Facts.

Lemma demo_cached_reachable : reachable demo_origin demo_cached.
Proof.
  unfold demo_cached.
  repeat (apply reach_turn; [|simpl; lia || exact I]).
  apply reach_start.
Defined.


Lemma ttl_freshness_witness :
  getVodUrlForEvent 2000 demo_options demo_cached
    = (demo_cached,
       Returned "http://nvr:5000/vod/porch/start/100.5/end/130.25/index.m3u8") /\
  exists s',
    getVodUrlForEvent 301200 demo_options demo_cached =
      (s', Awaiting "cam1:ev1" 1) /\
    upstream s' =
      ["http://nvr:5000/api/events/ev1"; "http://nvr:5000/api/events/ev1"].
Proof.
  pose (e := {| vodUrl := Some "http://nvr:5000/vod/porch/start/100.5/end/130.25/index.m3u8";
                fetchedAt := Some 1200; inFlight := None |}).
  assert (He : cache demo_cached !! cacheKey demo_options = Some e)
    by (vm_compute; reflexivity).
  split.
  - apply (proj1 (ttl_freshness demo_origin demo_cached 2000 demo_options e _ 1200
                    demo_cached_reachable He eq_refl eq_refl)).
    vm_compute. reflexivity.
  - destruct (proj2 (ttl_freshness demo_origin demo_cached 301200 demo_options e _ 1200
                       demo_cached_reachable He eq_refl eq_refl))
      as [s' [H1 [H2 _]]].
    + vm_compute. discriminate.
    + reflexivity.
    + exists s'. split; [exact H1|exact H2].
Defined.

Lemma failure_leaves_cache_usable_witness :
  exists s2 out,
    resume "cam1:ev1" 0
      (axios_settles demo_origin 0 (AxiosRejects (new_Error "timeout")) 1200
         demo_pending) = Some (s2, out) /\
    await_result
      (settled_to demo_origin "http://nvr:5000/api"
         (AxiosRejects (new_Error "timeout"))) = Some out /\
    inFlight <$> cache s2 !! "cam1:ev1" = Some None /\
    (forall e,
       settled_to demo_origin "http://nvr:5000/api"
         (AxiosRejects (new_Error "timeout")) = Rejected e ->
       out = Throw e /\
       cache (axios_settles demo_origin 0 (AxiosRejects (new_Error "timeout"))
                1200 demo_pending) = cache demo_pending /\
       cache s2 !! "cam1:ev1" =
         Some (set_inFlight None (set_inFlight (Some 0%nat) empty_entry)) /\
       vodUrl <$> cache s2 !! "cam1:ev1" = Some None /\
       fetchedAt <$> cache s2 !! "cam1:ev1" = Some None).
Proof.
  apply (failure_leaves_cache_usable demo_origin demo_pending 0 "cam1:ev1"
           "http://nvr:5000/api" (set_inFlight (Some 0%nat) empty_entry)
           (AxiosRejects (new_Error "timeout")) 1200).
  - reflexivity.
  - vm_compute. reflexivity.
Defined.
End VodCacheFacts.

(** * Facts about strings *)

Module JsFacts.
Import Js.

Lemma includes_prefix x rest : includes x (x +:+ rest) = true.
Proof.
  assert (H : String.prefix x (x +:+ rest) = true).
  { induction x as [|c x IH]; simpl.
    - destruct rest; reflexivity.
    - destruct (ascii_dec c c); [exact IH|congruence]. }
  destruct (x +:+ rest); simpl in *; rewrite H; reflexivity.
Qed.

Lemma includes_app_r x a b : includes x b = true -> includes x (a +:+ b) = true.
Proof.
  intros H. induction a as [|c a IH]; simpl; [exact H|].
  rewrite IH. apply orb_true_r.
Qed.

Lemma append_empty_r x : x +:+ "" = x.
Proof.
  induction x as [|c x IH]; [reflexivity|].
  change (String c (x +:+ "") = String c x). f_equal. exact IH.
Qed.

Lemma append_assoc a b c : (a +:+ b) +:+ c = a +:+ (b +:+ c).
Proof.
  induction a as [|x a IH]; [reflexivity|].
  change (String x ((a +:+ b) +:+ c) = String x (a +:+ (b +:+ c))).
  f_equal. exact IH.
Qed.

Lemma includes_suffix x a : includes x (a +:+ x) = true.
Proof.
  apply includes_app_r. pose proof (includes_prefix x "") as H.
  rewrite append_empty_r in H. exact H.
Qed.

Lemma prefix_app_l x a b :
  String.prefix x a = true -> String.prefix x (a +:+ b) = true.
Proof.
  revert a. induction x as [|c x IH]; intros a H.
  - destruct (a +:+ b); reflexivity.
  - destruct a as [|d a]; [discriminate H|].
    change (String.prefix (String c x) (String d (a +:+ b)) = true).
    simpl in H |- *. destruct (ascii_dec c d); [|discriminate H].
    apply IH. exact H.
Qed.

Lemma includes_app_l x a b : includes x a = true -> includes x (a +:+ b) = true.
Proof.
  induction a as [|c a IH]; intros H.
  - simpl in H. rewrite orb_false_r in H.
    destruct x; [|discriminate H]. destruct b; reflexivity.
  - change (includes x (String c (a +:+ b)) = true).
    simpl in H |- *. apply orb_true_iff in H. destruct H as [H|H].
    + pose proof (prefix_app_l x (String c a) b H) as H'.
      change (String.prefix x (String c (a +:+ b)) = true) in H'.
      simpl in H'. rewrite H'. reflexivity.
    + rewrite (IH H). apply orb_true_r.
Qed.

Lemma includes_refl x : includes x x = true.
Proof.
  pose proof (includes_prefix x "") as H. rewrite append_empty_r in H. exact H.
Qed.

(** Find [x] among the pieces a string is appended from. *)
Ltac find_piece :=
  first [ apply includes_refl
        | apply includes_app_l; find_piece
        | apply includes_app_r; find_piece ].

End JsFacts.

(** * Properties of the probe normalizer *)

Module ProbeFacts.
Import Js JsFacts Probe.

(** A numeric [return_code] of [1] in the first entry is the failure
    signal. *)
Lemma failure_signal_of_code first rest :
  field first "return_code" = JNum 1 ->
  failure_signal (JArr (first :: rest)) = true.
Proof. intros H. unfold failure_signal. simpl. rewrite H. reflexivity. Qed.

(** C8. When the backend answers a probe with an array whose first entry
    has the number [1] as [return_code], the local probe of the same URL
    is run; if it fails too, the call throws an error whose message
    contains the local failure message and, when the entry has a
    non-blank [stderr] string, that text trimmed. *)
Theorem definitive_failure_falls_back (env : Env) (url : string)
    (first : Json) (rest : list Json) (log : list Effect) :
  api_ffprobe env url = Normal (JArr (first :: rest)) ->
  field first "return_code" = JNum 1 ->
  fst (ffprobeViaFrigate env url log) = log ++ [ApiProbe url; LocalProbe url] /\
  forall e local_message,
    ffprobeLocalJson env url = Throw e ->
    local_message = (if is_Error e then render (message e) else as_String e) ->
    exists msg,
      snd (ffprobeViaFrigate env url log) = Throw (new_Error msg) /\
      msg = "Frigate ffprobe failed (return_code=1) for " +:+ url +:+
            match frigateStderr first with
            | Some stderr => ": " +:+ stderr
            | None => ""
            end +:+ ". Local ffprobe fallback failed: " +:+ local_message /\
      includes local_message msg = true /\
      forall stderr,
        field first "stderr" = JStr stderr ->
        trim stderr <> "" ->
        includes (trim stderr) msg = true.
Proof.
  intros Hapi Hcode.
  pose proof (failure_signal_of_code first rest Hcode) as Hsig.
  unfold ffprobeViaFrigate, tell, modify, lift, try_catch, mbind, M_bind.
  rewrite Hapi, Hsig. simpl field.
  destruct (ffprobeLocalJson env url) as [local|e] eqn:Hlocal.
  - split; [|intros e' m' He'; discriminate He'].
    destruct (locate url local); simpl; [|rewrite <- app_assoc; reflexivity].
    destruct (summarize env url a); simpl; rewrite <- app_assoc; reflexivity.
  - split; [simpl; rewrite <- app_assoc; reflexivity|].
    intros e' m' [= <-] ->. eexists. split; [reflexivity|].
    split; [reflexivity|]. split.
    + apply includes_app_r, includes_app_r, includes_app_r, includes_suffix.
    + intros stderr Hs Hne. unfold frigateStderr. rewrite Hs.
      destruct (trim stderr) eqn:Ht; [congruence|]. simpl truthy_string. cbv iota.
      rewrite append_assoc.
      apply includes_app_r, includes_app_r, includes_app_r, includes_prefix.
Qed.

Lemma truthy_not_nullish v : truthy v = true -> isNullish v = false.
Proof. destruct v; simpl; congruence. Qed.

Lemma prop_defined v name : isNullish v = false -> prop v name = Normal (field v name).
Proof. intros H. unfold prop. rewrite H. reflexivity. Qed.

Lemma streams_or_format_spec x :
  isNullish x = false -> streams_or_format x = Normal (is_payload x).
Proof.
  intros H. unfold streams_or_format, is_payload, has.
  rewrite !(prop_defined x _ H). simpl.
  destruct (truthy (field x "streams")); reflexivity.
Qed.

Lemma return_stdout_spec x :
  return_stdout x =
    Normal (if wraps_stdout x then Some (field x "stdout") else None).
Proof.
  unfold return_stdout, wraps_stdout, has.
  destruct (truthy (field x "stdout")) eqn:Ht; [|reflexivity].
  rewrite (streams_or_format_spec _ (truthy_not_nullish _ Ht)). reflexivity.
Qed.

Lemma return_self_spec x :
  return_self x = Normal (if is_payload x then Some x else None).
Proof. reflexivity. Qed.

Lemma return_result_spec x :
  return_result x =
    Normal (if has x "result"
            then Some (nullish_or (field (field x "result") "stdout")
                                  (field x "result"))
            else None).
Proof.
  unfold return_result, has.
  destruct (truthy (field x "result")) eqn:Ht; [|reflexivity].
  rewrite (prop_defined _ _ (truthy_not_nullish _ Ht)). reflexivity.
Qed.

Lemma return_entry_total x : exists r, return_entry x = Normal r.
Proof.
  unfold return_entry, or_else.
  rewrite return_stdout_spec, return_self_spec, return_result_spec. simpl.
  destruct (wraps_stdout x); [eexists; reflexivity|].
  destruct (is_payload x); [eexists; reflexivity|].
  eexists; reflexivity.
Qed.

Lemma return_entry_none x : entry_shape x = false -> return_entry x = Normal None.
Proof.
  unfold entry_shape, return_entry, or_else. intros H.
  rewrite return_stdout_spec, return_self_spec, return_result_spec. simpl.
  destruct (wraps_stdout x); [discriminate|].
  destruct (is_payload x); [discriminate|].
  simpl in H. rewrite H. reflexivity.
Qed.

(** What a located payload is: the empty object the function falls back
    to, or a value that passed a truthiness test (or stands after [??]
    with one behind it), never [null] or [undefined]. *)
Lemma return_entry_defined x v :
  return_entry x = Normal (Some v) -> isNullish v = false.
Proof.
  unfold return_entry, or_else.
  rewrite return_stdout_spec, return_self_spec, return_result_spec. simpl.
  unfold wraps_stdout, has.
  destruct (truthy (field x "stdout")) eqn:Hs; simpl.
  - destruct (is_payload (field x "stdout")); simpl.
    + intros [= <-]. apply truthy_not_nullish, Hs.
    + destruct (is_payload x) eqn:Hp; simpl.
      * intros [= <-]. destruct x; try discriminate; reflexivity.
      * destruct (truthy (field x "result")) eqn:Hr; [|discriminate].
        intros [= <-]. unfold nullish_or.
        destruct (isNullish (field (field x "result") "stdout")) eqn:Hn;
          [apply truthy_not_nullish, Hr|exact Hn].
  - destruct (is_payload x) eqn:Hp; simpl.
    + intros [= <-]. destruct x; try discriminate; reflexivity.
    + destruct (truthy (field x "result")) eqn:Hr; [|discriminate].
      intros [= <-]. unfold nullish_or.
      destruct (isNullish (field (field x "result") "stdout")) eqn:Hn;
        [apply truthy_not_nullish, Hr|exact Hn].
Qed.

(** The last two blocks of [locate], on the entry keyed by the URL and
    on the first value, end without an exception. *)
Ltac close_entry_blocks url data :=
  destruct (typeof_object data); simpl; [|eexists; reflexivity];
  destruct (truthy (field data url)); simpl;
  [ let r := fresh "r" in
    destruct (return_entry_total (field data url)) as [r ->]; simpl;
    destruct r; [eexists; reflexivity|]
  | ];
  let r' := fresh "r" in
  destruct (return_entry_total (first_value data)) as [r' ->];
  eexists; reflexivity.

(** The block on [data.result] and the two after it. *)
Ltac close_result_blocks url data :=
  let Hr := fresh "Hr" in
  destruct (truthy (field data "result")) eqn:Hr;
  [ rewrite !(prop_defined _ _ (truthy_not_nullish _ Hr)); simpl;
    destruct (_ || _ || _); simpl; [eexists; reflexivity|]
  | simpl ];
  close_entry_blocks url data.

(** The payload is located without an exception, whatever the response. *)
Lemma locate_total url data : exists parsed, locate url data = Normal parsed.
Proof.
  unfold locate.
  destruct (truthy data) eqn:Ht; simpl; [|eexists; reflexivity].
  pose proof (truthy_not_nullish _ Ht) as Hn.
  unfold or_else.
  rewrite !(prop_defined data _ Hn), (streams_or_format_spec data Hn).
  assert (H1 : exists r,
    (if isArray data
     then first ← Normal (field data "0");
          r0 ← return_stdout first;
          match r0 with Some v => Normal (Some v) | None => return_self first end
     else Normal None) = Normal r).
  { destruct (isArray data); [|eexists; reflexivity]. simpl.
    rewrite return_stdout_spec, return_self_spec. simpl.
    destruct (wraps_stdout (field data "0")); eexists; reflexivity. }
  destruct H1 as [r1 ->]. simpl.
  destruct r1; [eexists; reflexivity|].
  destruct (truthy (field data "stdout")) eqn:Hs.
  - rewrite (streams_or_format_spec _ (truthy_not_nullish _ Hs)). simpl.
    destruct (is_payload (field data "stdout")); simpl; [eexists; reflexivity|].
    destruct (is_payload data); simpl; [eexists; reflexivity|].
    close_result_blocks url data.
  - simpl.
    destruct (is_payload data); simpl; [eexists; reflexivity|].
    close_result_blocks url data.
Qed.

(** A response of none of the listed shapes is located as the empty
    object. *)
Lemma locate_unrecognised url data :
  known_shape url data = false -> locate url data = Normal (JObj []).
Proof.
  unfold known_shape. intros H.
  repeat (apply orb_false_elim in H; destruct H as [H ?]).
  unfold locate.
  destruct (truthy data) eqn:Ht; simpl; [|reflexivity].
  pose proof (truthy_not_nullish _ Ht) as Hn.
  unfold or_else.
  rewrite !(prop_defined data _ Hn), (streams_or_format_spec data Hn).
  match goal with Hp : is_payload data = false |- _ => rewrite Hp end.
  assert (Hblock1 :
    (if isArray data
     then first ← Normal (field data "0");
          r0 ← return_stdout first;
          match r0 with Some v => Normal (Some v) | None => return_self first end
     else Normal None) = Normal None).
  { destruct (isArray data); [|reflexivity]. simpl in H |- *.
    apply orb_false_elim in H. destruct H as [Hw Hp].
    rewrite return_stdout_spec, return_self_spec, Hw. simpl. rewrite Hp.
    reflexivity. }
  rewrite Hblock1. simpl.
  assert (Hblock2 :
    (if truthy (field data "stdout")
     then b ← streams_or_format (field data "stdout");
          Normal (if b : bool then Some (field data "stdout") else None)
     else Normal None) = Normal None).
  { destruct (truthy (field data "stdout")) eqn:Hs; [|reflexivity].
    rewrite (streams_or_format_spec _ (truthy_not_nullish _ Hs)). simpl.
    match goal with Hw : wraps_stdout data = false |- _ =>
      unfold wraps_stdout, has in Hw; rewrite Hs in Hw; simpl in Hw; rewrite Hw
    end. reflexivity. }
  rewrite Hblock2. simpl.
  assert (Hblock3 :
    (if truthy (field data "result")
     then streams ← prop (field data "result") "streams";
          fmt ← prop (field data "result") "format";
          stdout ← prop (field data "result") "stdout";
          if truthy streams || truthy fmt || truthy stdout
          then Normal (Some (nullish_or stdout (field data "result")))
          else Normal None
     else Normal None) = Normal None).
  { destruct (truthy (field data "result")) eqn:Hr; [|reflexivity].
    rewrite !(prop_defined _ _ (truthy_not_nullish _ Hr)). simpl.
    match goal with Hw : wraps_result data = false |- _ =>
      unfold wraps_result, is_payload, has in Hw; rewrite Hr in Hw;
      simpl in Hw; rewrite Hw
    end. reflexivity. }
  rewrite Hblock3. simpl.
  destruct (typeof_object data); simpl; [|reflexivity].
  match goal with He : true && entry_shape (first_value data) = false |- _ =>
    simpl in He; rewrite (return_entry_none _ He)
  end.
  match goal with He : true && has data url && _ = false |- _ =>
    simpl in He; unfold has in He
  end.
  destruct (truthy (field data url)); simpl; [|reflexivity].
  match goal with He : true && entry_shape (field data url) = false |- _ =>
    simpl in He; rewrite (return_entry_none _ He)
  end.
  reflexivity.
Qed.

Lemma int_field_undefined : int_field JUndefined = None.
Proof. reflexivity. Qed.

Lemma float_field_undefined : float_field JUndefined = None.
Proof. reflexivity. Qed.

(** C9. A response that is none of the listed shapes and carries no
    failure signal is normalized without an exception, by the backend
    probe alone, to the summary whose format, video and audio fields are
    all absent (given that [toArray] turns a missing [streams] into the
    empty list and [parseFraction] a missing rate into no finite number). *)
Theorem unrecognised_shape_gives_empty_summary (env : Env) (url : string)
    (data : Json) (log : list Effect) :
  toArray env JUndefined = [] ->
  mjoin (parseFraction env JUndefined) = None ->
  api_ffprobe env url = Normal data ->
  failure_signal data = false ->
  known_shape url data = false ->
  ffprobeViaFrigate env url log =
    (log ++ [ApiProbe url], Normal (empty_summary url (protocol_of env url))).
Proof.
  intros Harr Hfrac Hapi Hsig Hshape.
  unfold ffprobeViaFrigate, tell, modify, lift, mbind, M_bind.
  rewrite Hapi, Hsig. simpl.
  rewrite (locate_unrecognised url data Hshape).
  unfold summarize. simpl. rewrite Harr. simpl.
  unfold empty_summary. repeat f_equal.
  destruct (parseFraction env JUndefined) as [n|]; simpl in *; assumption.
Qed.

Lemma definitive_failure_falls_back_witness :
  let env := fixed_env failed_answer (Throw (new_Error "spawn ffprobe ENOENT")) in
  fst (ffprobeViaFrigate env "rtsp://cam/live" []) =
    [ApiProbe "rtsp://cam/live"; LocalProbe "rtsp://cam/live"] /\
  exists msg,
    snd (ffprobeViaFrigate env "rtsp://cam/live" []) = Throw (new_Error msg) /\
    includes "spawn ffprobe ENOENT" msg = true /\
    includes "no such file" msg = true.
Proof.
  intros env.
  destruct (definitive_failure_falls_back env "rtsp://cam/live"
              (JObj [("return_code", JNum 1); ("stderr", JStr "no such file")])
              [] [] eq_refl eq_refl) as [Hlog Herr].
  split; [exact Hlog|].
  destruct (Herr (new_Error "spawn ffprobe ENOENT") "spawn ffprobe ENOENT"
              eq_refl eq_refl) as [msg [Hthrow [_ [Hlocal Hstderr]]]].
  exists msg. split; [exact Hthrow|]. split; [exact Hlocal|].
  apply (Hstderr "no such file" eq_refl). discriminate.
Defined.

Lemma unrecognised_shape_gives_empty_summary_witness :
  ffprobeViaFrigate (fixed_env odd_answer (Throw (new_Error "unused")))
    "rtsp://cam/live" [] =
  ([ApiProbe "rtsp://cam/live"],
   Normal (empty_summary "rtsp://cam/live" (Some "rtsp"))).
Proof.
  apply (unrecognised_shape_gives_empty_summary
           (fixed_env odd_answer (Throw (new_Error "unused")))
           "rtsp://cam/live" odd_answer []); reflexivity.
Defined.

(** The specification's example of a recognised shape:
    [{stdout: {streams: [{codec_type: "video", width: 1920, height: 1080}],
    format: {duration: "12.5"}}}]. *)
Lemma stdout_wrapped_example :
  snd (ffprobeViaFrigate
         (fixed_env
            (JObj [("stdout",
               JObj [("streams",
                        JArr [JObj [("codec_type", JStr "video");
                                    ("width", JNum 1920);
                                    ("height", JNum 1080)]]);
                     ("format", JObj [("duration", JStr "12.5")])])])
            (Throw (new_Error "unused")))
         "rtsp://cam/live" []) =
  Normal
    {| url := "rtsp://cam/live"; protocol := Some "rtsp";
       format := {| format_name := None; format_long_name := None;
                    duration := Some (25 # 2)%Q; format_bit_rate := None |};
       video := {| video_codec := None; width := Some 1920; height := Some 1080;
                   fps := None; pix_fmt := None; profile := None; level := None |};
       audio := {| audio_codec := None; channels := None; sample_rate := None;
                   audio_bit_rate := None |} |}.
Proof. vm_compute. reflexivity. Qed.

End ProbeFacts.

(** * Properties of stream discovery *)

Module DiscoveryFacts.
Import Js Discovery.

Lemma find_first_match {A} (f : A -> bool) before x after :
  Forall (fun y => f y = false) before -> f x = true ->
  List.find f (before ++ x :: after) = Some x.
Proof.
  intros Hb Hx. induction Hb as [|y before Hy _ IH]; simpl.
  - rewrite Hx. reflexivity.
  - rewrite Hy. exact IH.
Qed.

Lemma find_some_elem {A} (f : A -> bool) l x :
  List.find f l = Some x -> x ∈ l /\ f x = true.
Proof.
  intros H. apply List.find_some in H. destruct H as [Hin Hf].
  split; [apply list_elem_of_In; exact Hin|exact Hf].
Qed.

Lemma path_mentions_spec path g :
  path_mentions path g = true <->
  includes ("/" +:+ g) path = true \/ includes (":" +:+ g) path = true.
Proof. unfold path_mentions. apply orb_true_iff. Qed.

(** What the code does with an input. An input with a non-empty path
    gets a descriptor with [streamId] "stream_" and its 1-based position.
    It is
    classified as relayed exactly when its path contains, as a substring,
    a slash or a colon followed by some name of the relay registry; the
    first such name in registry order becomes [streamName] and the URL is
    the base relay URL, a slash and that name; when no name is contained
    that way the input is direct, keeps its path as URL and is named
    "Stream " and its position. *)
Theorem relayed_iff_path_mentions_name (cameraName : string) (now : Z)
    (baseGo2rtcUrl : option string) (go2rtcStreamNames : list string)
    (index : nat) (input : Input) (path : string) :
  input_path input = Some path ->
  truthy_string path = true ->
  exists d,
    describe_input cameraName now baseGo2rtcUrl go2rtcStreamNames index input
      = Some d /\
    streamId d = "stream_" +:+ pretty (index + 1)%nat /\
    (source d = go2rtc_source <->
     exists g, g ∈ go2rtcStreamNames /\
       (includes ("/" +:+ g) path = true \/ includes (":" +:+ g) path = true)) /\
    (forall before g after,
       go2rtcStreamNames = before ++ g :: after ->
       Forall (fun h => path_mentions path h = false) before ->
       path_mentions path g = true ->
       source d = go2rtc_source /\ streamName d = g /\
       url d = render baseGo2rtcUrl +:+ "/" +:+ g) /\
    ((forall g, g ∈ go2rtcStreamNames -> path_mentions path g = false) ->
       source d = input_source /\ url d = path /\
       streamName d = "Stream " +:+ pretty (index + 1)%nat).
Proof.
  intros Hpath Htruthy. unfold describe_input, truthy_setting.
  rewrite Hpath, Htruthy.
  destruct (List.find (path_mentions path) go2rtcStreamNames) as [g|] eqn:Hfind.
  - destruct (find_some_elem _ _ _ Hfind) as [Hin Hg].
    eexists. split; [reflexivity|]. split; [reflexivity|]. simpl.
    split; [|split].
    + split; [|reflexivity]. intros _. exists g. split; [exact Hin|].
      apply path_mentions_spec. exact Hg.
    + intros before g' after Hnames Hbefore Hg'.
      rewrite Hnames, (find_first_match _ before g' after Hbefore Hg') in Hfind.
      injection Hfind as <-. repeat split; reflexivity.
    + intros Hnone. rewrite (Hnone g Hin) in Hg. discriminate.
  - eexists. split; [reflexivity|]. split; [reflexivity|]. simpl.
    split; [|split].
    + split; [discriminate|]. intros [g [Hin Hg]].
      apply path_mentions_spec in Hg.
      apply list_elem_of_In in Hin.
      pose proof (List.find_none _ _ Hfind g Hin) as Hno. congruence.
    + intros before g' after Hnames Hbefore Hg'.
      rewrite Hnames, (find_first_match _ before g' after Hbefore Hg') in Hfind.
      discriminate.
    + intros _. repeat split; reflexivity.
Qed.

Lemma relayed_iff_path_mentions_name_witness :
  exists d,
    describe_input "front" 5000 (Some "rtsp://nvr:8554") ["front_main"; "front_sub"]
      1 (InputString "rtsp://127.0.0.1:8554/front_sub") = Some d /\
    streamId d = "stream_2" /\
    source d = go2rtc_source /\ streamName d = "front_sub" /\
    url d = "rtsp://nvr:8554/front_sub".
Proof.
  destruct (relayed_iff_path_mentions_name "front" 5000 (Some "rtsp://nvr:8554")
              ["front_main"; "front_sub"] 1
              (InputString "rtsp://127.0.0.1:8554/front_sub")
              "rtsp://127.0.0.1:8554/front_sub" eq_refl eq_refl)
    as [d [Hd [Hid [_ [Hfirst _]]]]].
  exists d. split; [exact Hd|]. split; [exact Hid|].
  apply (Hfirst ["front_main"] "front_sub" []); [reflexivity| |reflexivity].
  repeat constructor.
Defined.

(** A path that contains a registry name only as the beginning of a
    longer segment is classified as relayed. *)
Lemma relayed_without_segment_match :
  spec_relayed "rtsp://192.168.1.20/camera2" ["cam"] = false /\
  describe_input "yard" 5000 (Some "rtsp://nvr:8554") ["cam"] 0
    (InputString "rtsp://192.168.1.20/camera2") =
  Some {| cameraName := "yard"; streamName := "cam"; streamId := "stream_1";
          source := go2rtc_source; url := "rtsp://nvr:8554/cam";
          probedAt := 5000; ffprobe := None; error := None |}.
Proof. split; reflexivity. Qed.

(** C6. The code diverges from the claim. The registry holds the main
    stream of a camera and its sub stream, ["front"] and ["front_sub"],
    and the camera's second input is the relay's own address of the sub
    stream. Of the two names only ["front_sub"] is a segment of that
    path, so the claim has the input renamed to ["front_sub"] and its URL
    rewritten to the relay's ["front_sub"]. The code tests the names in
    registry order for a slash or a colon followed by the name anywhere
    in the path, and stops at ["front"]: the sub stream's descriptor gets
    the name and the URL of the main stream. With the registry in the
    other order the same input is named ["front_sub"]. *)
Theorem shorter_relay_name_shadows_longer :
  let path := "rtsp://127.0.0.1:8554/front_sub" in
  spec_segment_match path "front" = false /\
  spec_segment_match path "front_sub" = true /\
  describe_input "front" 5000 (Some "rtsp://nvr:8554") ["front"; "front_sub"] 1
    (InputString path) =
  Some {| cameraName := "front"; streamName := "front"; streamId := "stream_2";
          source := go2rtc_source; url := "rtsp://nvr:8554/front";
          probedAt := 5000; ffprobe := None; error := None |} /\
  describe_input "front" 5000 (Some "rtsp://nvr:8554") ["front_sub"; "front"] 1
    (InputString path) =
  Some {| cameraName := "front"; streamName := "front_sub";
          streamId := "stream_2";
          source := go2rtc_source; url := "rtsp://nvr:8554/front_sub";
          probedAt := 5000; ffprobe := None; error := None |}.
Proof.
  cbv zeta. split; [reflexivity|]. split; [reflexivity|].
  split; reflexivity.
Qed.

Lemma getConfigurationRawJson_frame env w w' r :
  getConfigurationRawJson env w = (w', r) ->
  storage w' = storage w /\
  exists services, effects w' = effects w ++ map Fetch services.
Proof.
  unfold getConfigurationRawJson, Date_now, baseFrigateApi, set_configRawJson,
    tell, modify, get, lift, mbind, mret, M_bind, M_ret.
  destruct (bool_decide _ && _).
  - intros [= <- <-]. split; [reflexivity|]. exists []. simpl.
    rewrite app_nil_r. reflexivity.
  - destruct (api_config_raw env) as [c|e]; intros [= <- <-]; simpl;
      (split; [reflexivity|]); exists ["config/raw"]; reflexivity.
Qed.

Lemma getConfiguration_frame env force w w' r :
  getConfiguration env force w = (w', r) ->
  storage w' = storage w /\
  exists services, effects w' = effects w ++ map Fetch services.
Proof.
  unfold getConfiguration, Date_now, baseFrigateApi, set_config,
    tell, modify, get, lift, mbind, mret, M_bind, M_ret.
  destruct (negb force && _ && _).
  - intros [= <- <-]. split; [reflexivity|]. exists []. simpl.
    rewrite app_nil_r. reflexivity.
  - destruct (api_config env) as [c|e]; intros [= <- <-]; simpl;
      (split; [reflexivity|]); exists ["config"]; reflexivity.
Qed.

Lemma configurations_frame env force w w' r :
  configurations env force w = (w', r) ->
  storage w' = storage w /\
  exists services, effects w' = effects w ++ map Fetch services.
Proof.
  unfold configurations. unfold mbind at 1. unfold M_bind.
  destruct (getConfigurationRawJson env w) as [w1 [raw|e]] eqn:Hraw.
  - apply getConfigurationRawJson_frame in Hraw. destruct Hraw as [Hs1 [l1 He1]].
    unfold mbind, M_bind.
    destruct (getConfiguration env force w1) as [w2 [config|e]] eqn:Hconfig;
      apply getConfiguration_frame in Hconfig; destruct Hconfig as [Hs2 [l2 He2]];
      intros [= <- <-]; (split; [congruence|]); exists (l1 ++ l2);
      rewrite He2, He1, map_app, app_assoc; reflexivity.
  - apply getConfigurationRawJson_frame in Hraw. intros [= <- <-]. exact Hraw.
Qed.

(** The raw configuration is served from the provider's copy for five
    minutes after it was fetched; [getConfigurationRawJson] takes no
    argument that would make it do otherwise. *)
Lemma raw_configuration_served_from_cache env w c t :
  configRawJson w = Some c ->
  lastConfigRawJsonFetch w = Some t ->
  time w < t + 1000 * 60 * 5 ->
  getConfigurationRawJson env w = (w, Normal (Some c)).
Proof.
  intros Hc Ht Hlt.
  unfold getConfigurationRawJson, Date_now, get, mbind, mret, M_bind, M_ret.
  simpl. rewrite Hc, Ht. simpl.
  apply Z.ltb_lt in Hlt. rewrite Hlt. reflexivity.
Qed.

(** With [force] the configuration is fetched, whatever the provider
    holds. *)
Lemma forced_configuration_is_fetched env w :
  exists w' r,
    getConfiguration env true w = (w', r) /\
    effects w' = effects w ++ [Fetch "config"].
Proof.
  unfold getConfiguration, Date_now, baseFrigateApi, set_config,
    tell, modify, get, lift, mbind, mret, M_bind, M_ret. simpl.
  destruct (api_config env); eexists _, _; split; reflexivity.
Qed.

(** C7, the code at a failing input. The provider fetched both
    configurations one second ago, when camera "front" had the input
    [.../old]; the backend now declares [.../new]. A forced discovery
    fetches [config] again but not [config/raw], and enumerates the
    inputs of the raw copy it holds: the descriptor is that of [.../old]. *)
Theorem forced_discovery_enumerates_cached_raw_inputs :
  let run :=
    discoverBestConfiguredStreamUrlsAndProbe
      (backend_with ["rtsp://192.168.1.10/new"]) "front" true (Some 2)
      (provider_after_fetch ["rtsp://192.168.1.10/old"]) in
  effects (fst run) =
    [Fetch "config"; Probed (Probe.ApiProbe "rtsp://192.168.1.10/old");
     RefreshSettings] /\
  storage (fst run) !! "detectedStream:stream_1:url" =
    Some (Text "rtsp://192.168.1.10/old") /\
  exists items,
    snd run = Normal items /\ map url items = ["rtsp://192.168.1.10/old"].
Proof.
  vm_compute. split; [reflexivity|]. split; [reflexivity|].
  eexists. split; reflexivity.
Qed.

(** C10. When neither the raw configuration nor the configuration gives
    the camera an [ffmpeg.inputs] list, discovery throws the [TypeError]
    of the call of [forEach] on [undefined]: it has made the
    configuration requests and nothing else, no probe is run and the
    storage, the stored descriptor list included, is as it was. *)
Theorem missing_inputs_throws (env : Env) (cameraName : string) (force : bool)
    (concurrency : option Z) (w w1 : World)
    (raw config : option FrigateConfig) :
  configurations env force w = (w1, Normal (raw, config)) ->
  configured_inputs raw config cameraName = None ->
  discoverBestConfiguredStreamUrlsAndProbe env cameraName force concurrency w =
    (w1, Throw (TypeError
       "Cannot read properties of undefined (reading 'forEach')")) /\
  storage w1 = storage w /\
  exists services, effects w1 = effects w ++ map Fetch services.
Proof.
  intros Hc Hin. split; [|exact (configurations_frame _ _ _ _ _ Hc)].
  unfold discoverBestConfiguredStreamUrlsAndProbe, Date_now.
  cbv beta delta [mbind M_bind get mret M_ret] iota.
  rewrite Hc, Hin. reflexivity.
Qed.

Lemma missing_inputs_throws_witness :
  exists w1,
    discoverBestConfiguredStreamUrlsAndProbe
      (backend_with ["rtsp://192.168.1.10/new"]) "back" false None fresh_provider =
      (w1, Throw (TypeError
         "Cannot read properties of undefined (reading 'forEach')")) /\
    storage w1 = ∅ /\
    exists services, effects w1 = [] ++ map Fetch services.
Proof.
  eexists.
  apply (missing_inputs_throws (backend_with ["rtsp://192.168.1.10/new"]) "back"
           false None fresh_provider _
           (Some (config_with "front" ["rtsp://192.168.1.10/new"]))
           (Some (config_with "front" ["rtsp://192.168.1.10/new"]))).
  - vm_compute. reflexivity.
  - vm_compute. reflexivity.
Defined.

End DiscoveryFacts.

(** * Properties of the streaming gateway *)

Module GatewayFacts.
Import Js JsFacts Gateway.

Ltac run_M :=
  cbv beta delta [mbind M_bind mret M_ret lift tell send modify get try_catch
                  stream] iota.

(** The outer handler caught [e]: it throws on a nullish value and sends
    one answer otherwise. *)
Ltac outer_handler e :=
  unfold read_message; destruct (nullish e);
  [exists []; rewrite app_nil_r; repeat split; reflexivity
  |eexists [_]; repeat split; reflexivity].

(** The segment branch of [dispatch] leaves the resolution cache alone
    and does not call [getVodUrlForEvent]. *)
Lemma dispatch_segment env url dev deviceId eventId w :
  toLowerCase (default "" (searchParams_get (searchParams url) "hls")) = "seg" ->
  exists made r,
    dispatch env url dev (Some "videoclip") deviceId eventId w =
      ({| vod := vod w; effects := effects w ++ made |}, r) /\
    forallb (fun e => negb (is_resolution e)) made = true.
Proof.
  intros Hseg. unfold dispatch. rewrite Hseg. simpl. run_M.
  destruct (getVideoclipUrls dev eventId) as [[videoUrl thumbnailUrl]|e].
  - destruct (streamVideoclipFromUrl env _); eexists [_], _; split; reflexivity.
  - exists [], (Throw e). rewrite app_nil_r. destruct w; split; reflexivity.
Qed.

(** C4. A videoclip request whose [hls] parameter is "seg" in any
    letter case never calls [getVodUrlForEvent]: none of the calls it
    makes is that one, and the resolution cache, its promises and the
    list of upstream event requests are as they were when the request
    came in. When the device is known and its calls succeed, the request
    is streamed straight from the device's [videoUrl], with no [vodUrl]. *)
Theorem segment_request_skips_resolution (env : Env) (request_url : string)
    (url : Url) (w : World) :
  URL_parse env ("http://localhost" +:+ request_url) = Some url ->
  split "/" (pathname url) !! 5%nat = Some "videoclip" ->
  toLowerCase (default "" (searchParams_get (searchParams url) "hls")) = "seg" ->
  (exists made,
     vod (fst (onRequest env request_url w)) = vod w /\
     effects (fst (onRequest env request_url w)) = effects w ++ made /\
     forallb (fun e => negb (is_resolution e)) made = true) /\
  forall device event mixins dev videoUrl thumbnailUrl,
    searchParams_get (searchParams url) "deviceId" = Some device ->
    searchParams_get (searchParams url) "eventId" = Some event ->
    truthy_string device = true ->
    truthy_string event = true ->
    currentMixinsMap env = Some mixins ->
    mixins device = Some dev ->
    getLogger dev = Normal tt ->
    debug dev = Normal tt ->
    getVideoclipUrls dev event = Normal (videoUrl, thumbnailUrl) ->
    exists answer,
      effects (fst (onRequest env request_url w)) =
        effects w ++
        StreamVideoclip
          {| requestUrl := url; stream_videoUrl := videoUrl;
             stream_vodUrl := None; stream_videoclipMode := videoclipMode dev;
             stream_deviceId := device; stream_eventId := event |} :: answer.
Proof.
  intros Hurl Hhook Hseg. split.
  - unfold onRequest. rewrite Hurl, Hhook.
    destruct (searchParams_get (searchParams url) "deviceId") as [device|];
      [|eexists [_]; repeat split; reflexivity].
    destruct (searchParams_get (searchParams url) "eventId") as [event|];
      [|eexists [_]; repeat split; reflexivity].
    destruct (truthy_string device && truthy_string event);
      [|eexists [_]; repeat split; reflexivity].
    run_M.
    destruct (currentMixinsMap env) as [mixins|];
      [|eexists [_]; repeat split; reflexivity].
    destruct (mixins device) as [dev|];
      [|eexists [_]; repeat split; reflexivity].
    destruct (getLogger dev) as [[]|e]; [|outer_handler e].
    destruct (debug dev) as [[]|e]; [|outer_handler e].
    destruct (dispatch_segment env url dev device event w Hseg)
      as [made [r [-> Hmade]]].
    destruct r as [[]|e]; simpl.
    + exists made. split; [reflexivity|]. split; [reflexivity|exact Hmade].
    + eexists (made ++ [_]).
      split; [reflexivity|]. split; [rewrite app_assoc; reflexivity|].
      rewrite forallb_app, Hmade. reflexivity.
    + unfold read_message. destruct (nullish e); simpl;
        eexists (made ++ [_]);
        (split; [reflexivity|]); (split; [rewrite app_assoc; reflexivity|]);
        rewrite forallb_app, Hmade; reflexivity.
  - intros device event mixins dev videoUrl thumbnailUrl
      Hdev Hev Htd Hte Hmap Hmix Hlog Hdbg Hurls.
    unfold onRequest. rewrite Hurl, Hhook, Hdev, Hev, Htd, Hte. simpl.
    run_M. rewrite Hmap, Hmix, Hlog, Hdbg.
    unfold dispatch. rewrite Hseg, Hurls. simpl. run_M.
    destruct (streamVideoclipFromUrl env _) as [[]|e];
      [|unfold read_message; destruct (nullish e)]; eexists; simpl;
      rewrite <- ?app_assoc; reflexivity.
Qed.

Lemma segment_request_skips_resolution_witness :
  let env := demo_env (demo_url "videoclip" [("hls", "SEG")]) demo_mixin (Normal "") in
  (exists made,
     vod (fst (onRequest env "/clip" idle)) = VodCache.empty_store /\
     effects (fst (onRequest env "/clip" idle)) = [] ++ made /\
     forallb (fun e => negb (is_resolution e)) made = true) /\
  exists answer,
    effects (fst (onRequest env "/clip" idle)) =
      [] ++
      StreamVideoclip
        {| requestUrl := demo_url "videoclip" [("hls", "SEG")];
           stream_videoUrl := "http://nvr:5000/api/events/ev1/clip.mp4";
           stream_vodUrl := None; stream_videoclipMode := None;
           stream_deviceId := "12"; stream_eventId := "ev1" |} :: answer.
Proof.
  intros env.
  destruct (segment_request_skips_resolution env "/clip"
              (demo_url "videoclip" [("hls", "SEG")]) idle
              eq_refl eq_refl eq_refl) as [Hvod Hstream].
  split; [exact Hvod|].
  apply (Hstream "12" "ev1"
           (fun id => if String.eqb id "12" then Some demo_mixin else None)
           demo_mixin _ "http://nvr:5000/api/events/ev1/thumbnail.jpg");
    reflexivity.
Defined.

(** The body of the 500 answer holds the error message, the two request
    identifiers and the request URL, each as a JSON string. *)
Lemma error_body_names_request e m device event request_url :
  message e = Some m ->
  let text := "Error in data parsing for webhook: " +:+
    JSON_object [("error", or_undefined (message e)); ("deviceId", inl device);
                 ("eventId", inl event); ("url", inl request_url)] in
  includes (JSON_string m) text = true /\
  includes (JSON_string device) text = true /\
  includes (JSON_string event) text = true /\
  includes (JSON_string request_url) text = true.
Proof.
  intros Hm. rewrite Hm.
  cbv beta delta [JSON_object join omap list_omap JSON_member or_undefined
                  fold_left] iota zeta.
  repeat split; find_piece.
Qed.


(** What the two handlers make of a caught [null] or [undefined]: the
    read of [e.message] throws a [TypeError]. Thrown inside the handling
    of the webhook, the value is answered by the outer handler, with
    status 500 and that [TypeError]'s message; thrown before it, by
    [getLogger] or by the debug line, it makes [onRequest] itself throw,
    and no answer is sent. *)
Lemma nullish_exception_escapes_handler (env : Env) (request_url : string)
    (url : Url) (device event : string) (mixins : string -> option Mixin)
    (dev : Mixin) (w : World) :
  URL_parse env ("http://localhost" +:+ request_url) = Some url ->
  searchParams_get (searchParams url) "deviceId" = Some device ->
  searchParams_get (searchParams url) "eventId" = Some event ->
  truthy_string device = true ->
  truthy_string event = true ->
  currentMixinsMap env = Some mixins ->
  mixins device = Some dev ->
  (forall w' e,
     getLogger dev = Normal tt -> debug dev = Normal tt ->
     dispatch env url dev (split "/" (pathname url) !! 5%nat) device event w
       = (w', Throw e) ->
     nullish e = true ->
     onRequest env request_url w =
       ({| vod := vod w';
           effects := effects w' ++
             [Send {| body := "Error in data parsing for webhook: " +:+
                        JSON_object
                          [("error",
                            inl ("Cannot read properties of " +:+ as_String e +:+
                                 " (reading 'message')"));
                           ("deviceId", inl device);
                           ("eventId", inl event);
                           ("url", inl request_url)];
                      code := Some 500; content_type := None |}] |},
        Normal tt)) /\
  (forall e,
     getLogger dev = Throw e \/ (getLogger dev = Normal tt /\ debug dev = Throw e) ->
     nullish e = true ->
     onRequest env request_url w =
       (w, Throw (TypeError ("Cannot read properties of " +:+ as_String e +:+
                             " (reading 'message')")))).
Proof.
  intros Hurl Hdev Hev Htd Hte Hmap Hmix. split.
  - intros w' e Hlog Hdbg Hdisp Hnull.
    unfold onRequest. rewrite Hurl, Hdev, Hev, Htd, Hte. simpl.
    run_M. rewrite Hmap, Hmix, Hlog, Hdbg, Hdisp.
    unfold read_message. rewrite Hnull. reflexivity.
  - intros e [Hlog|[Hlog Hdbg]] Hnull;
      unfold onRequest; rewrite Hurl, Hdev, Hev, Htd, Hte; simpl;
      run_M; rewrite Hmap, Hmix, Hlog, ?Hdbg;
      unfold read_message; rewrite Hnull; reflexivity.
Qed.



(** For contrast with the segment request: the same request without the
    [hls] parameter fetches the event once and streams with the manifest
    URL. *)
Lemma manifest_request_resolves :
  let w := fst (onRequest
                  (demo_env (demo_url "videoclip" []) demo_mixin (Normal ""))
                  "/clip" idle) in
  VodCache.upstream (vod w) = ["http://nvr:5000/api/events/ev1"] /\
  effects w =
    [ResolveVodUrl {| VodCache.cacheKey := "12:ev1";
                      VodCache.serverUrl := "http://nvr:5000/api";
                      VodCache.eventId := "ev1" |};
     StreamVideoclip
       {| requestUrl := demo_url "videoclip" [];
          stream_videoUrl := "http://nvr:5000/api/events/ev1/clip.mp4";
          stream_vodUrl :=
            Some "http://nvr:5000/vod/porch/start/100.5/end/130.25/index.m3u8";
          stream_videoclipMode := None;
          stream_deviceId := "12"; stream_eventId := "ev1" |}].
Proof. vm_compute. split; reflexivity. Qed.

End GatewayFacts.

(** * Further properties of the resolution cache *)

Module VodCacheMore.
Import VodCache VodCacheFacts.

Section More.

Variable URL_origin : string -> option string.

(** X1: a turn changes no entry but the one of its key. *)
Theorem turn_leaves_other_keys (t : Turn) (s : Store) (k : string) :
  turn_key t s <> Some k ->
  cache (turn URL_origin t s) !! k = cache s !! k.
Proof.
  intros Hk. destruct t as [now o|p r now|key p]; simpl in *.
  - unfold getVodUrlForEvent.
    destruct (fresh now (cache s !! cacheKey o)); [reflexivity|].
    destruct (inFlight (default empty_entry (cache s !! cacheKey o))); simpl;
      apply lookup_insert_ne; congruence.
  - unfold axios_settles.
    destruct (promises s !! p) as [[k' sv []]|]; try reflexivity.
    destruct r as [e|[ev|]]; try reflexivity;
      destruct (URL_origin sv); try reflexivity.
    simpl. apply lookup_alter_ne. simpl in Hk. congruence.
  - unfold resume.
    destruct (promises s !! p) as [j|]; [|reflexivity].
    destruct (await_result (job_state j)); [|reflexivity].
    simpl. apply lookup_alter_ne. congruence.
Qed.

(** The turn left the entry [e] of key [k] as it was, and it is not the
    successful settlement of a pending request of [k]. *)
Ltac unchanged He Hp :=
  match type of He with
  | _ = Some ?e =>
      exists e; split; [exact He|];
      split;
      [ let Hj := fresh "Hj" in
        let Hst := fresh "Hst" in
        let Hk := fresh "Hk" in
        let Hu := fresh "Hu" in
        intros ? ? ? ? ? [= <- <- <-] Hj Hst Hk Hu;
        rewrite Hp in Hj;
        first
          [ discriminate Hj
          | injection Hj as <-; simpl in Hst, Hk, Hu;
            first [ congruence
                  | match goal with
                    | Ho : URL_origin _ = _ |- _ =>
                        rewrite Ho in Hu; discriminate Hu
                    end ] ]
      | intros _; split; reflexivity ]
  end.

(** X2: no turn removes an entry. The settlement of a pending request
    that was made for key [k] and that succeeds writes its manifest URL
    and the time of the settlement into the entry of [k]. Every other
    turn leaves the manifest URL and the timestamp of that entry as they
    were: a call, a resumption, and also a settlement that fails, that
    belongs to another key, or that finds no pending request. *)
Theorem turn_keeps_entries (t : Turn) (s : Store) (k : string)
    (e : VodUrlCacheEntry) :
  cache s !! k = Some e ->
  exists e',
    cache (turn URL_origin t s) !! k = Some e' /\
    (forall p r now j u,
       t = SettleTurn p r now -> promises s !! p = Some j ->
       job_state j = Pending -> job_key j = k ->
       settled_to URL_origin (job_serverUrl j) r = Fulfilled u ->
       vodUrl e' = Some u /\ fetchedAt e' = Some now) /\
    ((forall p r now j u,
        t = SettleTurn p r now -> promises s !! p = Some j ->
        job_state j = Pending -> job_key j = k ->
        settled_to URL_origin (job_serverUrl j) r <> Fulfilled u) ->
     vodUrl e' = vodUrl e /\ fetchedAt e' = fetchedAt e).
Proof.
  intros He. destruct t as [now o|p r now|key p]; simpl.
  - assert (Hkept : exists e',
              cache (getVodUrlForEvent now o s).1 !! k = Some e' /\
              vodUrl e' = vodUrl e /\ fetchedAt e' = fetchedAt e).
    { unfold getVodUrlForEvent.
      destruct (fresh now (cache s !! cacheKey o)); [eauto|].
      destruct (decide (cacheKey o = k)) as [->|Hne].
      - rewrite He. simpl.
        destruct (inFlight e); simpl; rewrite lookup_insert_eq;
          eexists; split; try reflexivity; split; reflexivity.
      - destruct (inFlight (default empty_entry (cache s !! cacheKey o))); simpl;
          rewrite lookup_insert_ne by exact Hne; eauto. }
    destruct Hkept as (e' & He' & Hsame). exists e'. split; [exact He'|].
    split; [discriminate|]. intros _. exact Hsame.
  - unfold axios_settles.
    destruct (promises s !! p) as [[k' sv st]|] eqn:Hp; [|unchanged He Hp].
    destruct st; [|unchanged He Hp|unchanged He Hp].
    destruct r as [e0|[ev|]]; simpl; [unchanged He Hp| |].
    + destruct (URL_origin sv) as [o|] eqn:Ho; simpl; [|unchanged He Hp].
      rewrite lookup_alter. case_decide as Hkk; [|unchanged He Hp].
      subst k'. rewrite He. simpl. eexists. split; [reflexivity|]. split.
      * intros p0 r0 now0 j u [= <- <- <-] Hj _ _ Hu.
        rewrite Hp in Hj. injection Hj as <-. simpl in Hu.
        rewrite Ho in Hu. injection Hu as <-. split; reflexivity.
      * intros Hno. exfalso.
        eapply (Hno p _ now _ _ eq_refl Hp eq_refl eq_refl).
        simpl. rewrite Ho. reflexivity.
    + destruct (URL_origin sv) as [o|] eqn:Ho; simpl; unchanged He Hp.
  - assert (Hkept : exists e',
              cache match resume key p s with
                    | Some (s', _) => s'
                    | None => s
                    end !! k = Some e' /\
              vodUrl e' = vodUrl e /\ fetchedAt e' = fetchedAt e).
    { unfold resume.
      destruct (promises s !! p) as [j|]; [|eauto].
      destruct (await_result (job_state j)); [|eauto]. simpl.
      rewrite lookup_alter. case_decide as Hkk; [subst|eauto].
      rewrite He. simpl. eexists. split; [reflexivity|]. split; reflexivity. }
    destruct Hkept as (e' & He' & Hsame). exists e'. split; [exact He'|].
    split; [discriminate|]. intros _. exact Hsame.
Qed.

(** X3: a turn sends a request upstream exactly when it is a call that
    finds nothing fresh and nothing in flight for its key, and then it
    sends one, to the event URL of the call. Every other call, every
    settlement and every resumption leaves the list of event requests as
    it is. *)
Theorem turn_upstream (t : Turn) (s : Store) :
  upstream (turn URL_origin t s) =
  upstream s ++
  match t with
  | CallTurn now options =>
      match fresh now (cache s !! cacheKey options),
            inFlight (default empty_entry (cache s !! cacheKey options)) with
      | None, None => [serverUrl options +:+ "/events/" +:+ eventId options]
      | _, _ => []
      end
  | SettleTurn _ _ _ => []
  | ResumeTurn _ _ => []
  end.
Proof.
  destruct t as [now o|p r now|key p]; simpl.
  - unfold getVodUrlForEvent.
    destruct (fresh now (cache s !! cacheKey o));
      [rewrite app_nil_r; reflexivity|].
    destruct (inFlight (default empty_entry (cache s !! cacheKey o)));
      [rewrite app_nil_r; reflexivity|reflexivity].
  - rewrite app_nil_r. apply axios_settles_upstream.
  - rewrite app_nil_r. unfold resume.
    destruct (promises s !! p) as [j|]; [|reflexivity].
    destruct (await_result (job_state j)); reflexivity.
Qed.

(** X4: a manifest URL resolved by a call that found nothing fresh and
    nothing in flight is served from the cache to every call for the same
    key that starts less than five minutes after the answer came: such a
    call returns the same URL, leaves the store as it is, and the only
    upstream request made is the first call's. *)
Theorem resolved_url_is_reused (s s1 : Store) (now later now2 : Z)
    (r : AxiosOutcome) (options again : Options) (u : string) :
  fresh now (cache s !! cacheKey options) = None ->
  inFlight (default empty_entry (cache s !! cacheKey options)) = None ->
  later <> 0 ->
  now2 - later < VOD_URL_CACHE_TTL_MS ->
  cacheKey again = cacheKey options ->
  getVodUrlForEvent_alone URL_origin now later r options s = (s1, Normal u) ->
  getVodUrlForEvent now2 again s1 = (s1, Returned u) /\
  upstream s1 =
    upstream s ++ [serverUrl options +:+ "/events/" +:+ eventId options].
Proof.
  intros Hf Hin Hlater Hage Hkey Halone.
  unfold getVodUrlForEvent_alone in Halone.
  rewrite (start_computation now options s Hf Hin) in Halone.
  set (p := length (promises s)) in *.
  set (entry := default empty_entry (cache s !! cacheKey options)) in *.
  set (job := {| job_key := cacheKey options; job_serverUrl := serverUrl options;
                 job_state := Pending |}) in *.
  set (s0 := {| cache := <[cacheKey options := set_inFlight (Some p) entry]> (cache s);
                promises := promises s ++ [job];
                upstream := upstream s ++
                  [serverUrl options +:+ "/events/" +:+ eventId options] |}) in *.
  assert (Hp : promises s0 !! p = Some job)
    by (simpl; apply list_lookup_middle; reflexivity).
  destruct (await_settled URL_origin (serverUrl options) r) as [out Hout].
  rewrite (resume_settled (cacheKey options) p _ _ out
             (axios_settles_promise URL_origin p r later s0 _ _ Hp) Hout) in Halone.
  injection Halone as <- ->.
  assert (Hst : settled_to URL_origin (serverUrl options) r = Fulfilled u).
  { destruct (settled_to URL_origin (serverUrl options) r); simpl in Hout;
      congruence. }
  assert (Hentry : cache (axios_settles URL_origin p r later s0) !! cacheKey options
                   = Some (set_vodUrl u later (set_inFlight (Some p) entry))).
  { unfold settled_to in Hst.
    destruct r as [e|ev]; [discriminate|].
    destruct (URL_origin (serverUrl options)) as [o|] eqn:Ho; [|discriminate].
    destruct ev as [ev|]; [|discriminate]. injection Hst as <-.
    unfold axios_settles. rewrite Hp. unfold job, s0. simpl. rewrite Ho. simpl.
    rewrite lookup_alter, decide_True by reflexivity.
    rewrite lookup_insert_eq. reflexivity. }
  assert (Htruthy : truthy_string u = true).
  { unfold settled_to in Hst. destruct r as [e|ev]; [discriminate|].
    destruct (URL_origin (serverUrl options)) as [o|]; [|discriminate].
    destruct ev as [ev|]; [|discriminate]. injection Hst as <-.
    apply manifest_url_truthy. }
  split.
  - unfold getVodUrlForEvent. simpl. rewrite Hkey.
    rewrite lookup_alter, decide_True by reflexivity. rewrite Hentry. simpl.
    rewrite Htruthy.
    replace (later =? 0) with false by (symmetry; apply Z.eqb_neq; exact Hlater).
    replace (now2 - later <? VOD_URL_CACHE_TTL_MS) with true
      by (symmetry; apply Z.ltb_lt; exact Hage).
    reflexivity.
  - simpl. rewrite axios_settles_upstream. reflexivity.
Qed.

End More.

Lemma turn_leaves_other_keys_witness :
  cache (turn demo_origin (CallTurn 1000 demo_options) empty_store) !! "cam2:ev9"
    = cache empty_store !! "cam2:ev9".
Proof.
  apply (turn_leaves_other_keys demo_origin (CallTurn 1000 demo_options)
           empty_store "cam2:ev9").
  simpl. discriminate.
Defined.

Lemma turn_keeps_entries_witness :
  exists e',
    cache (turn demo_origin (SettleTurn 0 (AxiosData (Some demo_event)) 1200)
             demo_pending) !! "cam1:ev1" = Some e' /\
    (forall p r now j u,
       SettleTurn 0 (AxiosData (Some demo_event)) 1200 = SettleTurn p r now ->
       promises demo_pending !! p = Some j ->
       job_state j = Pending -> job_key j = "cam1:ev1" ->
       settled_to demo_origin (job_serverUrl j) r = Fulfilled u ->
       vodUrl e' = Some u /\ fetchedAt e' = Some now) /\
    ((forall p r now j u,
        SettleTurn 0 (AxiosData (Some demo_event)) 1200 = SettleTurn p r now ->
        promises demo_pending !! p = Some j ->
        job_state j = Pending -> job_key j = "cam1:ev1" ->
        settled_to demo_origin (job_serverUrl j) r <> Fulfilled u) ->
     vodUrl e' = None /\ fetchedAt e' = None).
Proof.
  apply (turn_keeps_entries demo_origin
           (SettleTurn 0 (AxiosData (Some demo_event)) 1200)
           demo_pending "cam1:ev1"
           {| vodUrl := None; fetchedAt := None; inFlight := Some 0%nat |}).
  vm_compute. reflexivity.
Defined.

(** The settlement of the witness writes the URL and its time; had the
    request failed, the entry would be as the call left it. *)
Lemma settlement_writes_or_keeps :
  cache (turn demo_origin (SettleTurn 0 (AxiosData (Some demo_event)) 1200)
           demo_pending) !! "cam1:ev1" =
    Some {| vodUrl :=
              Some "http://nvr:5000/vod/porch/start/100.5/end/130.25/index.m3u8";
            fetchedAt := Some 1200; inFlight := Some 0%nat |} /\
  cache (turn demo_origin (SettleTurn 0 (AxiosRejects (new_Error "down")) 1200)
           demo_pending) !! "cam1:ev1" =
    Some {| vodUrl := None; fetchedAt := None; inFlight := Some 0%nat |}.
Proof. split; vm_compute; reflexivity. Qed.

Lemma resolved_url_is_reused_witness :
  getVodUrlForEvent 300000 demo_options demo_cached =
    (demo_cached,
     Returned "http://nvr:5000/vod/porch/start/100.5/end/130.25/index.m3u8") /\
  upstream demo_cached = [] ++ ["http://nvr:5000/api/events/ev1"].
Proof.
  apply (resolved_url_is_reused demo_origin empty_store demo_cached 1000 1200
           300000 (AxiosData (Some demo_event)) demo_options demo_options
           "http://nvr:5000/vod/porch/start/100.5/end/130.25/index.m3u8");
    try reflexivity; try discriminate.
Defined.

End VodCacheMore.

(** * Further properties of the streaming gateway *)

Module GatewayMore.
Import Js JsFacts Gateway GatewayFacts.



(** X6: with both identifiers present, a [deviceId] that has no mixin is
    answered with status 404 and nothing else happens; while the
    videoclips device does not exist yet the request is answered with
    status 500 by the outer handler. *)
Theorem unknown_device_answers_404 (env : Env) (request_url : string)
    (url : Url) (device event : string) (w : World) :
  URL_parse env ("http://localhost" +:+ request_url) = Some url ->
  searchParams_get (searchParams url) "deviceId" = Some device ->
  searchParams_get (searchParams url) "eventId" = Some event ->
  truthy_string device = true ->
  truthy_string event = true ->
  (forall mixins,
     currentMixinsMap env = Some mixins -> mixins device = None ->
     onRequest env request_url w =
       ({| vod := vod w;
           effects := effects w ++
             [Send {| body := "Device not found for deviceId: " +:+ device;
                      code := Some 404; content_type := None |}] |},
        Normal tt)) /\
  (currentMixinsMap env = None ->
   exists text,
     onRequest env request_url w =
       ({| vod := vod w;
           effects := effects w ++
             [Send {| body := text; code := Some 500; content_type := None |}] |},
        Normal tt)).
Proof.
  intros Hurl Hdev Hev Htd Hte. split.
  - intros mixins Hmap Hnone. unfold onRequest.
    rewrite Hurl, Hdev, Hev, Htd, Hte. simpl. run_M.
    rewrite Hmap, Hnone. reflexivity.
  - intros Hmap. unfold onRequest.
    rewrite Hurl, Hdev, Hev, Htd, Hte. simpl. run_M.
    rewrite Hmap. eexists. reflexivity.
Qed.

Lemma unknown_device_answers_404_witness :
  onRequest
    (demo_env {| pathname := "/endpoint/@scrypted/frigate-bridge/public/videoclip";
                 searchParams := [("deviceId", "77"); ("eventId", "ev1")] |}
       demo_mixin (Normal ""))
    "/clip" idle =
  ({| vod := VodCache.empty_store;
      effects := [] ++
        [Send {| body := "Device not found for deviceId: " +:+ "77";
                 code := Some 404; content_type := None |}] |},
   Normal tt).
Proof.
  apply (proj1 (unknown_device_answers_404
           (demo_env {| pathname := "/endpoint/@scrypted/frigate-bridge/public/videoclip";
                        searchParams := [("deviceId", "77"); ("eventId", "ev1")] |}
              demo_mixin (Normal ""))
           "/clip"
           {| pathname := "/endpoint/@scrypted/frigate-bridge/public/videoclip";
              searchParams := [("deviceId", "77"); ("eventId", "ev1")] |}
           "77" "ev1" idle eq_refl eq_refl eq_refl eq_refl eq_refl)
         (fun id => if String.eqb id "12" then Some demo_mixin else None));
    reflexivity.
Defined.

(** X7: with the device known, a path whose sixth segment is neither
    "videoclip" nor "thumbnail" (or that has fewer segments) is answered
    with status 404 naming the path; nothing is fetched or streamed. *)
Theorem unknown_webhook_answers_404 (env : Env) (request_url : string)
    (url : Url) (device event : string) (mixins : string -> option Mixin)
    (dev : Mixin) (w : World) :
  URL_parse env ("http://localhost" +:+ request_url) = Some url ->
  searchParams_get (searchParams url) "deviceId" = Some device ->
  searchParams_get (searchParams url) "eventId" = Some event ->
  truthy_string device = true ->
  truthy_string event = true ->
  currentMixinsMap env = Some mixins ->
  mixins device = Some dev ->
  getLogger dev = Normal tt ->
  debug dev = Normal tt ->
  split "/" (pathname url) !! 5%nat <> Some "videoclip" ->
  split "/" (pathname url) !! 5%nat <> Some "thumbnail" ->
  onRequest env request_url w =
    ({| vod := vod w;
        effects := effects w ++
          [Send {| body := "Webhook not found: " +:+ pathname url;
                   code := Some 404; content_type := None |}] |},
     Normal tt).
Proof.
  intros Hurl Hdev Hev Htd Hte Hmap Hmix Hlog Hdbg Hclip Hthumb.
  unfold onRequest. rewrite Hurl, Hdev, Hev, Htd, Hte. simpl. run_M.
  rewrite Hmap, Hmix, Hlog, Hdbg. unfold dispatch.
  rewrite !bool_decide_eq_false_2 by assumption. run_M.
  destruct w; reflexivity.
Qed.

Lemma unknown_webhook_answers_404_witness :
  onRequest (demo_env (demo_url "snapshot" []) demo_mixin (Normal "")) "/s" idle =
  ({| vod := VodCache.empty_store;
      effects := [] ++
        [Send {| body := "Webhook not found: " +:+
                   "/endpoint/@scrypted/frigate-bridge/public/snapshot";
                 code := Some 404; content_type := None |}] |},
   Normal tt).
Proof.
  apply (unknown_webhook_answers_404
           (demo_env (demo_url "snapshot" []) demo_mixin (Normal "")) "/s"
           (demo_url "snapshot" []) "12" "ev1"
           (fun id => if String.eqb id "12" then Some demo_mixin else None)
           demo_mixin idle);
    try reflexivity; vm_compute; discriminate.
Defined.

(** X8: a thumbnail request for a known device fetches the device's
    thumbnail URL and sends the bytes received as they are, with content
    type image/jpeg and no status code of its own; the resolution cache
    is not touched. *)
Theorem thumbnail_is_sent_verbatim (env : Env) (request_url : string)
    (url : Url) (device event : string) (mixins : string -> option Mixin)
    (dev : Mixin) (videoUrl thumbnailUrl jpeg : string) (w : World) :
  URL_parse env ("http://localhost" +:+ request_url) = Some url ->
  searchParams_get (searchParams url) "deviceId" = Some device ->
  searchParams_get (searchParams url) "eventId" = Some event ->
  truthy_string device = true ->
  truthy_string event = true ->
  currentMixinsMap env = Some mixins ->
  mixins device = Some dev ->
  getLogger dev = Normal tt ->
  debug dev = Normal tt ->
  split "/" (pathname url) !! 5%nat = Some "thumbnail" ->
  getVideoclipUrls dev event = Normal (videoUrl, thumbnailUrl) ->
  axios_get env thumbnailUrl = Normal jpeg ->
  onRequest env request_url w =
    ({| vod := vod w;
        effects := effects w ++
          [AxiosGet thumbnailUrl;
           Send {| body := jpeg; code := None;
                   content_type := Some "image/jpeg" |}] |},
     Normal tt).
Proof.
  intros Hurl Hdev Hev Htd Hte Hmap Hmix Hlog Hdbg Hhook Hurls Hget.
  unfold onRequest. rewrite Hurl, Hdev, Hev, Htd, Hte. simpl. run_M.
  rewrite Hmap, Hmix, Hlog, Hdbg. unfold dispatch. rewrite Hhook. simpl.
  run_M. rewrite Hurls. simpl. rewrite Hget. simpl.
  rewrite <- app_assoc. reflexivity.
Qed.

Lemma thumbnail_is_sent_verbatim_witness :
  onRequest (demo_env (demo_url "thumbnail" []) demo_mixin (Normal "JFIF"))
    "/t" idle =
  ({| vod := VodCache.empty_store;
      effects := [] ++
        [AxiosGet "http://nvr:5000/api/events/ev1/thumbnail.jpg";
         Send {| body := "JFIF"; code := None;
                 content_type := Some "image/jpeg" |}] |},
   Normal tt).
Proof.
  apply (thumbnail_is_sent_verbatim
           (demo_env (demo_url "thumbnail" []) demo_mixin (Normal "JFIF")) "/t"
           (demo_url "thumbnail" []) "12" "ev1"
           (fun id => if String.eqb id "12" then Some demo_mixin else None)
           demo_mixin "http://nvr:5000/api/events/ev1/clip.mp4"
           "http://nvr:5000/api/events/ev1/thumbnail.jpg" "JFIF" idle);
    reflexivity.
Defined.

(** X9: a videoclip request that is not a segment request resolves the
    manifest URL under the key [deviceId:eventId] against the server
    setting, then streams with both the device's [videoUrl] and the
    resolved URL. A failure of the streaming is swallowed: no response is
    sent for it and the request completes. A failure of the resolution is
    answered with status 400 and nothing is streamed; when what the
    resolution throws is [null] or [undefined], the answer comes from the
    outer handler instead, with status 500. *)
Theorem manifest_request_resolves_then_streams (env : Env) (request_url : string)
    (url : Url) (device event : string) (mixins : string -> option Mixin)
    (dev : Mixin) (videoUrl thumbnailUrl : string) (w : World) :
  URL_parse env ("http://localhost" +:+ request_url) = Some url ->
  searchParams_get (searchParams url) "deviceId" = Some device ->
  searchParams_get (searchParams url) "eventId" = Some event ->
  truthy_string device = true ->
  truthy_string event = true ->
  currentMixinsMap env = Some mixins ->
  mixins device = Some dev ->
  getLogger dev = Normal tt ->
  debug dev = Normal tt ->
  split "/" (pathname url) !! 5%nat = Some "videoclip" ->
  toLowerCase (default "" (searchParams_get (searchParams url) "hls")) <> "seg" ->
  getVideoclipUrls dev event = Normal (videoUrl, thumbnailUrl) ->
  let options :=
    {| VodCache.cacheKey := device +:+ ":" +:+ event;
       VodCache.serverUrl := serverUrl env;
       VodCache.eventId := event |} in
  let resolution :=
    VodCache.getVodUrlForEvent_alone (URL_origin env) (now env) (later env)
      (events_api env (serverUrl env +:+ "/events/" +:+ event))
      options (vod w) in
  onRequest env request_url w =
    ({| vod := fst resolution;
        effects := effects w ++
          [ResolveVodUrl options;
           match snd resolution with
           | Normal vodUrl =>
               StreamVideoclip
                 {| requestUrl := url; stream_videoUrl := videoUrl;
                    stream_vodUrl := Some vodUrl;
                    stream_videoclipMode := videoclipMode dev;
                    stream_deviceId := device; stream_eventId := event |}
           | Throw e =>
               if nullish e
               then
                 Send {| body := "Error in data parsing for webhook: " +:+
                           JSON_object
                             [("error",
                               inl ("Cannot read properties of " +:+
                                    as_String e +:+ " (reading 'message')"));
                              ("deviceId", inl device);
                              ("eventId", inl event);
                              ("url", inl request_url)];
                         code := Some 500; content_type := None |}
               else
                 Send {| body := as_JSON e +:+ ", " +:+ render (message e);
                         code := Some 400; content_type := None |}
           end] |},
     Normal tt).
Proof.
  intros Hurl Hdev Hev Htd Hte Hmap Hmix Hlog Hdbg Hhook Hseg Hurls
    options resolution.
  unfold onRequest. rewrite Hurl, Hdev, Hev, Htd, Hte. simpl. run_M.
  rewrite Hmap, Hmix, Hlog, Hdbg. unfold dispatch. rewrite Hhook. simpl.
  run_M. rewrite Hurls. simpl.
  apply String.eqb_neq in Hseg. rewrite Hseg.
  unfold getVodUrlForEvent. simpl. fold options. fold resolution.
  destruct resolution as [s1 [vodUrl|e]]; simpl.
  - destruct (streamVideoclipFromUrl env _); simpl;
      rewrite <- app_assoc; reflexivity.
  - unfold read_message. destruct (nullish e); simpl;
      rewrite <- app_assoc; reflexivity.
Qed.

Lemma manifest_request_resolves_then_streams_witness :
  let env := demo_env (demo_url "videoclip" []) demo_mixin (Normal "") in
  exists s1,
    onRequest env "/clip" idle =
      ({| vod := s1;
          effects :=
            [ResolveVodUrl {| VodCache.cacheKey := "12:ev1";
                              VodCache.serverUrl := "http://nvr:5000/api";
                              VodCache.eventId := "ev1" |};
             StreamVideoclip
               {| requestUrl := demo_url "videoclip" [];
                  stream_videoUrl := "http://nvr:5000/api/events/ev1/clip.mp4";
                  stream_vodUrl :=
                    Some "http://nvr:5000/vod/porch/start/100.5/end/130.25/index.m3u8";
                  stream_videoclipMode := None;
                  stream_deviceId := "12"; stream_eventId := "ev1" |}] |},
       Normal tt).
Proof.
  intros env. eexists.
  rewrite (manifest_request_resolves_then_streams env "/clip"
             (demo_url "videoclip" []) "12" "ev1"
             (fun id => if String.eqb id "12" then Some demo_mixin else None)
             demo_mixin "http://nvr:5000/api/events/ev1/clip.mp4"
             "http://nvr:5000/api/events/ev1/thumbnail.jpg" idle
             eq_refl eq_refl eq_refl eq_refl eq_refl eq_refl eq_refl eq_refl
             eq_refl eq_refl).
  - vm_compute. reflexivity.
  - vm_compute. discriminate.
  - reflexivity.
Defined.

(** What the handling of a webhook does before it ends: it sends at most
    one response, and none when it throws or falls through. *)
Lemma dispatch_sends env url dev webhook device event w :
  exists s made r,
    dispatch env url dev webhook device event w =
      ({| vod := s; effects := effects w ++ made |}, r) /\
    match r with
    | Normal true => (length (filter is_send made) <= 1)%nat
    | _ => filter is_send made = []
    end.
Proof.
  destruct w as [v0 made0]. unfold dispatch. case_bool_decide as Hclip.
  - run_M. destruct (getVideoclipUrls dev event) as [[videoUrl thumbnailUrl]|e].
    + simpl. destruct (String.eqb _ "seg").
      * destruct (streamVideoclipFromUrl env _); simpl;
          eexists _, [_], _; (split; [reflexivity|]); simpl; auto.
      * unfold getVodUrlForEvent.
        destruct (VodCache.getVodUrlForEvent_alone _ _ _ _ _ _) as [s1 [u|e]];
          simpl.
        -- destruct (streamVideoclipFromUrl env _); simpl;
             eexists _, [_; _], _;
             (split; [rewrite <- app_assoc; reflexivity|]); simpl; auto.
        -- eexists _, [_], _. split; [reflexivity|]. reflexivity.
    + eexists _, [], _. split; [simpl; rewrite app_nil_r; reflexivity|].
      reflexivity.
  - case_bool_decide as Hthumb.
    + run_M. destruct (getVideoclipUrls dev event) as [[videoUrl thumbnailUrl]|e].
      * simpl. destruct (axios_get env thumbnailUrl); simpl.
        -- eexists _, [_; _], _.
           split; [rewrite <- app_assoc; reflexivity|]. simpl. auto.
        -- eexists _, [_], _. split; [reflexivity|]. reflexivity.
      * eexists _, [], _. split; [simpl; rewrite app_nil_r; reflexivity|].
        reflexivity.
    + run_M. eexists _, [], _.
      split; [simpl; rewrite app_nil_r; reflexivity|]. reflexivity.
Qed.

(** X10: once its URL is parsed, [onRequest] calls [response.send] at
    most once, whatever the device, the backend and the streaming do. It
    throws in one case only: the device's [getLogger] or its debug line
    threw [null] or [undefined], which the outer handler cannot read a
    message of; nothing has been sent then, and nothing else was done. *)
Theorem request_answers_at_most_once (env : Env) (request_url : string)
    (url : Url) (w : World) :
  URL_parse env ("http://localhost" +:+ request_url) = Some url ->
  exists s made r,
    onRequest env request_url w =
      ({| vod := s; effects := effects w ++ made |}, r) /\
    (length (filter is_send made) <= 1)%nat /\
    (forall thrown, r = Throw thrown ->
       made = [] /\ s = vod w /\
       exists device mixins dev e,
         searchParams_get (searchParams url) "deviceId" = Some device /\
         currentMixinsMap env = Some mixins /\
         mixins device = Some dev /\
         (getLogger dev = Throw e \/
          (getLogger dev = Normal tt /\ debug dev = Throw e)) /\
         nullish e = true).
Proof.
  intros Hurl. unfold onRequest. rewrite Hurl.
  destruct (searchParams_get (searchParams url) "deviceId") as [device|];
    [|eexists _, [_], _; split; [reflexivity|split; [simpl; auto|discriminate]]].
  destruct (searchParams_get (searchParams url) "eventId") as [event|];
    [|eexists _, [_], _; split; [reflexivity|split; [simpl; auto|discriminate]]].
  destruct (truthy_string device && truthy_string event);
    [|eexists _, [_], _; split; [reflexivity|split; [simpl; auto|discriminate]]].
  run_M.
  destruct (currentMixinsMap env) as [mixins|] eqn:Hmap;
    [|eexists _, [_], _; split; [reflexivity|split; [simpl; auto|discriminate]]].
  destruct (mixins device) as [dev|] eqn:Hmix;
    [|eexists _, [_], _; split; [reflexivity|split; [simpl; auto|discriminate]]].
  destruct (getLogger dev) as [[]|e] eqn:Hlog.
  2:{ unfold read_message. destruct (nullish e) eqn:Hnull.
      - exists (vod w), [], (Throw (TypeError ("Cannot read properties of " +:+
                                as_String e +:+ " (reading 'message')"))).
        split; [rewrite app_nil_r; destruct w; reflexivity|].
        split; [simpl; auto|]. intros thrown _.
        split; [reflexivity|]. split; [reflexivity|].
        exists device, mixins, dev, e. repeat split; auto.
      - eexists _, [_], _.
        split; [reflexivity|split; [simpl; auto|discriminate]]. }
  destruct (debug dev) as [[]|e] eqn:Hdbg.
  2:{ unfold read_message. destruct (nullish e) eqn:Hnull.
      - exists (vod w), [], (Throw (TypeError ("Cannot read properties of " +:+
                                as_String e +:+ " (reading 'message')"))).
        split; [rewrite app_nil_r; destruct w; reflexivity|].
        split; [simpl; auto|]. intros thrown _.
        split; [reflexivity|]. split; [reflexivity|].
        exists device, mixins, dev, e. repeat split; auto.
      - eexists _, [_], _.
        split; [reflexivity|split; [simpl; auto|discriminate]]. }
  destruct (dispatch_sends env url dev (split "/" (pathname url) !! 5%nat)
              device event w) as [s [made [r [-> Hmade]]]].
  destruct r as [[]|e]; simpl.
  - exists s, made, (Normal tt).
    split; [reflexivity|]. split; [exact Hmade|discriminate].
  - eexists s, (made ++ [_]), (Normal tt).
    split; [rewrite app_assoc; reflexivity|].
    split; [rewrite filter_app, Hmade; simpl; auto|discriminate].
  - unfold read_message. destruct (nullish e); simpl;
      eexists s, (made ++ [_]), (Normal tt);
      (split; [rewrite app_assoc; reflexivity|]);
      (split; [rewrite filter_app, Hmade; simpl; auto|discriminate]).
Qed.

Lemma request_answers_at_most_once_witness :
  let env := demo_env (demo_url "videoclip" []) failing_mixin (Normal "") in
  exists s made r,
    onRequest env "/clip" idle = ({| vod := s; effects := [] ++ made |}, r) /\
    (length (filter is_send made) <= 1)%nat /\
    (forall thrown, r = Throw thrown ->
       made = [] /\ s = VodCache.empty_store /\
       exists device mixins dev e,
         searchParams_get (searchParams (demo_url "videoclip" [])) "deviceId" =
           Some device /\
         currentMixinsMap env = Some mixins /\
         mixins device = Some dev /\
         (getLogger dev = Throw e \/
          (getLogger dev = Normal tt /\ debug dev = Throw e)) /\
         nullish e = true).
Proof.
  apply (request_answers_at_most_once
           (demo_env (demo_url "videoclip" []) failing_mixin (Normal ""))
           "/clip" (demo_url "videoclip" []) idle eq_refl).
Defined.

(** The request of the witness does throw, and sends nothing. *)
Lemma undefined_from_getLogger_escapes :
  onRequest (demo_env (demo_url "videoclip" []) failing_mixin (Normal ""))
    "/clip" idle =
  (idle, Throw (TypeError
     "Cannot read properties of undefined (reading 'message')")).
Proof. reflexivity. Qed.

End GatewayMore.

(** * Further properties of the probe normalizer *)

Module ProbeMore.
Import Js JsFacts Probe ProbeFacts.

(** [locate] always returns, and never a nullish value. *)
Lemma locate_defined (url : string) (data : Json) :
  exists parsed, locate url data = Normal parsed /\ isNullish parsed = false.
Proof.
  destruct (locate_total url data) as [parsed Hparsed].
  exists parsed. split; [exact Hparsed|].
  revert Hparsed. unfold locate.
  destruct (truthy data) eqn:Ht; simpl; [|intros [= <-]; reflexivity].
  pose proof (truthy_not_nullish _ Ht) as Hn.
  unfold or_else.
  rewrite !(prop_defined data _ Hn), (streams_or_format_spec data Hn).
  assert (Hdata : forall v, Some data = Some v -> isNullish v = false)
    by (intros v [= <-]; exact Hn).
  assert (H1 : exists r,
    (if isArray data
     then first ← Normal (field data "0");
          r0 ← return_stdout first;
          match r0 with Some v => Normal (Some v) | None => return_self first end
     else Normal None) = Normal r /\
    forall v, r = Some v -> isNullish v = false).
  { destruct (isArray data); [|eexists; split; [reflexivity|discriminate]]. simpl.
    rewrite return_stdout_spec, return_self_spec. simpl.
    unfold wraps_stdout, has.
    destruct (truthy (field (field data "0") "stdout")) eqn:Hs; simpl.
    - destruct (is_payload (field (field data "0") "stdout")); simpl.
      + eexists; split; [reflexivity|]. intros v [= <-].
        apply truthy_not_nullish, Hs.
      + destruct (is_payload (field data "0")) eqn:Hp;
          eexists; (split; [reflexivity|]); [|discriminate].
        intros v [= <-]. destruct (field data "0"); try discriminate; reflexivity.
    - destruct (is_payload (field data "0")) eqn:Hp;
        eexists; (split; [reflexivity|]); [|discriminate].
      intros v [= <-]. destruct (field data "0"); try discriminate; reflexivity. }
  destruct H1 as [r1 [-> Hr1]]. simpl.
  destruct r1 as [v1|]; [intros [= <-]; apply Hr1; reflexivity|].
  assert (H2 : exists r,
    (if truthy (field data "stdout")
     then b ← streams_or_format (field data "stdout");
          Normal (if b : bool then Some (field data "stdout") else None)
     else Normal None) = Normal r /\
    forall v, r = Some v -> isNullish v = false).
  { destruct (truthy (field data "stdout")) eqn:Hs;
      [|eexists; split; [reflexivity|discriminate]].
    rewrite (streams_or_format_spec _ (truthy_not_nullish _ Hs)). simpl.
    destruct (is_payload (field data "stdout"));
      eexists; (split; [reflexivity|]); [|discriminate].
    intros v [= <-]. apply truthy_not_nullish, Hs. }
  destruct H2 as [r2 [-> Hr2]]. simpl.
  destruct r2 as [v2|]; [intros [= <-]; apply Hr2; reflexivity|].
  destruct (is_payload data); simpl; [intros [= <-]; exact Hn|].
  assert (H3 : exists r,
    (if truthy (field data "result")
     then streams ← prop (field data "result") "streams";
          fmt ← prop (field data "result") "format";
          stdout ← prop (field data "result") "stdout";
          if truthy streams || truthy fmt || truthy stdout
          then Normal (Some (nullish_or stdout (field data "result")))
          else Normal None
     else Normal None) = Normal r /\
    forall v, r = Some v -> isNullish v = false).
  { destruct (truthy (field data "result")) eqn:Hr;
      [|eexists; split; [reflexivity|discriminate]].
    rewrite !(prop_defined _ _ (truthy_not_nullish _ Hr)). simpl.
    destruct (_ || _ || _); eexists; (split; [reflexivity|]); [|discriminate].
    intros v [= <-]. unfold nullish_or.
    destruct (isNullish (field (field data "result") "stdout")) eqn:Hnn;
      [apply truthy_not_nullish, Hr|exact Hnn]. }
  destruct H3 as [r3 [-> Hr3]]. simpl.
  destruct r3 as [v3|]; [intros [= <-]; apply Hr3; reflexivity|].
  destruct (typeof_object data); simpl; [|intros [= <-]; reflexivity].
  destruct (truthy (field data url)); simpl.
  - destruct (return_entry (field data url)) as [[v4|]|e] eqn:H4; simpl;
      [intros [= <-]; exact (return_entry_defined _ _ H4)| |discriminate].
    destruct (return_entry (first_value data)) as [[v5|]|e] eqn:H5; simpl;
      [intros [= <-]; exact (return_entry_defined _ _ H5)
      |intros [= <-]; reflexivity|discriminate].
  - destruct (return_entry (first_value data)) as [[v5|]|e] eqn:H5; simpl;
      [intros [= <-]; exact (return_entry_defined _ _ H5)
      |intros [= <-]; reflexivity|discriminate].
Qed.

(** X11: the payload is located without an exception whatever the backend
    answered, and what is located is never [null] or [undefined]: the
    property reads the summary makes on it cannot throw. *)
Theorem located_payload_is_defined (url : string) (data : Json) :
  exists parsed, locate url data = Normal parsed /\ isNullish parsed = false.
Proof.
  destruct (locate_defined url data) as (parsed & Hparsed & Hdefined).
  exists parsed. split; [exact Hparsed|exact Hdefined].
Qed.

Lemma find_records (f : Json -> Completion bool) (l : list Json) :
  (forall x, x ∈ l -> exists b, f x = Normal b) ->
  exists v, find f l = Normal v /\ (v = JUndefined \/ v ∈ l).
Proof.
  induction l as [|x l IH]; intros Hf; simpl.
  - exists JUndefined. split; [reflexivity|left; reflexivity].
  - destruct (Hf x) as [b Hb]; [left|]. rewrite Hb. simpl. destruct b.
    + exists x. split; [reflexivity|right; left].
    + destruct IH as [v [Hv Hin]].
      * intros y Hy. apply Hf. right. exact Hy.
      * exists v. split; [exact Hv|]. destruct Hin as [->|Hin];
          [left; reflexivity|right; right; exact Hin].
Qed.

Lemma is_video_record x : is_record x = true -> exists b, is_video x = Normal b.
Proof.
  destruct x; try discriminate. intros _. unfold is_video. simpl.
  destruct (is_string _ "video"); [eexists; reflexivity|].
  destruct (typeof_number _); eexists; reflexivity.
Qed.

Lemma is_audio_record x : is_record x = true -> exists b, is_audio x = Normal b.
Proof.
  destruct x; try discriminate. intros _. unfold is_audio. simpl.
  destruct (is_string _ "audio"); [eexists; reflexivity|].
  destruct (bool_decide _); simpl; eexists; reflexivity.
Qed.

(** X12: when the backend answers without a failure signal and every stream
    entry of the located payload is an object, the probe returns a
    summary: it runs the backend probe only and does not throw. *)
Theorem probe_succeeds_on_object_streams (env : Env) (url : string)
    (data parsed : Json) (log : list Effect) :
  api_ffprobe env url = Normal data ->
  failure_signal data = false ->
  locate url data = Normal parsed ->
  Forall (fun s => is_record s = true) (toArray env (field parsed "streams")) ->
  exists summary,
    ffprobeViaFrigate env url log = (log ++ [ApiProbe url], Normal summary) /\
    Probe.url summary = url /\
    protocol summary = protocol_of env url.
Proof.
  intros Hapi Hsig Hloc Hrecords.
  destruct (locate_defined url data) as [parsed' [Hloc' Hdef]].
  rewrite Hloc in Hloc'. injection Hloc' as <-.
  unfold ffprobeViaFrigate, tell, modify, lift, mbind, M_bind.
  rewrite Hapi, Hsig. simpl. rewrite Hloc.
  unfold summarize. rewrite !(prop_defined parsed _ Hdef). simpl.
  rewrite Forall_forall in Hrecords.
  destruct (find_records is_video (toArray env (field parsed "streams")))
    as [video [-> _]].
  { intros x Hx. apply is_video_record, Hrecords, Hx. }
  destruct (find_records is_audio (toArray env (field parsed "streams")))
    as [audio [-> _]].
  { intros x Hx. apply is_audio_record, Hrecords, Hx. }
  simpl. eexists. split; [reflexivity|]. split; reflexivity.
Qed.

Lemma probe_succeeds_on_object_streams_witness :
  exists summary,
    ffprobeViaFrigate
      (fixed_env
         (JObj [("streams", JArr [JObj [("codec_type", JStr "video")]])])
         (Throw (new_Error "unused")))
      "rtsp://cam/live" [] = ([] ++ [ApiProbe "rtsp://cam/live"], Normal summary) /\
    Probe.url summary = "rtsp://cam/live" /\
    protocol summary =
      protocol_of (fixed_env
         (JObj [("streams", JArr [JObj [("codec_type", JStr "video")]])])
         (Throw (new_Error "unused"))) "rtsp://cam/live".
Proof.
  apply (probe_succeeds_on_object_streams
           (fixed_env
              (JObj [("streams", JArr [JObj [("codec_type", JStr "video")]])])
              (Throw (new_Error "unused")))
           "rtsp://cam/live"
           (JObj [("streams", JArr [JObj [("codec_type", JStr "video")]])])
           (JObj [("streams", JArr [JObj [("codec_type", JStr "video")]])]) []);
    try reflexivity.
  repeat constructor.
Defined.

(** X13: a stream entry that is [null] or [undefined] at the head of the list
    makes the probe throw a [TypeError], although the envelope was
    recognised: the callbacks of [find] read a property of each entry
    without a guard. *)
Theorem nullish_stream_entry_throws (env : Env) (url : string)
    (data parsed entry : Json) (others : list Json) (log : list Effect) :
  api_ffprobe env url = Normal data ->
  failure_signal data = false ->
  locate url data = Normal parsed ->
  toArray env (field parsed "streams") = entry :: others ->
  isNullish entry = true ->
  exists e,
    ffprobeViaFrigate env url log = (log ++ [ApiProbe url], Throw e) /\
    is_Error e = true.
Proof.
  intros Hapi Hsig Hloc Hstreams Hnull.
  destruct (locate_defined url data) as [parsed' [Hloc' Hdef]].
  rewrite Hloc in Hloc'. injection Hloc' as <-.
  unfold ffprobeViaFrigate, tell, modify, lift, mbind, M_bind.
  rewrite Hapi, Hsig. simpl. rewrite Hloc.
  unfold summarize. rewrite !(prop_defined parsed _ Hdef). simpl.
  rewrite Hstreams. simpl. unfold is_video, prop. rewrite Hnull. simpl.
  eexists. split; reflexivity.
Qed.

Lemma nullish_stream_entry_throws_witness :
  exists e,
    ffprobeViaFrigate
      (fixed_env (JObj [("streams", JArr [JNull])]) (Throw (new_Error "unused")))
      "rtsp://cam/live" [] = ([] ++ [ApiProbe "rtsp://cam/live"], Throw e) /\
    is_Error e = true.
Proof.
  apply (nullish_stream_entry_throws
           (fixed_env (JObj [("streams", JArr [JNull])]) (Throw (new_Error "unused")))
           "rtsp://cam/live" (JObj [("streams", JArr [JNull])])
           (JObj [("streams", JArr [JNull])]) JNull [] []);
    reflexivity.
Defined.

(** X14: the local probe is run exactly when the backend answered with the
    failure signal: not when the backend request itself fails (its error
    is thrown on as it is), and not for any other answer. *)
Theorem local_probe_only_on_failure_signal (env : Env) (url : string)
    (log : list Effect) :
  (forall e, api_ffprobe env url = Throw e ->
     ffprobeViaFrigate env url log = (log ++ [ApiProbe url], Throw e)) /\
  (forall data, api_ffprobe env url = Normal data ->
     fst (ffprobeViaFrigate env url log) =
       log ++ ApiProbe url ::
         (if failure_signal data then [LocalProbe url] else [])).
Proof.
  split.
  - intros e Hapi.
    unfold ffprobeViaFrigate, tell, modify, lift, mbind, M_bind.
    rewrite Hapi. reflexivity.
  - intros data Hapi.
    unfold ffprobeViaFrigate, tell, modify, lift, try_catch, mbind, M_bind.
    rewrite Hapi. simpl.
    destruct (failure_signal data); simpl.
    + destruct (ffprobeLocalJson env url) as [local|e]; simpl;
        [|rewrite <- app_assoc; reflexivity].
      destruct (locate url local) as [parsed|e]; simpl;
        [|rewrite <- app_assoc; reflexivity].
      destruct (summarize env url parsed); simpl; rewrite <- app_assoc; reflexivity.
    + destruct (locate url data) as [parsed|e]; simpl; [|reflexivity].
      destruct (summarize env url parsed); reflexivity.
Qed.

(** X15: of the numeric return codes, [1] alone is the failure signal. *)
Theorem only_code_one_signals_failure (first : Json) (rest : list Json) (n : Z) :
  field first "return_code" = JNum n ->
  (failure_signal (JArr (first :: rest)) = true <-> n = 1).
Proof.
  intros Hcode. unfold failure_signal. simpl. rewrite Hcode. simpl.
  unfold finite.
  destruct (Qle_bool (inject_Z overflow_bound) (Qabs (inject_Z n))) eqn:Hbig.
  - split; [discriminate|]. intros ->. vm_compute in Hbig. discriminate.
  - rewrite Qeq_bool_iff, Qred_correct. unfold Qeq. simpl. lia.
Qed.

Lemma only_code_one_signals_failure_witness :
  failure_signal (JArr [JObj [("return_code", JNum 2)]]) = true <-> 2 = 1.
Proof.
  apply (only_code_one_signals_failure (JObj [("return_code", JNum 2)]) [] 2).
  reflexivity.
Defined.

Lemma scheme_tail_spec s rest :
  all_scheme_chars s = true -> scheme_tail (s +:+ ":" +:+ rest) = Some s.
Proof.
  induction s as [|c s IH]; intros H.
  - reflexivity.
  - change (scheme_tail (String c (s +:+ ":" +:+ rest)) = Some (String c s)).
    simpl in H |- *. apply andb_true_iff in H. destruct H as [Hc Hs].
    rewrite Hc, (IH Hs). reflexivity.
Qed.

Lemma strip_final_colon_spec s : strip_final_colon (s +:+ ":") = s.
Proof.
  induction s as [|c s IH]; [reflexivity|].
  change (strip_final_colon (String c (s +:+ ":")) = String c s).
  simpl. rewrite IH.
  destruct (s +:+ ":") eqn:Hs.
  - destruct s; discriminate Hs.
  - destruct c as [[] [] [] [] [] [] [] []]; reflexivity.
Qed.

Lemma scheme_tail_inv s t :
  scheme_tail s = Some t ->
  all_scheme_chars t = true /\ exists rest, s = t +:+ ":" +:+ rest.
Proof.
  revert t. induction s as [|c s IH]; intros t H; [discriminate|].
  simpl in H. destruct (is_scheme_char c) eqn:Hc.
  - destruct (scheme_tail s) as [t'|]; [|discriminate].
    injection H as <-. destruct (IH t' eq_refl) as [Ht' [rest ->]].
    split; [simpl; rewrite Hc; exact Ht'|]. exists rest. reflexivity.
  - destruct (Ascii.eqb c ":") eqn:Hcolon; [|discriminate].
    injection H as <-. apply Ascii.eqb_eq in Hcolon. subst c.
    split; [reflexivity|]. exists s. reflexivity.
Qed.

(** The regular expression of line 277 finds [s] exactly when the string
    starts with the scheme [s] and a colon. *)
Lemma match_scheme_spec url s :
  match_scheme url = Some s <->
  is_scheme s = true /\ exists rest, url = s +:+ ":" +:+ rest.
Proof.
  split.
  - destruct url as [|c r]; [discriminate|]. simpl.
    destruct (is_alpha c) eqn:Hc; [|discriminate].
    destruct (scheme_tail r) as [t|] eqn:Ht; [|discriminate].
    intros [= <-]. destruct (scheme_tail_inv r t Ht) as [Hall [rest ->]].
    split; [simpl; rewrite Hc; exact Hall|]. exists rest. reflexivity.
  - intros [Hs [rest ->]]. destruct s as [|c s]; [discriminate|].
    change (match_scheme (String c (s +:+ ":" +:+ rest)) = Some (String c s)).
    simpl in Hs |- *. apply andb_true_iff in Hs. destruct Hs as [Hc Hs].
    rewrite Hc, (scheme_tail_spec s rest Hs). reflexivity.
Qed.

(** X16: when the [URL] constructor parses the URL, the protocol of the
    summary is the protocol that the [URL] object reports, without its
    final colon, whatever the string looks like. When the constructor
    throws, the protocol is read off the string: it is [s] exactly when
    the string starts with [s] and a colon and [s] is a scheme (a letter
    followed by letters, digits, plus, dot or minus signs), and there is
    none when the string does not start that way. *)
Theorem protocol_is_scheme (env : Env) (url : string) :
  (forall q, URL_protocol env url = Some (q +:+ ":") ->
             protocol_of env url = Some q) /\
  (URL_protocol env url = None ->
   forall s, protocol_of env url = Some s <->
             is_scheme s = true /\ exists rest, url = s +:+ ":" +:+ rest).
Proof.
  split.
  - intros q Hq. unfold protocol_of. rewrite Hq, strip_final_colon_spec.
    destruct q; reflexivity.
  - intros Hnone s. unfold protocol_of. rewrite Hnone.
    apply match_scheme_spec.
Qed.

(** A constructor that lower-cases the scheme decides the protocol of an
    upper-case URL; without a parse the scheme is taken as written, and a
    string without a scheme has no protocol. *)
Lemma protocol_examples :
  protocol_of (parsing_env "rtsp:") "RTSP://cam/live" = Some "rtsp" /\
  protocol_of (fixed_env JNull (Throw (new_Error "unused"))) "RTSP://cam/live"
    = Some "RTSP" /\
  protocol_of (fixed_env JNull (Throw (new_Error "unused"))) "//cam/live"
    = None.
Proof. repeat split; reflexivity. Qed.

End ProbeMore.

(** * Further properties of stream discovery *)

Module DiscoveryMore.
Import Js JsFacts Discovery DiscoveryFacts.

Lemma length_append a b : String.length (a +:+ b) = (String.length a + String.length b)%nat.
Proof.
  induction a as [|c a IH]; [reflexivity|].
  change (S (String.length (a +:+ b)) = S (String.length a + String.length b)).
  rewrite IH. reflexivity.
Qed.

Lemma append_inj_l a b c : a +:+ b = a +:+ c -> b = c.
Proof.
  induction a as [|x a IH]; intros H; [exact H|].
  change (String x (a +:+ b) = String x (a +:+ c)) in H.
  injection H as H. exact (IH H).
Qed.

Lemma append_inj_r a b c : a +:+ c = b +:+ c -> a = b.
Proof.
  revert b. induction a as [|x a IH]; intros [|y b] H.
  - reflexivity.
  - apply (f_equal String.length) in H. rewrite !length_append in H.
    simpl in H. lia.
  - apply (f_equal String.length) in H. rewrite !length_append in H.
    simpl in H. lia.
  - change (String x (a +:+ c) = String y (b +:+ c)) in H.
    injection H as -> H. f_equal. exact (IH b H).
Qed.

(** Positions give distinct stream identifiers and distinct storage
    keys. *)
Lemma stream_key_inj (n m : nat) :
  getDetectedStreamKey ("stream_" +:+ pretty n) =
  getDetectedStreamKey ("stream_" +:+ pretty m) -> n = m.
Proof.
  unfold getDetectedStreamKey. intros H.
  apply append_inj_l, append_inj_r, append_inj_l in H.
  exact (pretty_nat_inj _ _ H).
Qed.

Lemma describe_input_streamId cameraName now base names index input d :
  describe_input cameraName now base names index input = Some d ->
  streamId d = "stream_" +:+ pretty (index + 1)%nat.
Proof.
  unfold describe_input.
  destruct (truthy_setting (input_path input)); [|discriminate].
  destruct (List.find _ names); intros [= <-]; reflexivity.
Qed.

Lemma descriptors_cons cameraName now base names index input rest :
  descriptors cameraName now base names index (input :: rest) =
    match describe_input cameraName now base names index input with
    | Some d => d :: descriptors cameraName now base names (S index) rest
    | None => descriptors cameraName now base names (S index) rest
    end.
Proof.
  unfold descriptors. simpl. rewrite Nat.add_0_r.
  assert (Himap :
    imap ((fun i input0 =>
             describe_input cameraName now base names (index + i) input0) ∘ S) rest =
    imap (fun i input0 =>
             describe_input cameraName now base names (S index + i) input0) rest).
  { apply imap_ext. intros i x _. simpl. f_equal. lia. }
  rewrite Himap.
  destruct (describe_input cameraName now base names index input); reflexivity.
Qed.

Lemma descriptors_position cameraName now base names index inputs d :
  d ∈ descriptors cameraName now base names index inputs ->
  exists i input,
    inputs !! i = Some input /\
    describe_input cameraName now base names (index + i) input = Some d.
Proof.
  revert index. induction inputs as [|input rest IH]; intros index.
  - unfold descriptors. simpl. intros H. inversion H.
  - rewrite descriptors_cons.
    destruct (describe_input cameraName now base names index input) as [d0|] eqn:Hd.
    + intros H. apply elem_of_cons in H. destruct H as [->|H].
      * exists 0%nat, input. rewrite Nat.add_0_r. split; [reflexivity|exact Hd].
      * destruct (IH _ H) as [i [inp [Hi Hdesc]]].
        exists (S i), inp. split; [exact Hi|].
        replace (index + S i)%nat with (S index + i)%nat by lia. exact Hdesc.
    + intros H. destruct (IH _ H) as [i [inp [Hi Hdesc]]].
      exists (S i), inp. split; [exact Hi|].
      replace (index + S i)%nat with (S index + i)%nat by lia. exact Hdesc.
Qed.

(** The stream identifiers of the descriptors are pairwise distinct. *)
Lemma descriptors_NoDup cameraName now base names index inputs :
  NoDup (streamId <$> descriptors cameraName now base names index inputs).
Proof.
  revert index. induction inputs as [|input rest IH]; intros index.
  - unfold descriptors. simpl. constructor.
  - rewrite descriptors_cons.
    destruct (describe_input cameraName now base names index input) as [d0|] eqn:Hd;
      [|apply IH].
    rewrite fmap_cons. constructor; [|apply IH].
    intros Hin. apply list_elem_of_fmap in Hin. destruct Hin as [d [Hid Hd']].
    destruct (descriptors_position _ _ _ _ _ _ _ Hd') as [i [inp [_ Hdesc]]].
    apply describe_input_streamId in Hd. apply describe_input_streamId in Hdesc.
    rewrite Hd, Hdesc in Hid. apply append_inj_l in Hid.
    apply pretty_nat_inj in Hid. lia.
Qed.

(** What [forEach_input] returns and what it leaves in the world. *)
Lemma forEach_input_run (cameraName : string) (now : Z)
    (base : option string) (names : list string) (index : nat)
    (inputs : list Input) (w : World) :
  exists w',
    forEach_input cameraName now base names index inputs w =
      (w', Normal (descriptors cameraName now base names index inputs)) /\
    NoDup (streamId <$> descriptors cameraName now base names index inputs) /\
    (forall d, d ∈ descriptors cameraName now base names index inputs ->
       storage w' !! getDetectedStreamKey (streamId d) = Some (Text (url d))) /\
    (forall k,
       (forall d, d ∈ descriptors cameraName now base names index inputs ->
          k <> getDetectedStreamKey (streamId d)) ->
       storage w' !! k = storage w !! k) /\
    effects w' = effects w /\ time w' = time w /\
    config w' = config w /\ configRawJson w' = configRawJson w /\
    lastConfigFetch w' = lastConfigFetch w /\
    lastConfigRawJsonFetch w' = lastConfigRawJsonFetch w.
Proof.
  revert index w. induction inputs as [|input rest IH]; intros index w.
  - exists w. unfold descriptors. simpl. split; [reflexivity|].
    split; [constructor|]. split; [intros d H; inversion H|].
    repeat split; reflexivity.
  - pose proof (descriptors_NoDup cameraName now base names index (input :: rest))
      as Hnodup.
    rewrite descriptors_cons in *. simpl.
    destruct (describe_input cameraName now base names index input) as [d0|] eqn:Hd.
    + unfold mbind at 1. unfold M_bind, setItem, modify.
      set (w0 := {| config := config w; lastConfigFetch := lastConfigFetch w;
                    configRawJson := configRawJson w;
                    lastConfigRawJsonFetch := lastConfigRawJsonFetch w;
                    storage := <[getDetectedStreamKey (streamId d0) :=
                                   Text (url d0)]> (storage w);
                    time := time w; effects := effects w |}).
      destruct (IH (S index) w0) as [w' [Hrun [_ [Hstored [Hother Hframe]]]]].
      exists w'. unfold mbind, M_bind. rewrite Hrun.
      split; [reflexivity|]. split; [exact Hnodup|].
      split; [|split; [|exact Hframe]].
      * intros d Hin. apply elem_of_cons in Hin. destruct Hin as [->|Hin];
          [|apply Hstored, Hin].
        rewrite Hother.
        -- simpl. apply lookup_insert_eq.
        -- intros d Hin Hkey. rewrite fmap_cons in Hnodup.
           apply NoDup_cons in Hnodup. destruct Hnodup as [Hnotin _].
           apply Hnotin. apply list_elem_of_fmap. exists d. split; [|exact Hin].
           destruct (descriptors_position _ _ _ _ _ _ _ Hin) as [i [inp [_ Hdesc]]].
           apply describe_input_streamId in Hdesc.
           pose proof (describe_input_streamId _ _ _ _ _ _ _ Hd) as Hd0.
           rewrite Hdesc, Hd0 in Hkey |- *.
           apply stream_key_inj in Hkey. rewrite Hkey. reflexivity.
      * intros k Hk. rewrite Hother.
        -- simpl. apply lookup_insert_ne. intros Heq. apply (Hk d0); [left|].
           symmetry. exact Heq.
        -- intros d Hin. apply Hk. right. exact Hin.
    + destruct (IH (S index) w) as [w' [Hrun [_ [Hstored [Hother Hframe]]]]].
      exists w'. split; [exact Hrun|]. split; [exact Hnodup|].
      split; [exact Hstored|]. split; [exact Hother|exact Hframe].
Qed.


(** A probe leaves the identifier and the URL of its descriptor alone. *)
Lemma probed_from_same env d item :
  probed_from env d item -> streamId item = streamId d /\ url item = url d.
Proof.
  intros [(probes & summary & _ & ->)|(probes & e & _ & ->)];
    split; reflexivity.
Qed.

(** The callback of [mapLimit] never throws: a probe that fails leaves
    its message in [error]. It changes nothing but the list of calls. *)
Lemma probe_item_catches env item w :
  exists item',
    probe_item env item w =
      ({| config := config w; lastConfigFetch := lastConfigFetch w;
          configRawJson := configRawJson w;
          lastConfigRawJsonFetch := lastConfigRawJsonFetch w;
          storage := storage w; time := time w;
          effects := effects w ++ probes_of env item |}, Normal item') /\
    probed_from env item item'.
Proof.
  unfold probe_item, try_catch, ffprobeViaFrigate, mbind, M_bind, mret, M_ret,
    probed_from, probes_of.
  destruct (Probe.ffprobeViaFrigate (probe_env env) (url item) [])
    as [probes [summary|e]]; simpl.
  - eexists. split; [reflexivity|]. left. eexists _, _.
    split; reflexivity.
  - eexists. split; [reflexivity|]. right. eexists _, _.
    split; reflexivity.
Qed.

Lemma mapLimit_probes env limit items w :
  exists results,
    mapLimit items limit (probe_item env) w =
      ({| config := config w; lastConfigFetch := lastConfigFetch w;
          configRawJson := configRawJson w;
          lastConfigRawJsonFetch := lastConfigRawJsonFetch w;
          storage := storage w; time := time w;
          effects := effects w ++ concat (map (probes_of env) items) |},
       Normal results) /\
    Forall2 (probed_from env) items results.
Proof.
  revert w. induction items as [|item rest IH]; intros w.
  - exists []. simpl. rewrite app_nil_r. destruct w. split; [reflexivity|].
    constructor.
  - simpl. unfold mbind at 1. unfold M_bind.
    destruct (probe_item_catches env item w) as [item' [-> Hitem]].
    unfold mbind at 1. unfold M_bind.
    destruct (IH {| config := config w; lastConfigFetch := lastConfigFetch w;
                    configRawJson := configRawJson w;
                    lastConfigRawJsonFetch := lastConfigRawJsonFetch w;
                    storage := storage w; time := time w;
                    effects := effects w ++ probes_of env item |})
      as [results [-> Hrest]].
    simpl. exists (item' :: results).
    rewrite app_assoc. split; [reflexivity|]. constructor; assumption.
Qed.

(** A run of discovery whose configurations and refresh succeed. *)
Lemma discovery_run (env : Env) (cameraName : string)
    (force : bool) (concurrency : option Z) (w w1 : World)
    (raw config : option FrigateConfig) (inputs : list Input) :
  configurations env force w = (w1, Normal (raw, config)) ->
  configured_inputs raw config cameraName = Some inputs ->
  refresh env = Normal tt ->
  let found :=
    descriptors cameraName (time w)
      (strip_final_slashes <$> getBaseGo2rtcUrl env w1)
      (relay_stream_names raw config) 0 inputs in
  exists w' items,
    discoverBestConfiguredStreamUrlsAndProbe env cameraName force concurrency w =
      (w', Normal items) /\
    Forall2 (probed_from env) found items /\
    effects w' =
      effects w1 ++ concat (map (probes_of env) found) ++ [RefreshSettings] /\
    storage w' !! "probedStreams" = Some (Streams items) /\
    (forall item, item ∈ items ->
       storage w' !! getDetectedStreamKey (streamId item) = Some (Text (url item))).
Proof.
  intros Hc Hin Hrefresh found. subst found.
  unfold discoverBestConfiguredStreamUrlsAndProbe, Date_now.
  cbv beta delta [mbind M_bind get mret M_ret] iota.
  rewrite Hc, Hin.
  destruct (forEach_input_run cameraName (time w)
              (strip_final_slashes <$> getBaseGo2rtcUrl env w1)
              (relay_stream_names raw config) 0 inputs w1)
    as [w2 [-> [_ [Hstored [_ [Heff _]]]]]].
  destruct (mapLimit_probes env (default 4 concurrency)
              (descriptors cameraName (time w)
                 (strip_final_slashes <$> getBaseGo2rtcUrl env w1)
                 (relay_stream_names raw config) 0 inputs) w2)
    as [items [-> Hitems]].
  unfold setItem, tell, modify, lift. rewrite Hrefresh. simpl.
  eexists _, items. split; [reflexivity|]. split; [exact Hitems|].
  split; [simpl; rewrite Heff, <- app_assoc; reflexivity|].
  split; [simpl; apply lookup_insert_eq|].
  intros item Hitem. simpl.
  apply list_elem_of_lookup in Hitem. destruct Hitem as [i Hi].
  destruct (Forall2_lookup_r _ _ _ _ _ Hitems Hi) as [d [Hd Hfrom]].
  destruct (probed_from_same _ _ _ Hfrom) as [Hid Hurl].
  rewrite Hid, Hurl. rewrite lookup_insert_ne by discriminate.
  apply Hstored. apply list_elem_of_lookup. exists i. exact Hd.
Qed.

(** X18: discovery is not aborted by probes that fail. When the
    configurations are obtained, the camera has an inputs list and the
    settings refresh succeeds, discovery returns one item per
    descriptor, in the order of the descriptors: the descriptor with the
    summary that the probe of its URL returned or, when that probe
    threw, the descriptor with the message of what it threw as its
    error. That list replaces what was stored under [probedStreams], and
    every item's URL is stored under the key of its identifier. *)
Theorem discovery_survives_probe_failures (env : Env) (cameraName : string)
    (force : bool) (concurrency : option Z) (w w1 : World)
    (raw config : option FrigateConfig) (inputs : list Input) :
  configurations env force w = (w1, Normal (raw, config)) ->
  configured_inputs raw config cameraName = Some inputs ->
  refresh env = Normal tt ->
  exists w' items,
    discoverBestConfiguredStreamUrlsAndProbe env cameraName force concurrency w =
      (w', Normal items) /\
    Forall2 (probed_from env)
      (descriptors cameraName (time w)
         (strip_final_slashes <$> getBaseGo2rtcUrl env w1)
         (relay_stream_names raw config) 0 inputs)
      items /\
    storage w' !! "probedStreams" = Some (Streams items) /\
    (forall item, item ∈ items ->
       storage w' !! getDetectedStreamKey (streamId item) = Some (Text (url item))).
Proof.
  intros Hc Hin Hrefresh.
  destruct (discovery_run env cameraName force concurrency w w1 raw config
              inputs Hc Hin Hrefresh)
    as (w' & items & Hrun & Hitems & _ & Hstored & Hurls).
  exists w', items. split; [exact Hrun|]. split; [exact Hitems|].
  split; [exact Hstored|exact Hurls].
Qed.

Lemma discovery_survives_probe_failures_witness :
  let env := backend_with ["rtsp://192.168.1.10/new"] in
  exists w' items,
    discoverBestConfiguredStreamUrlsAndProbe env "front" false None
      fresh_provider = (w', Normal items) /\
    Forall2 (probed_from env)
      (descriptors "front" 2000 (Some "rtsp://nvr:8554") [] 0
         [InputString "rtsp://192.168.1.10/new"])
      items /\
    storage w' !! "probedStreams" = Some (Streams items) /\
    (forall item, item ∈ items ->
       storage w' !! getDetectedStreamKey (streamId item) = Some (Text (url item))).
Proof.
  apply (discovery_survives_probe_failures
           (backend_with ["rtsp://192.168.1.10/new"]) "front" false None
           fresh_provider
           {| config := Some (config_with "front" ["rtsp://192.168.1.10/new"]);
              lastConfigFetch := Some 2020;
              configRawJson := Some (config_with "front" ["rtsp://192.168.1.10/new"]);
              lastConfigRawJsonFetch := Some 2010;
              storage := ∅; time := 2020;
              effects := [Fetch "config/raw"; Fetch "config"] |}
           (Some (config_with "front" ["rtsp://192.168.1.10/new"]))
           (Some (config_with "front" ["rtsp://192.168.1.10/new"]))
           [InputString "rtsp://192.168.1.10/new"]).
  - vm_compute. reflexivity.
  - vm_compute. reflexivity.
  - reflexivity.
Defined.

(** A probe that throws leaves its message in the item: the backend
    reports the failure of its probe, the local probe throws, and the
    item of the camera's only input carries the message of line 197. *)
Lemma failed_probe_leaves_message :
  snd (discoverBestConfiguredStreamUrlsAndProbe
         (failing_backend ["rtsp://192.168.1.10/new"]) "front" false None
         fresh_provider) =
  Normal
    [{| cameraName := "front"; streamName := "Stream 1"; streamId := "stream_1";
        source := input_source; url := "rtsp://192.168.1.10/new";
        probedAt := 2000; ffprobe := None;
        error := Some ("Frigate ffprobe failed (return_code=1) for " +:+
                       "rtsp://192.168.1.10/new: no such file. " +:+
                       "Local ffprobe fallback failed: no ffprobe") |}].
Proof. vm_compute. reflexivity. Qed.

(** X19: a configuration that a call returned is served to every unforced
    call made less than five minutes after it was fetched, from the
    provider's copy and without a request; an answer without data is not
    kept, and the next call asks the backend again whenever it comes. *)
Theorem configuration_is_cached (env : Env) (force : bool) (w w1 : World)
    (answer : option FrigateConfig) (d : Z) :
  getConfiguration env force w = (w1, Normal answer) ->
  match answer with
  | Some c =>
      exists fetched,
        lastConfigFetch w1 = Some fetched /\
        (time w1 + d < fetched + 1000 * 60 * 5 ->
         getConfiguration env false (wait d w1) = (wait d w1, Normal (Some c)))
  | None =>
      effects (fst (getConfiguration env false (wait d w1))) =
        effects w1 ++ [Fetch "config"]
  end.
Proof.
  unfold getConfiguration, Date_now, baseFrigateApi, set_config,
    tell, modify, get, lift, mbind, mret, M_bind, M_ret. simpl.
  destruct (negb force && bool_decide (is_Some (config w)) &&
            within_five_minutes (time w) (lastConfigFetch w)) eqn:Hcached.
  - intros [= <- <-].
    apply andb_true_iff in Hcached. destruct Hcached as [Hc Hwithin].
    apply andb_true_iff in Hc. destruct Hc as [_ Hsome].
    apply bool_decide_eq_true in Hsome. destruct Hsome as [c Hc].
    rewrite Hc. unfold within_five_minutes in Hwithin |- *.
    destruct (lastConfigFetch w) as [t|]; [|discriminate].
    exists t. split; [reflexivity|]. intros Hd. simpl.
    apply Z.ltb_lt in Hd. rewrite Hd. reflexivity.
  - destruct (api_config env) as [data|e]; [|discriminate].
    intros [= <- <-]. simpl. destruct data as [c|]; simpl.
    + eexists. split; [reflexivity|]. intros Hd.
      apply Z.ltb_lt in Hd. rewrite Hd. reflexivity.
    + reflexivity.
Qed.

Lemma configuration_is_cached_witness :
  exists fetched,
    lastConfigFetch
      (fst (getConfiguration (backend_with ["rtsp://192.168.1.10/new"]) true
              fresh_provider)) = Some fetched /\
    (2010 + 60000 < fetched + 1000 * 60 * 5 ->
     getConfiguration (backend_with ["rtsp://192.168.1.10/new"]) false
       (wait 60000
          (fst (getConfiguration (backend_with ["rtsp://192.168.1.10/new"]) true
                  fresh_provider))) =
     (wait 60000
        (fst (getConfiguration (backend_with ["rtsp://192.168.1.10/new"]) true
                fresh_provider)),
      Normal (Some (config_with "front" ["rtsp://192.168.1.10/new"])))).
Proof.
  apply (configuration_is_cached (backend_with ["rtsp://192.168.1.10/new"]) true
           fresh_provider
           (fst (getConfiguration (backend_with ["rtsp://192.168.1.10/new"]) true
                   fresh_provider))
           (Some (config_with "front" ["rtsp://192.168.1.10/new"])) 60000).
  reflexivity.
Defined.

(** X20: the raw configuration is cached the same way, for every caller: a
    document that was returned is served again without a request for
    five minutes after its fetch (there is no way to force a fetch),
    while an empty or unparsable answer is not kept although its time is
    recorded, so that the next call fetches again. *)
Theorem raw_configuration_is_cached (env : Env) (w w1 : World)
    (answer : option FrigateConfig) (d : Z) :
  getConfigurationRawJson env w = (w1, Normal answer) ->
  match answer with
  | Some c =>
      time w1 + d < default 0 (lastConfigRawJsonFetch w1) + 1000 * 60 * 5 ->
      getConfigurationRawJson env (wait d w1) = (wait d w1, Normal (Some c))
  | None =>
      effects (fst (getConfigurationRawJson env (wait d w1))) =
        effects w1 ++ [Fetch "config/raw"]
  end.
Proof.
  unfold getConfigurationRawJson, Date_now, baseFrigateApi, set_configRawJson,
    tell, modify, get, lift, mbind, mret, M_bind, M_ret. simpl.
  destruct (bool_decide (is_Some (configRawJson w)) &&
            (time w <? default 0 (lastConfigRawJsonFetch w) + 1000 * 60 * 5))
    eqn:Hcached.
  - intros [= <- <-].
    apply andb_true_iff in Hcached. destruct Hcached as [Hsome _].
    apply bool_decide_eq_true in Hsome. destruct Hsome as [c Hc].
    rewrite Hc. intros Hd. simpl. apply Z.ltb_lt in Hd. rewrite Hd. reflexivity.
  - destruct (api_config_raw env) as [data|e]; [|discriminate].
    intros [= <- <-]. simpl. destruct data as [c|]; simpl.
    + intros Hd. apply Z.ltb_lt in Hd. rewrite Hd. reflexivity.
    + reflexivity.
Qed.

Lemma raw_configuration_is_cached_witness :
  effects (fst (getConfigurationRawJson silent_backend
                  (wait 500
                     (fst (getConfigurationRawJson silent_backend fresh_provider))))) =
  [Fetch "config/raw"] ++ [Fetch "config/raw"].
Proof.
  apply (raw_configuration_is_cached silent_backend fresh_provider
           (fst (getConfigurationRawJson silent_backend fresh_provider)) None 500).
  reflexivity.
Defined.

End DiscoveryMore.

(** * Properties of the camera device *)

Module CameraFacts.
Import Js JsFacts Discovery DiscoveryFacts DiscoveryMore Camera.

Lemma strip_all_slashes sl : all_slashes sl = true -> strip_final_slashes sl = "".
Proof.
  induction sl as [|c sl IH]; [reflexivity|]. simpl. intros H.
  apply andb_true_iff in H. destruct H as [Hc Hsl].
  rewrite (IH Hsl), Hc. reflexivity.
Qed.

Lemma strip_final_slashes_spec b sl :
  (forall t, b <> t +:+ "/") ->
  all_slashes sl = true ->
  strip_final_slashes (b +:+ sl) = b.
Proof.
  intros Hb Hsl. induction b as [|c b IH].
  - apply strip_all_slashes. exact Hsl.
  - change (strip_final_slashes (String c (b +:+ sl)) = String c b). simpl.
    destruct b as [|c' b'].
    + change ("" +:+ sl) with sl. rewrite (strip_all_slashes sl Hsl).
      destruct (Ascii.eqb c "/") eqn:Hc; [|reflexivity].
      apply Ascii.eqb_eq in Hc. subst c. exfalso. apply (Hb ""). reflexivity.
    + rewrite IH; [reflexivity|].
      intros t Ht. apply (Hb (String c t)).
      change (String c (String c' b') = String c (t +:+ "/")). rewrite Ht.
      reflexivity.
Qed.

(** X21: the URL of a relay stream is the base setting, one slash and the
    stream name, however many slashes the setting ends with (the same
    replacement is applied to the base URL of discovery, line 323); with
    no base setting or no name there is no URL. *)
Theorem relay_url_ignores_final_slashes (env : Env) (streamName b sl : string) :
  truthy_string streamName = true ->
  baseGo2rtcUrl_value (discovery_env env) = Some (b +:+ sl) ->
  truthy_string (b +:+ sl) = true ->
  (forall t, b <> t +:+ "/") ->
  all_slashes sl = true ->
  getGo2RtcUrlForStreamName env streamName = Some (b +:+ "/" +:+ streamName) /\
  strip_final_slashes <$> Some (b +:+ sl) = Some b.
Proof.
  intros Hname Hbase Htruthy Hb Hsl.
  unfold getGo2RtcUrlForStreamName, truthy_setting.
  rewrite Hname, Hbase, Htruthy. simpl.
  rewrite (strip_final_slashes_spec b sl Hb Hsl). split; reflexivity.
Qed.

Lemma no_final_slash_example t : "rtsp://nvr:8554" <> t +:+ "/".
Proof.
  intros H. apply (f_equal (fun s => String.get (String.length s - 1) s)) in H.
  rewrite length_append in H. simpl in H.
  replace (String.length t + 1 - 1)%nat with (String.length t) in H by lia.
  assert (Hget : forall u, String.get (String.length u) (u +:+ "/") = Some "/"%char).
  { induction u as [|c u IH]; [reflexivity|].
    change (String.get (S (String.length u)) (String c (u +:+ "/")) = Some "/"%char).
    simpl. exact IH. }
  rewrite Hget in H. discriminate H.
Defined.

Lemma relay_url_ignores_final_slashes_witness :
  getGo2RtcUrlForStreamName
    (demo_env (backend_with [])) "birdseye" = Some ("rtsp://nvr:8554" +:+ "/" +:+ "birdseye") /\
  strip_final_slashes <$> Some ("rtsp://nvr:8554" +:+ "/") = Some "rtsp://nvr:8554".
Proof.
  apply (relay_url_ignores_final_slashes (demo_env (backend_with [])) "birdseye"
           "rtsp://nvr:8554" "/"); try reflexivity.
  exact no_final_slash_example.
Defined.

(** X22: after a discovery that succeeded on an ordinary camera, the stream
    options are the discovered items in order: one option per item, with
    the item's name and identifier, the protocol and frame size of its
    probe, and the discovered URL read back from the storage; and there
    is one URL setting per item, under the same key, with the item's name
    as subgroup and the discovered URL as default. *)
Theorem stream_options_follow_discovery (env : Env) (cameraName : string)
    (force : bool) (concurrency : option Z) (w w1 : Discovery.World)
    (raw config : option FrigateConfig) (inputs : list Input) :
  isBirdseyeCamera env cameraName = false ->
  configurations (discovery_env env) force w = (w1, Normal (raw, config)) ->
  configured_inputs raw config cameraName = Some inputs ->
  refresh (discovery_env env) = Normal tt ->
  exists w' items,
    discoverBestConfiguredStreamUrlsAndProbe (discovery_env env) cameraName
      force concurrency w = (w', Normal items) /\
    getConstructedVideoStreamOptions env cameraName (storage w') =
      map (fun item => option_of (Some (Text (url item))) item) items /\
    getStreamsSettings env cameraName (storage w') =
      map (fun item =>
             {| key := getDetectedStreamKey (streamId item);
                subgroup := streamName item;
                defaultValue := url item |}) items.
Proof.
  intros Hbird Hc Hin Hrefresh.
  destruct (discovery_run (discovery_env env) cameraName force
              concurrency w w1 raw config inputs Hc Hin Hrefresh)
    as [w' [items [Hrun [_ [_ [Hstored Hurls]]]]]].
  exists w', items. split; [exact Hrun|].
  unfold getConstructedVideoStreamOptions, getStreamsSettings,
    getStoredProbedStreams.
  rewrite Hbird, Hstored. split; [|reflexivity].
  apply map_ext_in. intros item Hitem. unfold option_of.
  rewrite (Hurls item) by (apply list_elem_of_In; exact Hitem). reflexivity.
Qed.

Lemma stream_options_follow_discovery_witness :
  exists w' items,
    discoverBestConfiguredStreamUrlsAndProbe
      (backend_with ["rtsp://192.168.1.10/new"]) "front" false None
      fresh_provider = (w', Normal items) /\
    getConstructedVideoStreamOptions
      (demo_env (backend_with ["rtsp://192.168.1.10/new"])) "front" (storage w') =
      map (fun item => option_of (Some (Text (url item))) item) items /\
    getStreamsSettings
      (demo_env (backend_with ["rtsp://192.168.1.10/new"])) "front" (storage w') =
      map (fun item =>
             {| key := getDetectedStreamKey (streamId item);
                subgroup := streamName item;
                defaultValue := url item |}) items.
Proof.
  apply (stream_options_follow_discovery
           (demo_env (backend_with ["rtsp://192.168.1.10/new"])) "front" false None
           fresh_provider
           {| config := Some (config_with "front" ["rtsp://192.168.1.10/new"]);
              lastConfigFetch := Some 2020;
              configRawJson := Some (config_with "front" ["rtsp://192.168.1.10/new"]);
              lastConfigRawJsonFetch := Some 2010;
              storage := ∅; time := 2020;
              effects := [Fetch "config/raw"; Fetch "config"] |}
           (Some (config_with "front" ["rtsp://192.168.1.10/new"]))
           (Some (config_with "front" ["rtsp://192.168.1.10/new"]))
           [InputString "rtsp://192.168.1.10/new"]).
  - reflexivity.
  - vm_compute. reflexivity.
  - vm_compute. reflexivity.
  - reflexivity.
Defined.

(** X23: the overview camera is never probed. Whatever its storage holds, it
    has no URL settings and its stream options are the one relay stream
    "birdseye" when a base relay URL is set and none otherwise; its
    start-up fetches nothing, probes nothing and registers no listener:
    it refreshes the settings and ends as that refresh ends. *)
Theorem overview_camera_is_never_probed (env : Env) (cameraName : string)
    (storage : gmap string Item) (w : World) :
  isBirdseyeCamera env cameraName = true ->
  getStreamsSettings env cameraName storage = [] /\
  getConstructedVideoStreamOptions env cameraName storage =
    match truthy_setting (baseGo2rtcUrl_value (discovery_env env)) with
    | Some base =>
        [{| name := "Birdseye"; id := "birdseye"; container := Some "rtsp";
            stream_url := Some (Text (strip_final_slashes base +:+ "/birdseye"));
            video := None |}]
    | None => []
    end /\
  exists d,
    init env cameraName w =
      ({| device := d; listeners := listeners w |},
       refresh (discovery_env env)) /\
    Discovery.effects d = Discovery.effects (device w) ++ [RefreshSettings] /\
    Discovery.storage d = Discovery.storage (device w).
Proof.
  intros Hbird. unfold getStreamsSettings, getConstructedVideoStreamOptions,
    getGo2RtcUrlForStreamName, init, refreshSettings, on_device.
  rewrite Hbird. split; [reflexivity|]. split.
  - simpl. destruct (truthy_setting _); reflexivity.
  - cbv beta delta [mbind M_bind mret M_ret Discovery.tell modify lift] iota.
    simpl. exists (fst (Discovery.tell RefreshSettings (device w))).
    split; [|split; reflexivity].
    destruct (refresh (discovery_env env)) as [[]|e]; reflexivity.
Qed.

Lemma overview_camera_is_never_probed_witness :
  getStreamsSettings (demo_env (backend_with [])) "birdseye" ∅ = [] /\
  getConstructedVideoStreamOptions (demo_env (backend_with [])) "birdseye" ∅ =
    match truthy_setting (Some "rtsp://nvr:8554/") with
    | Some base =>
        [{| name := "Birdseye"; id := "birdseye"; container := Some "rtsp";
            stream_url := Some (Text (strip_final_slashes base +:+ "/birdseye"));
            video := None |}]
    | None => []
    end /\
  exists d,
    init (demo_env (backend_with [])) "birdseye" (start fresh_provider) =
      ({| device := d; listeners := 0 |}, Normal tt) /\
    Discovery.effects d = [] ++ [RefreshSettings] /\
    Discovery.storage d = ∅.
Proof.
  apply (overview_camera_is_never_probed (demo_env (backend_with [])) "birdseye"
           ∅ (start fresh_provider)).
  reflexivity.
Defined.

(** X24: start-up of an ordinary camera. With stored descriptors it makes no
    request and no probe; without any it runs one unforced discovery with
    two probes at a time. In both cases it registers one listener,
    refreshes the settings and ends as that refresh ends: a discovery
    that throws does not make the start-up fail. *)
Theorem startup_outlives_discovery (env : Env) (cameraName : string) (w : World) :
  isBirdseyeCamera env cameraName = false ->
  let after_discovery :=
    match getStoredProbedStreams env (storage (device w)) with
    | [] =>
        fst (discoverBestConfiguredStreamUrlsAndProbe (discovery_env env)
               cameraName false (Some 2) (device w))
    | _ :: _ => device w
    end in
  init env cameraName w =
    ({| device := fst (Discovery.tell RefreshSettings after_discovery);
        listeners := S (listeners w) |},
     refresh (discovery_env env)).
Proof.
  intros Hbird after_discovery. subst after_discovery.
  unfold init, refreshSettings, on_device. rewrite Hbird.
  cbv beta delta [mbind M_bind mret M_ret get try_catch modify lift] iota.
  simpl.
  destruct (getStoredProbedStreams env (storage (device w))) as [|item rest].
  - destruct (discoverBestConfiguredStreamUrlsAndProbe (discovery_env env)
                cameraName false (Some 2) (device w)) as [d [items|e]]; simpl;
      destruct (refresh (discovery_env env)) as [[]|e']; reflexivity.
  - simpl. destruct (refresh (discovery_env env)) as [[]|e']; reflexivity.
Qed.

Lemma startup_outlives_discovery_witness :
  init (demo_env (backend_with ["rtsp://192.168.1.10/new"])) "back"
    (start fresh_provider) =
  ({| device :=
        fst (Discovery.tell RefreshSettings
               (fst (discoverBestConfiguredStreamUrlsAndProbe
                       (backend_with ["rtsp://192.168.1.10/new"]) "back" false
                       (Some 2) fresh_provider)));
      listeners := 1 |},
   Normal tt).
Proof.
  apply (startup_outlives_discovery
           (demo_env (backend_with ["rtsp://192.168.1.10/new"])) "back"
           (start fresh_provider)).
  reflexivity.
Defined.

End CameraFacts.

(** * Properties of the plugin's cameras *)

Module PluginFacts.
Import Js Discovery Plugin.

Lemma prefix_empty (s : string) : String.prefix "" s = true.
Proof. destruct s; reflexivity. Qed.

Lemma prefix_before_separator (c : ascii) (p rest : string) :
  String.prefix "__" (String c (p +:+ "__" +:+ rest)) =
  String.prefix "__" (String c (p +:+ "_")).
Proof.
  destruct p as [|a p].
  - change (String.prefix "__" (String c (String "_" (String "_" rest))) =
            String.prefix "__" (String c (String "_" EmptyString))).
    cbn [String.prefix].
    repeat match goal with
           | |- context [ascii_dec ?x ?y] => destruct (ascii_dec x y)
           end; rewrite ?prefix_empty; reflexivity.
  - change (String.prefix "__" (String c (String a (p +:+ "__" +:+ rest))) =
            String.prefix "__" (String c (String a (p +:+ "_")))).
    cbn [String.prefix].
    repeat match goal with
           | |- context [ascii_dec ?x ?y] => destruct (ascii_dec x y)
           end; rewrite ?prefix_empty; reflexivity.
Qed.

(** Up to the first separator, [split] gives the text before it. *)
Lemma split_piece (p rest : string) :
  includes "__" (p +:+ "_") = false ->
  split_string "__" (p +:+ "__" +:+ rest) = p :: split_string "__" rest.
Proof.
  unfold split_string.
  induction p as [|c p IH]; intros H.
  - destruct rest; reflexivity.
  - change (String c p +:+ "_") with (String c (p +:+ "_")) in H.
    change (String c p +:+ "__" +:+ rest)
      with (String c (p +:+ "__" +:+ rest)).
    cbn [includes] in H. apply orb_false_elim in H. destruct H as [Hhere Hrest].
    cbn [split_string_from].
    rewrite prefix_before_separator, Hhere, (IH Hrest). reflexivity.
Qed.

(** A text without the separator is one piece. *)
Lemma split_whole (s : string) :
  includes "__" s = false -> split_string "__" s = [s].
Proof.
  unfold split_string.
  induction s as [|c s IH]; intros H.
  - reflexivity.
  - cbn [includes] in H. apply orb_false_elim in H. destruct H as [Hhere Hrest].
    cbn [split_string_from]. rewrite Hhere, (IH Hrest). reflexivity.
Qed.

Lemma split_never_empty (skip : nat) (s : string) :
  split_string_from "__" skip s <> [].
Proof.
  revert skip. induction s as [|c s IH]; intros skip.
  - discriminate.
  - cbn [split_string_from]. destruct skip as [|k]; [|apply IH].
    destruct (String.prefix "__" (String c s)); [discriminate|].
    destruct (split_string_from "__" 0 s); discriminate.
Qed.

Ltac run_plugin :=
  cbv beta delta [mbind M_bind mret M_ret lift Plugin.tell modify get] iota.

(** The identifier of a camera whose name has no double underscore
    splits into the prefix and the name. *)
Lemma native_id_pieces (env : Env) (cameraName : string) :
  includes "__" (importedCameraNativeIdPrefix env +:+ "_") = false ->
  includes "__" cameraName = false ->
  split_string "__" (camera_nativeId_of env cameraName) =
  [importedCameraNativeIdPrefix env; cameraName].
Proof.
  intros Hp Hn. unfold camera_nativeId_of.
  rewrite (split_piece _ _ Hp), (split_whole _ Hn). reflexivity.
Qed.

Lemma native_id_not_inherited (env : Env) (cameraName : string) :
  includes "__" (importedCameraNativeIdPrefix env +:+ "_") = false ->
  includes "__" cameraName = false ->
  camera_nativeId_of env cameraName ∉ Object_prototype_names.
Proof.
  intros Hp Hn Hin. pose proof (native_id_pieces env cameraName Hp Hn) as Hs.
  unfold Object_prototype_names in Hin.
  repeat (apply elem_of_cons in Hin;
          destruct Hin as [Hin|Hin];
          [rewrite Hin in Hs; vm_compute in Hs; discriminate|]).
  apply elem_of_nil in Hin. exact Hin.
Qed.

(** The constructor returns, and all it does by then is to make calls:
    to the backend or the settings, recorded with the provider, and to
    register the listener of this camera. *)
Lemma construct_frame (env : Env) (nativeId : string)
    (cameraName : option string) (w : World) :
  exists started listens,
    construct env nativeId cameraName w =
      ({| provider := requested (provider w) started;
          camerasMap := camerasMap w;
          discoveredDevices := discoveredDevices w;
          calls := calls w ++ listens |}, Normal tt) /\
    Forall (fun c => c = Listen nativeId) listens.
Proof.
  destruct w as [[c lc r lr st t eff] cams found made].
  unfold construct, on_provider, getConfigurationRawJson_begins, Date_now,
    Discovery.tell, requested.
  run_plugin. cbn [provider camerasMap discoveredDevices calls config
                   lastConfigFetch configRawJson lastConfigRawJsonFetch
                   storage time effects].
  case_bool_decide as Hbird.
  - exists [RefreshSettings], []. rewrite app_nil_r.
    split; [reflexivity|constructor].
  - destruct (Camera.getStoredProbedStreams (camera_env env)
                (getDeviceStorage env nativeId)) as [|item items].
    + simpl.
      match goal with
      | |- context [if ?b then _ else _] => destruct b
      end.
      * exists [], []. rewrite !app_nil_r.
        split; [reflexivity|constructor].
      * exists [Fetch "config/raw"], []. rewrite app_nil_r.
        split; [reflexivity|constructor].
    + exists [RefreshSettings], [Listen nativeId].
      split; [reflexivity|repeat constructor].
Qed.

Lemma getCamera_new (env : Env) (nativeId : string) (w : World) :
  camerasMap w !! nativeId = None ->
  nativeId ∉ Object_prototype_names ->
  exists started listens,
    getCamera env nativeId w =
      ({| provider := requested (provider w) started;
          camerasMap :=
            <[nativeId := {| camera_nativeId := nativeId;
                             camera_cameraName :=
                               split_string "__" nativeId !! 1%nat |}]>
              (camerasMap w);
          discoveredDevices := discoveredDevices w;
          calls := calls w ++ listens |},
       Normal (Camera {| camera_nativeId := nativeId;
                         camera_cameraName :=
                           split_string "__" nativeId !! 1%nat |})) /\
    Forall (fun c => c = Listen nativeId) listens.
Proof.
  intros Hnone Hown. unfold getCamera.
  destruct (construct_frame env nativeId (split_string "__" nativeId !! 1%nat) w)
    as (started & listens & Hrun & Hlistens).
  exists started, listens. split; [|exact Hlistens].
  run_plugin. rewrite Hnone.
  rewrite bool_decide_eq_false_2 by exact Hown.
  rewrite Hrun. reflexivity.
Qed.

(** X25: [getCamera] on the identifier that [syncCameras] builds for a
    camera gives a camera object with that camera's name, as long as
    neither the name nor the prefix followed by one underscore holds a
    double underscore. *)
Theorem camera_name_round_trip (env : Env) (cameraName : string) (w : World) :
  includes "__" (importedCameraNativeIdPrefix env +:+ "_") = false ->
  includes "__" cameraName = false ->
  camerasMap w !! camera_nativeId_of env cameraName = None ->
  exists w',
    getCamera env (camera_nativeId_of env cameraName) w =
      (w', Normal (Camera {| camera_nativeId := camera_nativeId_of env cameraName;
                             camera_cameraName := Some cameraName |})) /\
    camerasMap w' !! camera_nativeId_of env cameraName =
      Some {| camera_nativeId := camera_nativeId_of env cameraName;
              camera_cameraName := Some cameraName |}.
Proof.
  intros Hp Hn Hnone.
  destruct (getCamera_new env _ w Hnone (native_id_not_inherited env _ Hp Hn))
    as (started & listens & Hrun & _).
  rewrite Hrun, (native_id_pieces env _ Hp Hn).
  eexists. split; [reflexivity|]. simpl. apply lookup_insert_eq.
Qed.

Lemma camera_name_round_trip_witness :
  exists w',
    getCamera (demo_env silent_backend []) "frigateCamera__front_door"
      (start fresh_provider) =
      (w', Normal (Camera {| camera_nativeId := "frigateCamera__front_door";
                             camera_cameraName := Some "front_door" |})) /\
    camerasMap w' !! "frigateCamera__front_door" =
      Some {| camera_nativeId := "frigateCamera__front_door";
              camera_cameraName := Some "front_door" |}.
Proof.
  apply (camera_name_round_trip (demo_env silent_backend []) "front_door"
           (start fresh_provider)); reflexivity.
Defined.

(** X26: a camera whose name holds a double underscore gets a camera object
    named by the part of its name before the first double underscore. *)
Theorem camera_name_is_cut_at_double_underscore
    (env : Env) (before after : string) (w : World) :
  includes "__" (importedCameraNativeIdPrefix env +:+ "_") = false ->
  includes "__" (before +:+ "_") = false ->
  camera_nativeId_of env (before +:+ "__" +:+ after) ∉ Object_prototype_names ->
  camerasMap w !! camera_nativeId_of env (before +:+ "__" +:+ after) = None ->
  exists w',
    getCamera env (camera_nativeId_of env (before +:+ "__" +:+ after)) w =
      (w', Normal (Camera
         {| camera_nativeId := camera_nativeId_of env (before +:+ "__" +:+ after);
            camera_cameraName := Some before |})).
Proof.
  intros Hp Hb Hown Hnone.
  destruct (getCamera_new env _ w Hnone Hown) as (started & listens & Hrun & _).
  rewrite Hrun.
  unfold camera_nativeId_of.
  rewrite (split_piece _ _ Hp), (split_piece _ _ Hb).
  eexists. reflexivity.
Qed.

Lemma camera_name_is_cut_at_double_underscore_witness :
  exists w',
    getCamera (demo_env silent_backend []) "frigateCamera__back__yard"
      (start fresh_provider) =
      (w', Normal (Camera {| camera_nativeId := "frigateCamera__back__yard";
                             camera_cameraName := Some "back" |})).
Proof.
  apply (camera_name_is_cut_at_double_underscore
           (demo_env silent_backend []) "back" "yard" (start fresh_provider));
    try reflexivity.
  apply (proj1 (bool_decide_eq_false _)). reflexivity.
Defined.

(** A second [getCamera] on the same identifier returns what the first
    returned and changes nothing: the camera is made, and started, once. *)
Lemma camera_object_is_reused (env : Env) (nativeId : string) (w : World) :
  getCamera env nativeId (getCamera env nativeId w).1 =
  ((getCamera env nativeId w).1, (getCamera env nativeId w).2).
Proof.
  unfold getCamera. run_plugin.
  destruct (camerasMap w !! nativeId) as [found|] eqn:Hfound.
  - cbn [fst snd]. rewrite Hfound. reflexivity.
  - destruct (bool_decide (nativeId ∈ Object_prototype_names)) eqn:Hown.
    + cbn [fst snd]. rewrite Hfound. reflexivity.
    + destruct (construct_frame env nativeId
                  (split_string "__" nativeId !! 1%nat) w)
        as (started & listens & Hrun & _).
      rewrite Hrun. cbn [fst snd camerasMap]. rewrite lookup_insert_eq.
      reflexivity.
Qed.

(** What the constructor has begun when [getCamera] returns: for a
    camera without stored streams, with no raw configuration at hand,
    the request for the raw configuration; for the overview camera, the
    settings refresh. *)
Lemma getCamera_starts_the_camera :
  Discovery.effects
    (provider
       (getCamera (demo_env silent_backend []) "frigateCamera__front"
          (start fresh_provider)).1) = [Fetch "config/raw"] /\
  Discovery.effects
    (provider
       (getCamera (demo_env silent_backend []) "frigateCamera__birdseye"
          (start fresh_provider)).1) = [RefreshSettings].
Proof. split; vm_compute; reflexivity. Qed.

Lemma for_each_cons (n : string) (rest : list string)
    (body : string -> M World unit) (w : World) :
  for_each (n :: rest) body w =
  match body n w with
  | (w', Normal _) => for_each rest body w'
  | (w', Throw e) => (w', Throw e)
  end.
Proof. reflexivity. Qed.

Lemma sync_camera_run (env : Env) (c : string) (w : World) :
  sync_camera env c w =
  (let n := camera_nativeId_of env c in
   let dev := {| nativeId := n; name := friendly_name env c |} in
   if bool_decide (n ∈ getNativeIds env)
   then {| provider := provider w; camerasMap := camerasMap w;
           discoveredDevices := discoveredDevices w;
           calls := calls w ++ [OnDeviceDiscovered dev] |}
   else if discovered_has (discoveredDevices w) n then w
   else {| provider := provider w; camerasMap := camerasMap w;
           discoveredDevices := discoveredDevices w ++ [(n, dev)];
           calls := calls w |},
   Normal tt).
Proof.
  unfold sync_camera. run_plugin. cbv zeta.
  destruct (bool_decide (camera_nativeId_of env c ∈ getNativeIds env));
    [reflexivity|].
  destruct (discovered_has (discoveredDevices w) (camera_nativeId_of env c));
    reflexivity.
Qed.

(** What the loop of [syncCameras] does to the world: it appends to
    [discoveredDevices] and to the calls, and nothing else. *)
Lemma sync_loop (env : Env) (names : list string) : forall w,
  exists added announced,
    for_each names (sync_camera env) w =
      ({| provider := provider w; camerasMap := camerasMap w;
          discoveredDevices := discoveredDevices w ++ added;
          calls := calls w ++ map OnDeviceDiscovered announced |}, Normal tt) /\
    (forall n d, (n, d) ∈ added ->
       (n ∉ getNativeIds env) /\ (n ∉ (discoveredDevices w).*1) /\
       exists c, c ∈ names /\ n = camera_nativeId_of env c /\
                 d = {| nativeId := n; name := friendly_name env c |}) /\
    NoDup added.*1 /\
    (forall d, d ∈ announced ->
       nativeId d ∈ getNativeIds env /\
       exists c, c ∈ names /\
                 d = {| nativeId := camera_nativeId_of env c;
                        name := friendly_name env c |}) /\
    (forall c, c ∈ names ->
       if bool_decide (camera_nativeId_of env c ∈ getNativeIds env)
       then {| nativeId := camera_nativeId_of env c;
               name := friendly_name env c |} ∈ announced
       else camera_nativeId_of env c ∈ (discoveredDevices w ++ added).*1).
Proof.
  induction names as [|c names IH]; intros [p cm dd cl].
  - exists [], []. cbn [for_each provider camerasMap discoveredDevices calls map].
    rewrite !app_nil_r. split; [reflexivity|].
    split; [intros n d H; apply elem_of_nil in H; destruct H|].
    split; [constructor|].
    split; [intros d H; apply elem_of_nil in H; destruct H|].
    intros c H; apply elem_of_nil in H; destruct H.
  - rewrite for_each_cons, sync_camera_run. cbv zeta.
    cbn [provider camerasMap discoveredDevices calls].
    set (n := camera_nativeId_of env c).
    set (dev := {| nativeId := n; name := friendly_name env c |}).
    destruct (bool_decide (n ∈ getNativeIds env)) eqn:Hadopted.
    + apply bool_decide_eq_true in Hadopted.
      destruct (IH {| provider := p; camerasMap := cm; discoveredDevices := dd;
                      calls := cl ++ [OnDeviceDiscovered dev] |})
        as (added & announced & Hrun & Hadded & Hnodup & Hann & Hall).
      cbn [provider camerasMap discoveredDevices calls] in *.
      exists added, (dev :: announced). rewrite Hrun.
      split; [cbn [map]; rewrite <- app_assoc; reflexivity|].
      split.
      { intros n' d' Hin. destruct (Hadded n' d' Hin) as (? & ? & c' & ? & ? & ?).
        split; [assumption|]. split; [assumption|].
        exists c'. split; [apply elem_of_cons; right; assumption|]. split; assumption. }
      split; [assumption|].
      split.
      { intros d' Hin. apply elem_of_cons in Hin. destruct Hin as [->|Hin].
        - split; [exact Hadopted|]. exists c. split; [apply elem_of_cons; left; reflexivity|].
          reflexivity.
        - destruct (Hann d' Hin) as (? & c' & ? & ?). split; [assumption|].
          exists c'. split; [apply elem_of_cons; right; assumption|assumption]. }
      intros c' Hin. apply elem_of_cons in Hin. destruct Hin as [->|Hin].
      * fold n. rewrite bool_decide_eq_true_2 by exact Hadopted.
        apply elem_of_cons. left. reflexivity.
      * specialize (Hall c' Hin).
        destruct (bool_decide (camera_nativeId_of env c' ∈ getNativeIds env));
          [apply elem_of_cons; right; assumption|assumption].
    + apply bool_decide_eq_false in Hadopted.
      destruct (discovered_has dd n) eqn:Hhas.
      * apply bool_decide_eq_true in Hhas.
        destruct (IH {| provider := p; camerasMap := cm; discoveredDevices := dd;
                        calls := cl |})
          as (added & announced & Hrun & Hadded & Hnodup & Hann & Hall).
        cbn [provider camerasMap discoveredDevices calls] in *.
        exists added, announced. rewrite Hrun.
        split; [reflexivity|].
        split.
        { intros n' d' Hin. destruct (Hadded n' d' Hin) as (? & ? & c' & ? & ? & ?).
          split; [assumption|]. split; [assumption|].
          exists c'. split; [apply elem_of_cons; right; assumption|]. split; assumption. }
        split; [assumption|].
        split.
        { intros d' Hin. destruct (Hann d' Hin) as (? & c' & ? & ?). split; [assumption|].
          exists c'. split; [apply elem_of_cons; right; assumption|assumption]. }
        intros c' Hin. apply elem_of_cons in Hin. destruct Hin as [->|Hin].
        -- fold n. rewrite bool_decide_eq_false_2 by exact Hadopted.
           rewrite fmap_app. apply elem_of_app. left. exact Hhas.
        -- exact (Hall c' Hin).
      * apply bool_decide_eq_false in Hhas.
        destruct (IH {| provider := p; camerasMap := cm;
                        discoveredDevices := dd ++ [(n, dev)]; calls := cl |})
          as (added & announced & Hrun & Hadded & Hnodup & Hann & Hall).
        cbn [provider camerasMap discoveredDevices calls] in *.
        exists ((n, dev) :: added), announced. rewrite Hrun.
        split; [rewrite <- app_assoc; reflexivity|].
        split.
        { intros n' d' Hin. apply elem_of_cons in Hin. destruct Hin as [Heq|Hin].
          - injection Heq as -> ->.
            split; [exact Hadopted|]. split; [exact Hhas|].
            exists c. split; [apply elem_of_cons; left; reflexivity|].
            split; reflexivity.
          - destruct (Hadded n' d' Hin) as (? & Hnot & c' & ? & ? & ?).
            split; [assumption|].
            split; [intros Hold; apply Hnot; rewrite fmap_app; apply elem_of_app;
                    left; exact Hold|].
            exists c'. split; [apply elem_of_cons; right; assumption|].
            split; assumption. }
        split.
        { cbn [fmap list_fmap fst]. apply NoDup_cons. split; [|exact Hnodup].
          intros Hin. apply list_elem_of_fmap in Hin.
          destruct Hin as ([n' d'] & Heq & Hin). cbn [fst] in Heq. subst n'.
          destruct (Hadded n d' Hin) as (_ & Hnot & _). apply Hnot.
          rewrite fmap_app. apply elem_of_app. right.
          apply elem_of_cons. left. reflexivity. }
        split.
        { intros d' Hin. destruct (Hann d' Hin) as (? & c' & ? & ?). split; [assumption|].
          exists c'. split; [apply elem_of_cons; right; assumption|assumption]. }
        intros c' Hin. apply elem_of_cons in Hin. destruct Hin as [->|Hin].
        -- fold n. rewrite bool_decide_eq_false_2 by exact Hadopted.
           rewrite fmap_app. apply elem_of_app. right.
           apply elem_of_cons. left. reflexivity.
        -- specialize (Hall c' Hin). rewrite <- app_assoc in Hall. exact Hall.
Qed.

Lemma camera_names_spec (env : Env)
    (cams : gmap string FrigateCameraConfig) (c : string) :
  c ∈ (map_to_list cams).*1 ++ [birdseyeStreamName env] <->
  is_Some (cams !! c) \/ c = birdseyeStreamName env.
Proof.
  rewrite elem_of_app, list_elem_of_singleton. split.
  - intros [Hin|Hin]; [left|right; exact Hin].
    apply list_elem_of_fmap in Hin. destruct Hin as ([k v] & -> & Hin).
    apply elem_of_map_to_list in Hin. exists v. exact Hin.
  - intros [[v Hv]|Heq]; [left|right; exact Heq].
    apply list_elem_of_fmap. exists (c, v). split; [reflexivity|].
    apply elem_of_map_to_list. exact Hv.
Qed.

(** X27: after [syncCameras], every camera of the configuration and the
    overview camera is either announced to the platform, when the
    platform already has its identifier, or listed among the discovered
    devices; entries listed before stay as they were, and what is added
    are cameras of the configuration that were neither adopted nor
    listed. *)
Theorem sync_lists_every_camera (env : Env) (force : bool) (w : World)
    (p : Discovery.World) (config : FrigateConfig)
    (cams : gmap string FrigateCameraConfig) :
  getConfiguration (discovery_env env) force (provider w) =
    (p, Normal (Some config)) ->
  cameras config = Some cams ->
  exists added announced,
    syncCameras env force w =
      ({| provider := p; camerasMap := camerasMap w;
          discoveredDevices := discoveredDevices w ++ added;
          calls := calls w ++ map OnDeviceDiscovered announced |}, Normal tt) /\
    (forall n d, (n, d) ∈ added ->
       (n ∉ getNativeIds env) /\ (n ∉ (discoveredDevices w).*1) /\
       exists c, (is_Some (cams !! c) \/ c = birdseyeStreamName env) /\
                 n = camera_nativeId_of env c /\
                 d = {| nativeId := n; name := friendly_name env c |}) /\
    NoDup added.*1 /\
    (forall d, d ∈ announced -> nativeId d ∈ getNativeIds env) /\
    (forall c, is_Some (cams !! c) \/ c = birdseyeStreamName env ->
       if bool_decide (camera_nativeId_of env c ∈ getNativeIds env)
       then {| nativeId := camera_nativeId_of env c;
               name := friendly_name env c |} ∈ announced
       else camera_nativeId_of env c ∈ (discoveredDevices w ++ added).*1).
Proof.
  intros Hconf Hcams. unfold syncCameras, on_provider. run_plugin.
  rewrite Hconf, Hcams.
  destruct (sync_loop env ((map_to_list cams).*1 ++ [birdseyeStreamName env])
              {| provider := p; camerasMap := camerasMap w;
                 discoveredDevices := discoveredDevices w; calls := calls w |})
    as (added & announced & Hrun & Hadded & Hnodup & Hann & Hall).
  cbn [provider camerasMap discoveredDevices calls] in *.
  exists added, announced. split; [exact Hrun|].
  split.
  { intros n d Hin. destruct (Hadded n d Hin) as (? & ? & c & Hc & ? & ?).
    split; [assumption|]. split; [assumption|].
    exists c. split; [apply camera_names_spec; exact Hc|]. split; assumption. }
  split; [exact Hnodup|].
  split; [intros d Hin; exact (proj1 (Hann d Hin))|].
  intros c Hc. apply Hall, camera_names_spec, Hc.
Qed.

Lemma sync_lists_every_camera_witness :
  exists added announced,
    syncCameras (demo_env (backend_with ["rtsp://cam/main"]) []) false
      (start (provider_after_fetch ["rtsp://cam/main"])) =
      ({| provider := provider_after_fetch ["rtsp://cam/main"];
          camerasMap := ∅;
          discoveredDevices := [] ++ added;
          calls := [] ++ map OnDeviceDiscovered announced |}, Normal tt) /\
    (forall n d, (n, d) ∈ added ->
       (n ∉ @nil string) /\ (n ∉ (@nil (string * Device)).*1) /\
       exists c,
         (is_Some (({[ "front" := camera_with ["rtsp://cam/main"] ]}
                     : gmap string FrigateCameraConfig) !! c) \/
          c = "birdseye") /\
         n = "frigateCamera" +:+ "__" +:+ c /\
         d = {| nativeId := n;
                name := friendly_name
                          (demo_env (backend_with ["rtsp://cam/main"]) []) c |}) /\
    NoDup added.*1 /\
    (forall d, d ∈ announced -> nativeId d ∈ @nil string) /\
    (forall c,
       is_Some (({[ "front" := camera_with ["rtsp://cam/main"] ]}
                   : gmap string FrigateCameraConfig) !! c) \/
       c = "birdseye" ->
       if bool_decide ("frigateCamera" +:+ "__" +:+ c ∈ @nil string)
       then {| nativeId := "frigateCamera" +:+ "__" +:+ c;
               name := friendly_name
                         (demo_env (backend_with ["rtsp://cam/main"]) []) c |}
            ∈ announced
       else "frigateCamera" +:+ "__" +:+ c ∈ ([] ++ added).*1).
Proof.
  apply (sync_lists_every_camera
           (demo_env (backend_with ["rtsp://cam/main"]) []) false
           (start (provider_after_fetch ["rtsp://cam/main"]))
           (provider_after_fetch ["rtsp://cam/main"])
           (config_with "front" ["rtsp://cam/main"])
           {[ "front" := camera_with ["rtsp://cam/main"] ]});
    reflexivity.
Defined.

(** X28: a scan that gets no configuration, or one without cameras, throws
    a [TypeError] and returns no list; the discovered devices and the
    calls to the platform are as before. *)
Theorem scan_without_cameras_throws (env : Env) (w : World)
    (p : Discovery.World) (config : option FrigateConfig) :
  getConfiguration (discovery_env env) true (provider w) = (p, Normal config) ->
  config ≫= cameras = None ->
  exists msg,
    discoverDevices env true w =
      ({| provider := p; camerasMap := camerasMap w;
          discoveredDevices := discoveredDevices w; calls := calls w |},
       Throw (TypeError msg)).
Proof.
  intros Hconf Hnone. unfold discoverDevices, syncCameras, on_provider.
  run_plugin. rewrite Hconf.
  destruct config as [config|]; [|eexists; reflexivity].
  cbn in Hnone. rewrite Hnone. eexists. reflexivity.
Qed.

Lemma scan_without_cameras_throws_witness :
  exists msg,
    discoverDevices (demo_env silent_backend []) true (start fresh_provider) =
      ({| provider :=
            (getConfiguration silent_backend true fresh_provider).1;
          camerasMap := ∅; discoveredDevices := []; calls := [] |},
       Throw (TypeError msg)).
Proof.
  apply (scan_without_cameras_throws (demo_env silent_backend [])
           (start fresh_provider) _ None); reflexivity.
Defined.

Lemma discovered_get_None (l : list (string * Device)) (nativeId : string) :
  nativeId ∉ l.*1 -> discovered_get l nativeId = None.
Proof.
  induction l as [|[k d] l IH]; intros Hnot; [reflexivity|].
  cbn [discovered_get]. destruct (String.eqb k nativeId) eqn:Heq.
  - apply String.eqb_eq in Heq. exfalso. apply Hnot.
    cbn [fmap list_fmap fst]. apply elem_of_cons. left. symmetry. exact Heq.
  - apply IH. intros Hin. apply Hnot. cbn [fmap list_fmap fst].
    apply elem_of_cons. right. exact Hin.
Qed.

Lemma discovered_get_filter (l : list (string * Device)) (nativeId k : string) :
  discovered_get (filter (fun e => e.1 <> nativeId) l) k =
  if String.eqb k nativeId then None else discovered_get l k.
Proof.
  induction l as [|[k' d] l IH].
  - cbn. destruct (String.eqb k nativeId); reflexivity.
  - rewrite filter_cons. cbn [fst]. destruct (decide (k' <> nativeId)) as [Hne|Heq].
    + cbn [discovered_get]. rewrite IH.
      destruct (String.eqb k' k) eqn:Hk; [|reflexivity].
      apply String.eqb_eq in Hk. subst k'.
      apply String.eqb_neq in Hne. rewrite Hne. reflexivity.
    + apply dec_stable in Heq. subst k'. rewrite IH. cbn [discovered_get].
      destruct (String.eqb k nativeId) eqn:Hk; [reflexivity|].
      rewrite String.eqb_sym, Hk. reflexivity.
Qed.

(** X29: adopting an identifier that is not among the discovered devices
    throws ["device not found"]; the platform is still sent the list of
    discovered devices first, and nothing else changes. *)
Theorem adopting_unknown_device_throws (env : Env) (nativeId : string) (w : World) :
  nativeId ∉ (discoveredDevices w).*1 ->
  adoptDevice env nativeId w =
    ({| provider := provider w; camerasMap := camerasMap w;
        discoveredDevices := discoveredDevices w;
        calls := calls w ++ [OnDeviceEvent (discoveredDevices w).*2] |},
     Throw (new_Error "device not found")).
Proof.
  intros Hnot. unfold adoptDevice, discoverDevices. run_plugin.
  rewrite (discovered_get_None _ _ Hnot). reflexivity.
Qed.

Lemma adopting_unknown_device_throws_witness :
  adoptDevice (demo_env silent_backend []) "frigateCamera__front"
    (start fresh_provider) =
    ({| provider := fresh_provider; camerasMap := ∅; discoveredDevices := [];
        calls := [] ++ [OnDeviceEvent (@nil (string * Device)).*2] |},
     Throw (new_Error "device not found")).
Proof.
  apply (adopting_unknown_device_throws (demo_env silent_backend [])
           "frigateCamera__front" (start fresh_provider)).
  apply not_elem_of_nil.
Defined.

(** X30: adopting a discovered device registers it with the platform,
    takes it off the list of discovered devices, leaves the other
    entries as they are, makes its camera object and returns the
    platform's id of it. The platform is first sent the list of
    discovered devices, then the registration; the only other calls are
    those of the new camera, whose constructor starts it: a listener it
    registers, and calls recorded with the provider (the start-up is
    counted as far as it has come when the constructor returns). The
    provider's copies of the configuration are as they were. *)
Theorem adoption_moves_device (env : Env) (nativeId : string) (device : Device)
    (w : World) :
  discovered_get (discoveredDevices w) nativeId = Some device ->
  camerasMap w !! nativeId = None ->
  nativeId ∉ Object_prototype_names ->
  exists w' started listens,
    adoptDevice env nativeId w = (w', Normal (device_id env nativeId)) /\
    calls w' = calls w ++ [OnDeviceEvent (discoveredDevices w).*2;
                           OnDeviceDiscovered device] ++ listens /\
    Forall (fun c => c = Listen nativeId) listens /\
    discovered_get (discoveredDevices w') nativeId = None /\
    (forall k, k <> nativeId ->
       discovered_get (discoveredDevices w') k =
       discovered_get (discoveredDevices w) k) /\
    camerasMap w' !! nativeId =
      Some {| camera_nativeId := nativeId;
              camera_cameraName := split_string "__" nativeId !! 1%nat |} /\
    (forall k, k <> nativeId -> camerasMap w' !! k = camerasMap w !! k) /\
    provider w' = requested (provider w) started.
Proof.
  intros Hentry Hnone Hown. unfold adoptDevice, discoverDevices. run_plugin.
  rewrite Hentry.
  destruct (getCamera_new env nativeId
              {| provider := provider w; camerasMap := camerasMap w;
                 discoveredDevices :=
                   filter (fun e => e.1 <> nativeId) (discoveredDevices w);
                 calls := (calls w ++ [OnDeviceEvent (discoveredDevices w).*2]) ++
                          [OnDeviceDiscovered device] |} Hnone Hown)
    as (started & listens & Hrun & Hlistens).
  cbn [provider camerasMap discoveredDevices calls] in Hrun |- *.
  rewrite Hrun.
  eexists _, started, listens. split; [reflexivity|].
  cbn [provider camerasMap discoveredDevices calls].
  split; [rewrite <- !app_assoc; reflexivity|].
  split; [exact Hlistens|].
  split; [rewrite discovered_get_filter, String.eqb_refl; reflexivity|].
  split.
  { intros k Hk. rewrite discovered_get_filter.
    apply String.eqb_neq in Hk. rewrite Hk. reflexivity. }
  split; [apply lookup_insert_eq|].
  split; [|reflexivity].
  intros k Hk. apply lookup_insert_ne. congruence.
Qed.

Lemma adoption_moves_device_witness :
  exists w' started listens,
    adoptDevice (demo_env silent_backend []) "frigateCamera__front" front_listed =
      (w', Normal (Some "42")) /\
    calls w' = [] ++ [OnDeviceEvent [front_device];
                      OnDeviceDiscovered front_device] ++ listens /\
    Forall (fun c => c = Listen "frigateCamera__front") listens /\
    discovered_get (discoveredDevices w') "frigateCamera__front" = None /\
    (forall k, k <> "frigateCamera__front" ->
       discovered_get (discoveredDevices w') k =
       discovered_get (discoveredDevices front_listed) k) /\
    camerasMap w' !! "frigateCamera__front" =
      Some {| camera_nativeId := "frigateCamera__front";
              camera_cameraName := Some "front" |} /\
    (forall k, k <> "frigateCamera__front" ->
       camerasMap w' !! k = (∅ : gmap string CameraObject) !! k) /\
    provider w' = requested fresh_provider started.
Proof.
  apply (adoption_moves_device (demo_env silent_backend [])
           "frigateCamera__front" front_device front_listed);
    try reflexivity.
  apply (proj1 (bool_decide_eq_false _)). reflexivity.
Defined.

(** In the run of the witness the new camera has nothing stored and the
    provider no raw configuration: when [adoptDevice] is done with its
    own steps, the camera's discovery has asked for the raw
    configuration and no listener is registered yet. *)
Lemma adoption_starts_discovery :
  let w' := (adoptDevice (demo_env silent_backend []) "frigateCamera__front"
               front_listed).1 in
  Discovery.effects (provider w') = [Fetch "config/raw"] /\
  calls w' = [OnDeviceEvent [front_device]; OnDeviceDiscovered front_device].
Proof. split; vm_compute; reflexivity. Qed.

End PluginFacts.
